(** * tracker-deps-odoo: the ETL pipeline, embedded and checked against its specification

    The development follows the Python sources:
    - [src/discovery/module_scanner.py]  (ModuleScanner)
    - [src/parsers/model_parser.py]      (ModelParser, OdooModel)
    - [src/incremental/state_manager.py] (StateManager)
    - [src/incremental/change_detector.py] (ChangeDetector)
    - [cli.py]                           (organize_data_for_loading)
    - [src/graph/neo4j_loader.py]        (Neo4jLoader)

    Python values are dynamically typed; they are embedded as one inductive
    type [pyval].  Dictionaries keep their insertion order, as Python's do. *)

From Stdlib Require Import ZArith String Ascii List Bool Lia DecimalString Floats.
From stdpp Require Import base option list strings countable gmap fin_maps.

Local Open Scope string_scope.
Local Open Scope list_scope.
Set Warnings "-register-all".

(** ** Python values *)

(** The fragment of Python's values that manifests, class attributes and
    field options are made of: [None], booleans, integers, strings, lists
    and dictionaries (association lists in insertion order). *)
Inductive pyval : Type :=
  | PNone
  | PBool (b : bool)
  | PInt (z : Z)
  | PStr (s : string)
  | PList (l : list pyval)
  | PDict (kvs : list (pyval * pyval)).

Section pyval_rect.
Variable P : pyval → Prop.
Hypothesis HNone : P PNone.
Hypothesis HBool : ∀ b, P (PBool b).
Hypothesis HInt : ∀ z, P (PInt z).
Hypothesis HStr : ∀ s, P (PStr s).
Hypothesis HList : ∀ l, Forall P l → P (PList l).
Hypothesis HDict : ∀ kvs, Forall (λ kv, P kv.1 ∧ P kv.2) kvs → P (PDict kvs).

Fixpoint pyval_nested_ind (v : pyval) : P v :=
  match v with
  | PNone => HNone
  | PBool b => HBool b
  | PInt z => HInt z
  | PStr s => HStr s
  | PList l =>
      HList l ((fix go (l : list pyval) : Forall P l :=
                  match l with
                  | [] => Forall_nil_2 P
                  | x :: l' => Forall_cons_2 P x l' (pyval_nested_ind x) (go l')
                  end) l)
  | PDict kvs =>
      HDict kvs ((fix go (kvs : list (pyval * pyval))
                    : Forall (λ kv, P kv.1 ∧ P kv.2) kvs :=
                    match kvs with
                    | [] => Forall_nil_2 _
                    | (k, x) :: kvs' =>
                        Forall_cons_2 (λ kv, P kv.1 ∧ P kv.2) (k, x) kvs'
                          (conj (pyval_nested_ind k) (pyval_nested_ind x)) (go kvs')
                    end) kvs)
  end.
End pyval_rect.

(** Values are countable, so that they can serve as keys of finite maps
    (node identities in the graph store). *)
Fixpoint pyval_to_tree (v : pyval) : gen_tree (bool + Z + string) :=
  match v with
  | PNone => GenNode 0 []
  | PBool b => GenLeaf (inl (inl b))
  | PInt z => GenLeaf (inl (inr z))
  | PStr s => GenLeaf (inr s)
  | PList l => GenNode 1 (map pyval_to_tree l)
  | PDict kvs =>
      GenNode 2 (map (λ kv, GenNode 3 [pyval_to_tree kv.1; pyval_to_tree kv.2]) kvs)
  end.

Fixpoint tree_to_pyval (t : gen_tree (bool + Z + string)) : pyval :=
  match t with
  | GenLeaf (inl (inl b)) => PBool b
  | GenLeaf (inl (inr z)) => PInt z
  | GenLeaf (inr s) => PStr s
  | GenNode 1 ts => PList (map tree_to_pyval ts)
  | GenNode 2 ts =>
      PDict (map (λ t, match t with
                       | GenNode _ [a; b] => (tree_to_pyval a, tree_to_pyval b)
                       | _ => (PNone, PNone)
                       end) ts)
  | GenNode _ _ => PNone
  end.

Lemma tree_to_pyval_to_tree v : tree_to_pyval (pyval_to_tree v) = v.
Proof.
  induction v as [| | | |l IH|kvs IH] using pyval_nested_ind; simpl; try done.
  - f_equal. induction IH as [|x l Hx _ IHl]; simpl; [done|]. by rewrite Hx, IHl.
  - f_equal. induction IH as [|[k x] l [Hk Hx] _ IHl]; simpl; [done|].
    simpl in *. by rewrite Hk, Hx, IHl.
Qed.

#[global] Instance pyval_to_tree_inj : Inj (=) (=) pyval_to_tree.
Proof.
  intros x y H. rewrite <-(tree_to_pyval_to_tree x), <-(tree_to_pyval_to_tree y).
  by rewrite H.
Qed.

#[global] Instance pyval_eq_dec : EqDecision pyval :=
  λ x y, match decide (pyval_to_tree x = pyval_to_tree y) with
         | left e => left (pyval_to_tree_inj x y e)
         | right n => right (λ e, n (f_equal pyval_to_tree e))
         end.

#[global] Instance pyval_countable : Countable pyval :=
  inj_countable' pyval_to_tree tree_to_pyval tree_to_pyval_to_tree.

(** [bool(v)]: Python's truth value. *)
Definition py_truthy (v : pyval) : bool :=
  match v with
  | PNone => false
  | PBool b => b
  | PInt z => negb (z =? 0)%Z
  | PStr s => negb (String.eqb s "")
  | PList l => negb (Nat.eqb (length l) 0)
  | PDict kvs => negb (Nat.eqb (length kvs) 0)
  end.

(** [a or b]. *)
Definition py_or (a b : pyval) : pyval := if py_truthy a then a else b.

(** [a == b].  Booleans compare equal to the integers 0 and 1; dictionaries
    compare without regard to order. *)
Fixpoint py_eqb (a b : pyval) {struct a} : bool :=
  match a, b with
  | PNone, PNone => true
  | PBool x, PBool y => Bool.eqb x y
  | PBool x, PInt y => (Z.b2z x =? y)%Z
  | PInt x, PBool y => (x =? Z.b2z y)%Z
  | PInt x, PInt y => (x =? y)%Z
  | PStr x, PStr y => String.eqb x y
  | PList xs, PList ys =>
      (fix go (xs ys : list pyval) : bool :=
         match xs, ys with
         | [], [] => true
         | x :: xs', y :: ys' => py_eqb x y && go xs' ys'
         | _, _ => false
         end) xs ys
  | PDict kvs, PDict kvs' =>
      Nat.eqb (length kvs) (length kvs') &&
      (fix go (kvs : list (pyval * pyval)) : bool :=
         match kvs with
         | [] => true
         | (k, v) :: rest =>
             match (fix find (kvs' : list (pyval * pyval)) : option pyval :=
                      match kvs' with
                      | [] => None
                      | (k', v') :: r => if py_eqb k k' then Some v' else find r
                      end) kvs' with
             | Some v' => py_eqb v v'
             | None => false
             end && go rest
         end) kvs
  | _, _ => false
  end.

(** [x in l] for a list [l]: an element that is the same object or equal. *)
Definition py_in (x : pyval) (l : list pyval) : bool :=
  existsb (λ e, bool_decide (x = e) || py_eqb x e) l.

Fixpoint prefixb (p s : string) : bool :=
  match p, s with
  | EmptyString, _ => true
  | String a p', String b s' => Ascii.eqb a b && prefixb p' s'
  | String _ _, EmptyString => false
  end.

(** [sub in s] for strings. *)
Fixpoint substringb (sub s : string) : bool :=
  prefixb sub s ||
  match s with
  | EmptyString => false
  | String _ s' => substringb sub s'
  end.

(** Exceptions: a computation returns a value or raises. *)
Inductive result (A : Type) : Type :=
  | Ok (a : A)
  | Raise (exc : string).
Arguments Ok {A} a.
Arguments Raise {A} exc.

Definition result_bind {A B} (r : result A) (f : A → result B) : result B :=
  match r with
  | Ok a => f a
  | Raise e => Raise e
  end.

Notation "x <=- r ;; k" := (result_bind r (λ x, k))
  (at level 100, r at next level, right associativity).

Fixpoint result_mapM {A B} (f : A → result B) (l : list A) : result (list B) :=
  match l with
  | [] => Ok []
  | a :: l' => b <=- f a ;; bs <=- result_mapM f l' ;; Ok (b :: bs)
  end.

(** [iter(v)]: the items a [for] loop visits.  A dictionary yields its keys,
    a string its characters. *)
Fixpoint string_chars (s : string) : list pyval :=
  match s with
  | EmptyString => []
  | String c s' => PStr (String c EmptyString) :: string_chars s'
  end.

Definition py_iter (v : pyval) : result (list pyval) :=
  match v with
  | PList l => Ok l
  | PDict kvs => Ok (kvs.*1)
  | PStr s => Ok (string_chars s)
  | _ => Raise "TypeError"
  end.

(** [len(v)]. *)
Definition py_len (v : pyval) : result nat :=
  match v with
  | PList l => Ok (length l)
  | PDict kvs => Ok (length kvs)
  | PStr s => Ok (String.length s)
  | _ => Raise "TypeError"
  end.

(** [x in v] for any container [v]. *)
Definition py_contains (x v : pyval) : result bool :=
  match v with
  | PList l => Ok (py_in x l)
  | PDict kvs => Ok (py_in x (kvs.*1))
  | PStr s =>
      match x with
      | PStr sub => Ok (substringb sub s)
      | _ => Raise "TypeError"
      end
  | _ => Raise "TypeError"
  end.

(** Dictionaries.  Only [None], booleans, integers and strings hash. *)
Definition py_hashable (v : pyval) : bool :=
  match v with
  | PList _ | PDict _ => false
  | _ => true
  end.

Fixpoint dict_get (k : pyval) (d : list (pyval * pyval)) : option pyval :=
  match d with
  | [] => None
  | (k', v) :: d' => if py_eqb k k' then Some v else dict_get k d'
  end.

(** [d[k] = v]: an existing key keeps its place, a new key goes last. *)
Fixpoint dict_set (k v : pyval) (d : list (pyval * pyval)) : list (pyval * pyval) :=
  match d with
  | [] => [(k, v)]
  | (k', v') :: d' => if py_eqb k k' then (k', v) :: d' else (k', v') :: dict_set k v d'
  end.

(** A dictionary display or comprehension: the items are stored one after
    the other; an unhashable key raises [TypeError]. *)
Fixpoint dict_build (acc : list (pyval * pyval)) (items : list (pyval * pyval))
    : result (list (pyval * pyval)) :=
  match items with
  | [] => Ok acc
  | (k, v) :: items' =>
      if py_hashable k then dict_build (dict_set k v acc) items'
      else Raise "TypeError"
  end.

(** [d.get(key, default)] for a string key. *)
Definition get (d : list (pyval * pyval)) (key : string) (default : pyval) : pyval :=
  match dict_get (PStr key) d with
  | Some v => v
  | None => default
  end.

(** [v[0]]. *)
Definition py_getitem0 (v : pyval) : result pyval :=
  match v with
  | PList (x :: _) => Ok x
  | PList [] => Raise "IndexError"
  | PDict kvs =>
      match dict_get (PInt 0) kvs with
      | Some x => Ok x
      | None => Raise "KeyError"
      end
  | PStr (String c _) => Ok (PStr (String c EmptyString))
  | PStr EmptyString => Raise "IndexError"
  | _ => Raise "TypeError"
  end.

(** ** Syntax trees (Python's [ast] module)

    The expression and statement nodes the analyser looks at.  An
    [ast.Dict] pairs its [keys] with its [values]; a keyword argument without
    a name is a [**] unpacking. *)
Module ast.
Inductive expr : Type :=
  | Constant (value : pyval)
  | List (elts : list expr)
  | Dict (items : list (expr * expr))
  | Name (id : string)
  | Attribute (value : expr) (attr : string)
  | Call (func : expr) (args : list expr) (keywords : list (option string * expr))
  | ListComp (elt : expr) (target : string) (iter : expr).

Inductive stmt : Type :=
  | Assign (targets : list expr) (value : expr)
  | Pass.

Record ClassDef : Type := {
  name : string;
  bases : list expr;
  body : list stmt;
}.
End ast.

(** ** Python's builtin [eval]

    [py_eval globals scope e] evaluates an expression with the given global
    namespace; [scope] holds the variables bound by enclosing
    comprehensions.  A name is looked up in the scope, then in the globals,
    then in the mapping stored under [__builtins__].  Attribute access and
    calls are outside the modelled fragment: the evaluation then yields
    [None] (no outcome), as does any expression that needs their value. *)
Definition lookup_name (globals scope : list (string * pyval)) (id : string)
    : result pyval :=
  match list_find (λ b, b.1 = id) scope with
  | Some (_, (_, v)) => Ok v
  | None =>
      match list_find (λ b, b.1 = id) globals with
      | Some (_, (_, v)) => Ok v
      | None =>
          match list_find (λ b, b.1 = "__builtins__") globals with
          | Some (_, (_, PDict builtins)) =>
              match dict_get (PStr id) builtins with
              | Some v => Ok v
              | None => Raise "NameError"
              end
          | _ => Raise "NameError"
          end
      end
  end.

Fixpoint py_eval (globals scope : list (string * pyval)) (e : ast.expr)
    {struct e} : option (result pyval) :=
  match e with
  | ast.Constant v => Some (Ok v)
  | ast.List elts =>
      match (fix go (elts : list ast.expr) : option (result (list pyval)) :=
               match elts with
               | [] => Some (Ok [])
               | x :: elts' =>
                   match py_eval globals scope x with
                   | Some (Ok v) =>
                       match go elts' with
                       | Some (Ok vs) => Some (Ok (v :: vs))
                       | o => o
                       end
                   | Some (Raise exc) => Some (Raise exc)
                   | None => None
                   end
               end) elts with
      | Some (Ok vs) => Some (Ok (PList vs))
      | Some (Raise exc) => Some (Raise exc)
      | None => None
      end
  | ast.Dict items =>
      match (fix go (items : list (ast.expr * ast.expr))
               : option (result (list (pyval * pyval))) :=
               match items with
               | [] => Some (Ok [])
               | (k, x) :: items' =>
                   match py_eval globals scope k with
                   | Some (Ok kv) =>
                       match py_eval globals scope x with
                       | Some (Ok xv) =>
                           match go items' with
                           | Some (Ok kvs) => Some (Ok ((kv, xv) :: kvs))
                           | o => o
                           end
                       | Some (Raise exc) => Some (Raise exc)
                       | None => None
                       end
                   | Some (Raise exc) => Some (Raise exc)
                   | None => None
                   end
               end) items with
      | Some (Ok kvs) =>
          Some (d <=- dict_build [] kvs ;; Ok (PDict d))
      | Some (Raise exc) => Some (Raise exc)
      | None => None
      end
  | ast.Name id => Some (lookup_name globals scope id)
  | ast.Attribute _ _ => None
  | ast.Call _ _ _ => None
  | ast.ListComp elt target iter =>
      match py_eval globals scope iter with
      | Some (Ok it) =>
          match py_iter it with
          | Ok vs =>
              match (fix go (vs : list pyval) : option (result (list pyval)) :=
                       match vs with
                       | [] => Some (Ok [])
                       | v :: vs' =>
                           match py_eval globals ((target, v) :: scope) elt with
                           | Some (Ok w) =>
                               match go vs' with
                               | Some (Ok ws) => Some (Ok (w :: ws))
                               | o => o
                               end
                           | Some (Raise exc) => Some (Raise exc)
                           | None => None
                           end
                       end) vs with
              | Some (Ok ws) => Some (Ok (PList ws))
              | Some (Raise exc) => Some (Raise exc)
              | None => None
              end
          | Raise exc => Some (Raise exc)
          end
      | o => o
      end
  end.

(** ** Module Scanner ([src/discovery/module_scanner.py]) *)

(** A [pathlib.Path]: its last component and its absolute form. *)
Record Path : Type := {
  path_name : string;
  path_absolute : string;
}.

(** The text of a file as [eval] and [ast.parse] see it: either it does not
    compile ([SyntaxError]) or it is an expression tree. *)
Inductive source_text : Type :=
  | Unparsable
  | Source (tree : ast.expr).

Module OdooModule.
Record t : Type := {
  name : string;
  path : string;
  version : pyval;
  depends : pyval;
  description : pyval;
  author : pyval;
  category : pyval;
  installable : pyval;
  auto_install : pyval;
}.
End OdooModule.

(** [namespace = {"__builtins__": {}}] *)
Definition namespace : list (string * pyval) := [("__builtins__", PDict [])].

(** [_safe_eval_manifest]: [eval(content, namespace)], the result if it is a
    dictionary and [{}] otherwise; any exception gives [{}]. *)
Definition _safe_eval_manifest (content : source_text)
    : option (list (pyval * pyval)) :=
  match content with
  | Unparsable => Some []
  | Source tree =>
      match py_eval namespace [] tree with
      | Some (Ok (PDict d)) => Some d
      | Some (Ok _) => Some []
      | Some (Raise _) => Some []
      | None => None
      end
  end.

(** [_parse_module].  [manifest] is what [read_text] gives, [None] when the
    file cannot be read.  The result is [Some None] when the module is
    skipped and [Some (Some m)] when a record is emitted. *)
Definition _parse_module (module_path : Path) (manifest : option source_text)
    : option (option OdooModule.t) :=
  match manifest with
  | None => Some None
  | Some manifest_content =>
      match _safe_eval_manifest manifest_content with
      | None => None
      | Some manifest_data =>
          Some (Some {|
            OdooModule.name := path_name module_path;
            OdooModule.path := path_absolute module_path;
            OdooModule.version := get manifest_data "version" (PStr "1.0");
            OdooModule.depends := get manifest_data "depends" (PList []);
            OdooModule.description :=
              py_or (get manifest_data "summary" (PStr ""))
                    (get manifest_data "description" (PStr ""));
            OdooModule.author := get manifest_data "author" (PStr "");
            OdooModule.category := get manifest_data "category" (PStr "Uncategorized");
            OdooModule.installable := get manifest_data "installable" (PBool true);
            OdooModule.auto_install := get manifest_data "auto_install" (PBool false);
          |})
      end
  end.

(** ** Entity Parser ([src/parsers/model_parser.py]) *)

Module OdooField.
Record t : Type := {
  name : string;
  field_type : string;
  related_model : pyval;
  attributes : pyval;
}.
End OdooField.

Module OdooModel.
Record t : Type := {
  name : pyval;
  inherits : pyval;
  inherits_models : pyval;
  description : pyval;
  fields : list OdooField.t;
  module : string;
  file_path : string;
  class_name : string;
  is_abstract : bool;
  is_extension : bool;
  is_transient : pyval;
}.

End OdooModel.

Definition RELATIONAL_FIELDS : list string :=
  ["Many2one"; "One2many"; "Many2many"; "Reference"].

(** [_eval_node]: the whitelist evaluator.  A dictionary with an unhashable
    key raises inside the [try] and gives [None]. *)
Fixpoint _eval_node (node : ast.expr) : pyval :=
  match node with
  | ast.Constant value => value
  | ast.List elts => PList (map _eval_node elts)
  | ast.Dict items =>
      match dict_build [] (map (λ kv, (_eval_node kv.1, _eval_node kv.2)) items) with
      | Ok d => PDict d
      | Raise _ => PNone
      end
  | ast.Name id =>
      if String.eqb id "True" then PBool true
      else if String.eqb id "False" then PBool false
      else PNone
  | _ => PNone
  end.

(** [base] is [models.<attr>] with [attr] one of [attrs]. *)
Definition is_models_attr (attrs : list string) (base : ast.expr) : bool :=
  match base with
  | ast.Attribute (ast.Name id) attr =>
      String.eqb id "models" && existsb (String.eqb attr) attrs
  | _ => false
  end.

Definition _is_odoo_model (node : ast.ClassDef) : bool :=
  existsb (is_models_attr ["Model"; "TransientModel"; "AbstractModel"])
          (ast.bases node).

Definition _inherits_transient (node : ast.ClassDef) : bool :=
  existsb (is_models_attr ["TransientModel"]) (ast.bases node).

Definition is_name (id : string) (target : ast.expr) : bool :=
  match target with
  | ast.Name id' => String.eqb id' id
  | _ => false
  end.

(** [_get_attribute]: the value of the first assignment to [attr_name]. *)
Fixpoint _get_attribute_body (body : list ast.stmt) (attr_name : string) : pyval :=
  match body with
  | [] => PNone
  | ast.Assign targets value :: body' =>
      if existsb (is_name attr_name) targets then _eval_node value
      else _get_attribute_body body' attr_name
  | _ :: body' => _get_attribute_body body' attr_name
  end.

Definition _get_attribute (node : ast.ClassDef) (attr_name : string) : pyval :=
  _get_attribute_body (ast.body node) attr_name.

Definition _get_field_type (call_node : ast.expr) : option string :=
  match call_node with
  | ast.Call (ast.Attribute (ast.Name id) attr) _ _ =>
      if String.eqb id "fields" then Some attr else None
  | _ => None
  end.

Definition _get_related_model (args : list ast.expr)
    (keywords : list (option string * ast.expr)) : pyval :=
  match args with
  | ast.Constant value :: _ => value
  | _ =>
      match list_find (λ kw, kw.1 = Some "comodel_name") keywords with
      | Some (_, (_, value)) => _eval_node value
      | None => PNone
      end
  end.

Definition _extract_field_attributes (keywords : list (option string * ast.expr))
    : list (pyval * pyval) :=
  fold_left (λ attributes kw,
    match kw.1 with
    | Some arg =>
        if negb (String.eqb arg "") then
          let value := _eval_node kw.2 in
          if bool_decide (value = PNone) then attributes
          else dict_set (PStr arg) value attributes
        else attributes
    | None => attributes
    end) keywords [].

Definition _parse_field_definition (field_name : string) (value_node : ast.expr)
    : option OdooField.t :=
  match value_node with
  | ast.Call _ args keywords =>
      match _get_field_type value_node with
      | Some field_type =>
          if negb (String.eqb field_type "") then
            Some {|
              OdooField.name := field_name;
              OdooField.field_type := field_type;
              OdooField.related_model :=
                if existsb (String.eqb field_type) RELATIONAL_FIELDS
                then _get_related_model args keywords else PNone;
              OdooField.attributes := PDict (_extract_field_attributes keywords);
            |}
          else None
      | None => None
      end
  | _ => None
  end.

Definition _parse_fields (node : ast.ClassDef) : list OdooField.t :=
  flat_map (λ item,
    match item with
    | ast.Assign targets value =>
        flat_map (λ target,
          match target with
          | ast.Name id =>
              match _parse_field_definition id value with
              | Some field => [field]
              | None => []
              end
          | _ => []
          end) targets
    | _ => []
    end) (ast.body node).

(** [_inherit] may be a string or a list: a string becomes a one-element
    list. *)
Definition normalize_inherit (inherits : pyval) : pyval :=
  match inherits with
  | PStr _ => PList [inherits]
  | _ => inherits
  end.

(** [_parse_class].  [Ok None] when the class is not an entity; the call
    raises when [len(inherits)] or [inherits[0]] does. *)
Definition _parse_class (module_name : string) (node : ast.ClassDef)
    (file_path : Path) : result (option OdooModel.t) :=
  if negb (_is_odoo_model node) then Ok None
  else
    let name := _get_attribute node "_name" in
    let inherits :=
      normalize_inherit (py_or (_get_attribute node "_inherit") (PList [])) in
    let inherits_models := py_or (_get_attribute node "_inherits") (PDict []) in
    let description := py_or (_get_attribute node "_description") (PStr "") in
    let transient_model := py_or (_get_attribute node "_transient") (PBool false) in
    let is_transient := py_or transient_model (PBool (_inherits_transient node)) in
    let fields := _parse_fields node in
    let is_extension := py_truthy inherits && negb (py_truthy name) in
    effective_name <=-
      (if is_extension then
         n <=- py_len inherits ;;
         if Nat.eqb n 1 then py_getitem0 inherits else Ok name
       else Ok name) ;;
    Ok (Some {|
      OdooModel.name := effective_name;
      OdooModel.inherits := inherits;
      OdooModel.inherits_models := inherits_models;
      OdooModel.description := description;
      OdooModel.fields := fields;
      OdooModel.module := module_name;
      OdooModel.file_path := path_absolute file_path;
      OdooModel.class_name := ast.name node;
      OdooModel.is_abstract := bool_decide (name = PNone);
      OdooModel.is_extension := is_extension;
      OdooModel.is_transient := is_transient;
    |}).

(** ** View records ([src/parsers/view_parser.py], [OdooView.to_dict]) *)
Module OdooView.
Record t : Type := {
  xml_id : pyval;
  name : pyval;
  model : pyval;
  view_type : pyval;
  inherit_id : pyval;
  module : pyval;
  file_path : pyval;
  priority : pyval;
  arch : pyval;
}.
End OdooView.

(** ** Transformer ([organize_data_for_loading] in [cli.py]) *)

(** A row of the normalized dataset is a Python dictionary with string keys;
    [r.k] in a query reads a key, [null] when it is missing. *)
Definition row : Type := list (string * pyval).

Fixpoint row_lookup (k : string) (r : row) : option pyval :=
  match r with
  | [] => None
  | (k', v) :: r' => if String.eqb k k' then Some v else row_lookup k r'
  end.

Definition row_get (k : string) (r : row) : pyval := default PNone (row_lookup k r).

(** [r[k] = v] *)
Fixpoint row_set (k : string) (v : pyval) (r : row) : row :=
  match r with
  | [] => [(k, v)]
  | (k', v') :: r' =>
      if String.eqb k k' then (k', v) :: r' else (k', v') :: row_set k v r'
  end.

Record dataset : Type := {
  modules : list row;
  models : list row;
  views : list row;
  fields : list row;
  module_dependencies : list row;
  model_module_rels : list row;
  model_inheritances : list row;
  model_delegations : list row;
  field_model_rels : list row;
  field_references : list row;
  view_module_rels : list row;
  view_model_rels : list row;
  view_inheritances : list row;
}.

Definition empty_data : dataset :=
  {| modules := []; models := []; views := []; fields := [];
     module_dependencies := []; model_module_rels := [];
     model_inheritances := []; model_delegations := [];
     field_model_rels := []; field_references := [];
     view_module_rels := []; view_model_rels := [];
     view_inheritances := [] |}.

(** Appending to each of the lists. *)
Definition data_extend (a b : dataset) : dataset :=
  {| modules := modules a ++ modules b;
     models := models a ++ models b;
     views := views a ++ views b;
     fields := fields a ++ fields b;
     module_dependencies := module_dependencies a ++ module_dependencies b;
     model_module_rels := model_module_rels a ++ model_module_rels b;
     model_inheritances := model_inheritances a ++ model_inheritances b;
     model_delegations := model_delegations a ++ model_delegations b;
     field_model_rels := field_model_rels a ++ field_model_rels b;
     field_references := field_references a ++ field_references b;
     view_module_rels := view_module_rels a ++ view_module_rels b;
     view_model_rels := view_model_rels a ++ view_model_rels b;
     view_inheritances := view_inheritances a ++ view_inheritances b |}.

(** [m.to_dict()] *)
Definition module_to_dict (m : OdooModule.t) : row :=
  [("name", PStr (OdooModule.name m));
   ("path", PStr (OdooModule.path m));
   ("version", OdooModule.version m);
   ("depends", OdooModule.depends m);
   ("description", OdooModule.description m);
   ("author", OdooModule.author m);
   ("category", OdooModule.category m);
   ("installable", OdooModule.installable m);
   ("auto_install", OdooModule.auto_install m)].

(** The rows one module adds: its dependency edges. *)
Definition organize_module (module : OdooModule.t) : result dataset :=
  deps <=- py_iter (OdooModule.depends module) ;;
  Ok {| modules := [module_to_dict module]; models := []; views := []; fields := [];
        module_dependencies :=
          map (λ dep, [("from", PStr (OdooModule.name module)); ("to", dep)]) deps;
        model_module_rels := []; model_inheritances := []; model_delegations := [];
        field_model_rels := []; field_references := [];
        view_module_rels := []; view_model_rels := []; view_inheritances := [] |}.

(** The [model_type] computed in the transformer. *)
Definition derive_model_type (is_transient inherits model_name : pyval)
    : result string :=
  if py_truthy is_transient then Ok "transient"
  else if negb (py_truthy model_name) then Ok "mixin"
  else if py_truthy inherits then
    b <=- py_contains model_name inherits ;;
    Ok (if b then "extension" else "redefined")
  else Ok "base".

(** [d.items()] of a dictionary; another value has no such method. *)
Definition py_items (v : pyval) : result (list (pyval * pyval)) :=
  match v with
  | PDict kvs => Ok kvs
  | _ => Raise "AttributeError"
  end.

(** The rows one field of a model adds. *)
Definition organize_field (model_name : pyval) (field : OdooField.t) : dataset :=
  let field_name := OdooField.name field in
  if negb (py_truthy (PStr field_name)) then empty_data
  else
    {| modules := []; models := []; views := [];
       fields :=
         [[("model_name", model_name);
           ("field_name", PStr field_name);
           ("field_type", PStr (OdooField.field_type field));
           ("related_model", OdooField.related_model field);
           ("attributes", OdooField.attributes field)]];
       module_dependencies := []; model_module_rels := [];
       model_inheritances := []; model_delegations := [];
       field_model_rels :=
         [[("field_name", PStr field_name); ("model_name", model_name)]];
       field_references :=
         if py_truthy (OdooField.related_model field) then
           [[("field_name", PStr field_name);
             ("model_name", model_name);
             ("related_model", OdooField.related_model field)]]
         else [];
       view_module_rels := []; view_model_rels := []; view_inheritances := [] |}.

(** The rows one parsed model adds; a model without a name is dropped. *)
Definition organize_model (model : OdooModel.t) : result dataset :=
  if negb (py_truthy (OdooModel.name model)) then Ok empty_data
  else
    let is_transient := OdooModel.is_transient model in
    let inherits := OdooModel.inherits model in
    let model_name := OdooModel.name model in
    model_type <=- derive_model_type is_transient inherits model_name ;;
    parents <=- py_iter (OdooModel.inherits model) ;;
    delegations <=- py_items (OdooModel.inherits_models model) ;;
    Ok (fold_left data_extend (map (organize_field model_name) (OdooModel.fields model))
      {| modules := [];
         models :=
           [[("name", model_name);
             ("description", OdooModel.description model);
             ("module", PStr (OdooModel.module model));
             ("file_path", PStr (OdooModel.file_path model));
             ("class_name", PStr (OdooModel.class_name model));
             ("model_type", PStr model_type);
             ("is_abstract", PBool (OdooModel.is_abstract model));
             ("is_extension", PBool (OdooModel.is_extension model));
             ("is_transient", is_transient)]];
         views := []; fields := [];
         module_dependencies := [];
         model_module_rels :=
           [[("model", model_name); ("module", PStr (OdooModel.module model))]];
         model_inheritances :=
           map (λ parent, [("child", model_name); ("parent", parent)]) parents;
         model_delegations :=
           map (λ pf, [("child", model_name); ("parent", pf.1); ("field", pf.2)])
               delegations;
         field_model_rels := []; field_references := [];
         view_module_rels := []; view_model_rels := []; view_inheritances := [] |}).

(** The rows one view adds; a view without [xml_id] or [model] is dropped. *)
Definition organize_view (view : OdooView.t) : dataset :=
  if negb (py_truthy (OdooView.xml_id view)) || negb (py_truthy (OdooView.model view))
  then empty_data
  else
    {| modules := []; models := [];
       views :=
         [[("xml_id", OdooView.xml_id view);
           ("name", OdooView.name view);
           ("model", OdooView.model view);
           ("view_type", OdooView.view_type view);
           ("module", OdooView.module view);
           ("file_path", OdooView.file_path view);
           ("priority", OdooView.priority view)]];
       fields := [];
       module_dependencies := []; model_module_rels := [];
       model_inheritances := []; model_delegations := [];
       field_model_rels := []; field_references := [];
       view_module_rels :=
         [[("view_xml_id", OdooView.xml_id view); ("module", OdooView.module view)]];
       view_model_rels :=
         [[("view_xml_id", OdooView.xml_id view); ("model", OdooView.model view)]];
       view_inheritances :=
         if py_truthy (OdooView.inherit_id view) then
           [[("child", OdooView.xml_id view); ("parent", OdooView.inherit_id view)]]
         else [] |}.

(** [organize_data_for_loading]: the three loops, each appending to the
    lists of [data]; an exception in a loop aborts the call. *)
Definition organize_data_for_loading (modules : list OdooModule.t)
    (all_models : list OdooModel.t) (all_views : list OdooView.t) : result dataset :=
  by_module <=- result_mapM organize_module modules ;;
  by_model <=- result_mapM organize_model all_models ;;
  Ok (fold_left data_extend
        (by_module ++ by_model ++ map organize_view all_views) empty_data).

(** ** [json.dumps]

    With the default options: [ensure_ascii], separators [", "] and [": "],
    keys in the order the dictionary holds them ([sort_keys] is off).  A
    character stands for a code point below 256. *)

Definition hex_digit (n : N) : ascii :=
  match n with
  | 0 => "0" | 1 => "1" | 2 => "2" | 3 => "3" | 4 => "4" | 5 => "5" | 6 => "6"
  | 7 => "7" | 8 => "8" | 9 => "9" | 10 => "a" | 11 => "b" | 12 => "c"
  | 13 => "d" | 14 => "e" | _ => "f"
  end%N%char.

(** One character of a string literal ([ESCAPE_ASCII] and [ESCAPE_DCT]). *)
Definition escape_char (c : ascii) : string :=
  let n := N_of_ascii c in
  if (n =? 92)%N then "\\"
  else if (n =? 34)%N then String "\" (String c EmptyString)
  else if (n =? 10)%N then "\n"
  else if (n =? 13)%N then "\r"
  else if (n =? 9)%N then "\t"
  else if (n =? 8)%N then "\b"
  else if (n =? 12)%N then "\f"
  else if ((32 <=? n) && (n <=? 126))%N then String c EmptyString
  else "\u00" +:+ String (hex_digit (n / 16)) (String (hex_digit (n mod 16)) EmptyString).

Fixpoint escape_string (s : string) : string :=
  match s with
  | EmptyString => EmptyString
  | String c s' => escape_char c +:+ escape_string s'
  end.

Definition quote : string := String (ascii_of_N 34) EmptyString.

(** [py_encode_basestring_ascii] *)
Definition encode_basestring_ascii (s : string) : string :=
  quote +:+ escape_string s +:+ quote.

(** [int.__repr__] *)
Definition int_repr (z : Z) : string := NilZero.string_of_int (Z.to_int z).

(** A dictionary key as the encoder writes it. *)
Definition json_key (k : pyval) : result string :=
  match k with
  | PStr s => Ok (encode_basestring_ascii s)
  | PBool true => Ok (encode_basestring_ascii "true")
  | PBool false => Ok (encode_basestring_ascii "false")
  | PNone => Ok (encode_basestring_ascii "null")
  | PInt z => Ok (encode_basestring_ascii (int_repr z))
  | _ => Raise "TypeError"
  end.

Fixpoint json_dumps (v : pyval) : result string :=
  match v with
  | PNone => Ok "null"
  | PBool true => Ok "true"
  | PBool false => Ok "false"
  | PInt z => Ok (int_repr z)
  | PStr s => Ok (encode_basestring_ascii s)
  | PList l =>
      match (fix go (l : list pyval) : result (list string) :=
               match l with
               | [] => Ok []
               | x :: l' =>
                   match json_dumps x with
                   | Ok s => match go l' with
                             | Ok ss => Ok (s :: ss)
                             | Raise exc => Raise exc
                             end
                   | Raise exc => Raise exc
                   end
               end) l with
      | Ok items => Ok ("[" +:+ String.concat ", " items +:+ "]")
      | Raise exc => Raise exc
      end
  | PDict kvs =>
      match (fix go (kvs : list (pyval * pyval)) : result (list string) :=
               match kvs with
               | [] => Ok []
               | (k, x) :: kvs' =>
                   match json_key k with
                   | Ok ks =>
                       match json_dumps x with
                       | Ok s => match go kvs' with
                                 | Ok ss => Ok ((ks +:+ ": " +:+ s) :: ss)
                                 | Raise exc => Raise exc
                                 end
                       | Raise exc => Raise exc
                       end
                   | Raise exc => Raise exc
                   end
               end) kvs with
      | Ok items => Ok ("{" +:+ String.concat ", " items +:+ "}")
      | Raise exc => Raise exc
      end
  end.


(** ** State Store ([src/incremental/state_manager.py]) *)

(** The file system and SHA-256 are not part of the program: [read_bytes]
    gives the content of a file, [None] when opening or reading it raises;
    [exists_] and [rglob] are the directory queries of [pathlib]. *)
Record file_system : Type := {
  read_bytes : string → option string;
  exists_ : string → bool;
  rglob : string → string → list Path;
}.

(** [self.state]: [last_update], and [files] from absolute path to hash. *)
Record state : Type := {
  last_update : pyval;
  files : gmap string string;
}.

Section StateManager.
Variable sha256_hexdigest : string → string.
Variable fs : file_system.

(** [get_file_hash]: the digest, or the empty string on any exception. *)
Definition get_file_hash (file_path : Path) : string :=
  match read_bytes fs (path_absolute file_path) with
  | Some content => sha256_hexdigest content
  | None => EmptyString
  end.

(** [has_changed] *)
Definition has_changed (self : state) (file_path : Path) : bool :=
  let file_key := path_absolute file_path in
  let current_hash := get_file_hash file_path in
  if negb (py_truthy (PStr current_hash)) then false
  else
    let previous_hash := files self !! file_key in
    negb (bool_decide (previous_hash = Some current_hash)).

(** [get_changed_files] *)
Definition get_changed_files (self : state) (file_paths : list Path) : list Path :=
  filter (λ file_path, has_changed self file_path = true) file_paths.

(** ** Change Detector ([src/incremental/change_detector.py]) *)

(** [module_path / name] *)
Definition path_join (module_path : string) (name : string) : Path :=
  {| path_name := name; path_absolute := module_path +:+ "/" +:+ name |}.

(** [_get_relevant_files]; the set is kept as a list. *)
Definition _get_relevant_files (module_path : string) : list Path :=
  filter (λ p, exists_ fs (path_absolute p) = true)
         (map (path_join module_path) ["__manifest__.py"; "__openerp__.py"])
  ++ filter (λ py_file,
               (negb (substringb "__pycache__" (path_absolute py_file))
                && negb (substringb "test_" (path_name py_file))) = true)
            (rglob fs module_path "*.py")
  ++ rglob fs module_path "*.xml".

(** [_has_module_changed] *)
Definition _has_module_changed (self : state) (module_path : string) : bool :=
  let relevant_files := _get_relevant_files module_path in
  let changed_files := get_changed_files self relevant_files in
  Nat.ltb 0 (length changed_files).

(** [Path(module["path"])] of a module dictionary: a missing key raises
    [KeyError], a value that is not a string [TypeError]. *)
Definition module_path_of (module : row) : result string :=
  match row_lookup "path" module with
  | Some (PStr s) => Ok s
  | Some _ => Raise "TypeError"
  | None => Raise "KeyError"
  end.

(** [detect_changed_modules] *)
Fixpoint detect_changed_modules (self : state) (modules : list row)
    : result (list row) :=
  match modules with
  | [] => Ok []
  | module :: modules' =>
      module_path <=- module_path_of module ;;
      changed_modules <=- detect_changed_modules self modules' ;;
      Ok (if _has_module_changed self module_path then module :: changed_modules
          else changed_modules)
  end.

(** The [reason] of a strategy; the texts are
    "Primera ejecución - no hay estado previo",
    "Muchos cambios detectados (ratio)" and "n módulos modificados". *)
Inductive reason : Type :=
  | FirstRun
  | ManyChanges (change_ratio : float)
  | Modified (n : nat).

Record strategy : Type := {
  full_reload : bool;
  changed_modules : list row;
  strategy_reason : reason;
}.

(** [len(a) / len(b)]: true division of two lengths, a binary64 float. *)
Definition float_of_nat (n : nat) : float :=
  PrimFloat.of_uint63 (Uint63.of_Z (Z.of_nat n)).

(** The literal [0.3], which is the binary64 number 0x1.3333333333333p-2. *)
Definition threshold : float := 0x1.3333333333333p-2%float.

(** [get_incremental_strategy] *)
Definition get_incremental_strategy (self : state) (modules : list row)
    : result strategy :=
  if negb (py_truthy (last_update self)) then
    Ok {| full_reload := true; changed_modules := modules; strategy_reason := FirstRun |}
  else
    changed <=- detect_changed_modules self modules ;;
    let change_ratio :=
      match modules with
      | [] => 0%float
      | _ => (float_of_nat (length changed) / float_of_nat (length modules))%float
      end in
    if (threshold <? change_ratio)%float then
      Ok {| full_reload := true; changed_modules := modules;
            strategy_reason := ManyChanges change_ratio |}
    else
      Ok {| full_reload := false; changed_modules := changed;
            strategy_reason := Modified (length changed) |}.
End StateManager.

(** ** Graph schema ([src/graph/schema.py]) *)

Inductive node_label : Type :=
  | NODE_MODULE
  | NODE_MODEL
  | NODE_VIEW
  | NODE_FIELD.

Inductive rel_type : Type :=
  | REL_MODULE_DEPENDS
  | REL_MODULE_CONTAINS_MODEL
  | REL_MODULE_CONTAINS_VIEW
  | REL_MODEL_INHERITS
  | REL_MODEL_INHERITS_DELEGATION
  | REL_MODEL_HAS_FIELD
  | REL_FIELD_RELATES_TO
  | REL_VIEW_EXTENDS
  | REL_VIEW_FOR_MODEL.

#[global] Instance node_label_eq_dec : EqDecision node_label.
Proof. solve_decision. Defined.

#[global] Instance rel_type_eq_dec : EqDecision rel_type.
Proof. solve_decision. Defined.

#[global] Instance node_label_countable : Countable node_label.
Proof.
  refine (inj_countable'
    (λ l, match l with
          | NODE_MODULE => 0 | NODE_MODEL => 1 | NODE_VIEW => 2 | NODE_FIELD => 3
          end)
    (λ n, match n with
          | 0 => NODE_MODULE | 1 => NODE_MODEL | 2 => NODE_VIEW | _ => NODE_FIELD
          end) _).
  by intros [].
Defined.

#[global] Instance rel_type_countable : Countable rel_type.
Proof.
  refine (inj_countable'
    (λ t, match t with
          | REL_MODULE_DEPENDS => 0 | REL_MODULE_CONTAINS_MODEL => 1
          | REL_MODULE_CONTAINS_VIEW => 2 | REL_MODEL_INHERITS => 3
          | REL_MODEL_INHERITS_DELEGATION => 4 | REL_MODEL_HAS_FIELD => 5
          | REL_FIELD_RELATES_TO => 6 | REL_VIEW_EXTENDS => 7
          | REL_VIEW_FOR_MODEL => 8
          end)
    (λ n, match n with
          | 0 => REL_MODULE_DEPENDS | 1 => REL_MODULE_CONTAINS_MODEL
          | 2 => REL_MODULE_CONTAINS_VIEW | 3 => REL_MODEL_INHERITS
          | 4 => REL_MODEL_INHERITS_DELEGATION | 5 => REL_MODEL_HAS_FIELD
          | 6 => REL_FIELD_RELATES_TO | 7 => REL_VIEW_EXTENDS
          | _ => REL_VIEW_FOR_MODEL
          end) _).
  by intros [].
Defined.

(** ** The graph store

    A node is identified by its label and the values of its identity
    properties ([name], [xml_id], or [model] and [name] for a field): the
    loader creates nodes through [MERGE] on exactly these and never sets
    them afterwards, and the schema declares [name] and [xml_id] unique; a
    store that holds two nodes of one identity is outside the model.
    Between two nodes the store may hold several relationships of one type;
    each carries its own properties. *)
Abbreviation node_id := (node_label * list pyval)%type.
Abbreviation rel_key := (rel_type * node_id * node_id)%type.

Record graph : Type := {
  nodes : gmap node_id (gmap string pyval);
  rels : gmap rel_key (list (gmap string pyval));
}.

Definition empty_graph : graph := {| nodes := ∅; rels := ∅ |}.

Definition has_node (g : graph) (n : node_id) : bool :=
  bool_decide (is_Some (nodes g !! n)).

(** The number of relationships of type [t] from [a] to [b]. *)
Definition count_rels (g : graph) (t : rel_type) (a b : node_id) : nat :=
  length (default [] (rels g !! (t, a, b))).

(** ** Cypher

    The queries of the loader have one shape: [UNWIND $rows AS r], some
    [MATCH] clauses, then [MERGE] and [SET] clauses.  A node pattern
    [(x:Label {prop: r.key, ...})] is a label with the identity properties
    and the row keys they are read from. *)
Record pattern : Type := {
  p_label : node_label;
  p_key : list (string * string);
}.

Inductive clause : Type :=
  | MERGE_node (p : pattern)
  | SET_node (p : pattern) (assign : list (string * string))
  | MERGE_rel (t : rel_type) (a b : pattern)
  | SET_rel (t : rel_type) (a b : pattern) (assign : list (string * string)).

Record query : Type := {
  q_match : list pattern;
  q_update : list clause;
}.

(** The node a pattern denotes for a row. *)
Definition node_of (p : pattern) (r : row) : node_id :=
  (p_label p, map (λ kv, row_get kv.2 r) (p_key p)).

(** The properties a node created by [MERGE] starts with. *)
Definition key_props (p : pattern) (r : row) : gmap string pyval :=
  list_to_map (map (λ kv, (kv.1, row_get kv.2 r)) (p_key p)).

(** [SET x.prop = r.key, ...]; setting a property to [null] removes it. *)
Definition set_prop (r : row) (ps : gmap string pyval) (kv : string * string)
    : gmap string pyval :=
  match row_get kv.2 r with
  | PNone => delete kv.1 ps
  | v => <[kv.1 := v]> ps
  end.

Definition set_props (assign : list (string * string)) (r : row)
    (ps : gmap string pyval) : gmap string pyval :=
  fold_left (set_prop r) assign ps.

(** [MATCH (x:Label {prop: r.key})] binds a row when the node exists; a
    [null] in the pattern matches nothing. *)
Definition matches (g : graph) (p : pattern) (r : row) : bool :=
  forallb (λ v, negb (bool_decide (v = PNone))) (node_of p r).2
  && has_node g (node_of p r).

(** One updating clause, for one row. *)
Definition exec_clause (c : clause) (r : row) (g : graph) : graph :=
  match c with
  | MERGE_node p =>
      match nodes g !! node_of p r with
      | Some _ => g
      | None => {| nodes := <[node_of p r := key_props p r]> (nodes g); rels := rels g |}
      end
  | SET_node p assign =>
      {| nodes := alter (set_props assign r) (node_of p r) (nodes g); rels := rels g |}
  | MERGE_rel t a b =>
      match rels g !! (t, node_of a r, node_of b r) with
      | Some (_ :: _) => g
      | _ => {| nodes := nodes g;
                rels := <[(t, node_of a r, node_of b r) := [∅]]> (rels g) |}
      end
  | SET_rel t a b assign =>
      {| nodes := nodes g;
         rels := alter (map (set_props assign r)) (t, node_of a r, node_of b r) (rels g) |}
  end.

(** A query on the rows of one batch.  Cypher runs clause by clause: the
    [MATCH] clauses select rows against the store as the query finds it,
    then each updating clause runs over all selected rows, in order. *)
Definition run_query (q : query) (g : graph) (rows : list row) : graph :=
  let selected := filter (λ r, forallb (λ p, matches g p r) (q_match q) = true) rows in
  fold_left (λ g c, fold_left (λ g r, exec_clause c r g) selected g) (q_update q) g.

(** ** Graph Loader ([src/graph/neo4j_loader.py]) *)

Definition module_node (key : string) : pattern :=
  {| p_label := NODE_MODULE; p_key := [("name", key)] |}.
Definition model_node (key : string) : pattern :=
  {| p_label := NODE_MODEL; p_key := [("name", key)] |}.
Definition view_node (key : string) : pattern :=
  {| p_label := NODE_VIEW; p_key := [("xml_id", key)] |}.
Definition field_node (model_key name_key : string) : pattern :=
  {| p_label := NODE_FIELD; p_key := [("model", model_key); ("name", name_key)] |}.

(** [x.p = r.p] for each of the listed properties. *)
Definition same_names (props : list string) : list (string * string) :=
  map (λ p, (p, p)) props.

(** The thirteen queries of [load_organized_data], in its order. *)
Definition q_modules : query :=
  {| q_match := [];
     q_update :=
       [MERGE_node (module_node "name");
        SET_node (module_node "name")
          (same_names ["version"; "description"; "author"; "category"; "path";
                       "installable"; "auto_install"])] |}.

Definition q_models : query :=
  {| q_match := [];
     q_update :=
       [MERGE_node (model_node "name");
        SET_node (model_node "name")
          (same_names ["description"; "module"; "file_path"; "class_name";
                       "model_type"; "is_abstract"; "is_extension"; "is_transient"])] |}.

Definition q_views : query :=
  {| q_match := [];
     q_update :=
       [MERGE_node (view_node "xml_id");
        SET_node (view_node "xml_id")
          (same_names ["name"; "model"; "view_type"; "module"; "file_path"; "priority"])] |}.

Definition q_fields : query :=
  {| q_match := [];
     q_update :=
       [MERGE_node (field_node "model_name" "field_name");
        SET_node (field_node "model_name" "field_name")
          (same_names ["field_type"; "attributes"])] |}.

Definition q_module_dependencies : query :=
  {| q_match := [module_node "from"; module_node "to"];
     q_update := [MERGE_rel REL_MODULE_DEPENDS (module_node "from") (module_node "to")] |}.

Definition q_model_module_rels : query :=
  {| q_match := [model_node "model"; module_node "module"];
     q_update :=
       [MERGE_rel REL_MODULE_CONTAINS_MODEL (module_node "module") (model_node "model")] |}.

Definition q_model_inheritances : query :=
  {| q_match := [model_node "child"];
     q_update :=
       [MERGE_node (model_node "parent");
        MERGE_rel REL_MODEL_INHERITS (model_node "child") (model_node "parent")] |}.

Definition q_model_delegations : query :=
  {| q_match := [model_node "child"];
     q_update :=
       [MERGE_node (model_node "parent");
        MERGE_rel REL_MODEL_INHERITS_DELEGATION (model_node "child") (model_node "parent");
        SET_rel REL_MODEL_INHERITS_DELEGATION (model_node "child") (model_node "parent")
          [("field", "field")]] |}.

Definition q_field_model_rels : query :=
  {| q_match := [model_node "model_name"; field_node "model_name" "field_name"];
     q_update :=
       [MERGE_rel REL_MODEL_HAS_FIELD (model_node "model_name")
          (field_node "model_name" "field_name")] |}.

Definition q_field_references : query :=
  {| q_match := [field_node "model_name" "field_name"];
     q_update :=
       [MERGE_node (model_node "related_model");
        MERGE_rel REL_FIELD_RELATES_TO (field_node "model_name" "field_name")
          (model_node "related_model")] |}.

Definition q_view_module_rels : query :=
  {| q_match := [view_node "view_xml_id"; module_node "module"];
     q_update :=
       [MERGE_rel REL_MODULE_CONTAINS_VIEW (module_node "module") (view_node "view_xml_id")] |}.

Definition q_view_model_rels : query :=
  {| q_match := [view_node "view_xml_id"; model_node "model"];
     q_update :=
       [MERGE_rel REL_VIEW_FOR_MODEL (view_node "view_xml_id") (model_node "model")] |}.

Definition q_view_inheritances : query :=
  {| q_match := [view_node "child"];
     q_update :=
       [MERGE_node (view_node "parent");
        MERGE_rel REL_VIEW_EXTENDS (view_node "child") (view_node "parent")] |}.

Module Metrics.
Record t : Type := {
  nodes_created : nat;
  relationships_created : nat;
  errors : nat;
  batches_processed : nat;
}.
End Metrics.

(** The value [_batch_execute] returns. *)
Module Summary.
Record t : Type := {
  processed : nat;
  errors : nat;
}.
End Summary.

(** The loader: the store behind its driver, its batch size, its metrics. *)
Record Neo4jLoader : Type := {
  store : graph;
  batch_size : nat;
  metrics : Metrics.t;
}.

(** The state of the loop of [_batch_execute]. *)
Record batch_loop : Type := {
  loop_self : Neo4jLoader;
  loop_processed : nat;
  loop_errors : nat;
}.

(** [data[i : i + batch_size]] for the [batch_num]-th value of
    [range(0, len(data), batch_size)], counting from 1. *)
Definition batch_of (B : nat) (data : list row) (batch_num : nat) : list row :=
  take B (drop ((batch_num - 1) * B) data).

(** One turn of the loop.  The transaction of a batch either commits the
    effect of the query or raises and leaves the store as it was; [fail]
    tells which batches raise, whatever the cause: a server that cannot be
    reached, a [MERGE] on a key that is null, a value the store cannot
    hold as a property. *)
Definition batch_step (fail : nat → bool) (q : query) (data : list row)
    (st : batch_loop) (batch_num : nat) : batch_loop :=
  let self := loop_self st in
  let batch := batch_of (batch_size self) data batch_num in
  let m := metrics self in
  if fail batch_num then
    {| loop_self :=
         {| store := store self; batch_size := batch_size self;
            metrics := {| Metrics.nodes_created := Metrics.nodes_created m;
                          Metrics.relationships_created := Metrics.relationships_created m;
                          Metrics.errors := Metrics.errors m + 1;
                          Metrics.batches_processed := Metrics.batches_processed m |} |};
       loop_processed := loop_processed st;
       loop_errors := loop_errors st + length batch |}
  else
    {| loop_self :=
         {| store := run_query q (store self) batch; batch_size := batch_size self;
            metrics := {| Metrics.nodes_created := Metrics.nodes_created m;
                          Metrics.relationships_created := Metrics.relationships_created m;
                          Metrics.errors := Metrics.errors m;
                          Metrics.batches_processed := Metrics.batches_processed m + 1 |} |};
       loop_processed := loop_processed st + length batch;
       loop_errors := loop_errors st |}.

(** [_batch_execute] *)
Definition _batch_execute (fail : nat → bool) (q : query) (data : list row)
    (self : Neo4jLoader) : result (Neo4jLoader * Summary.t) :=
  match data with
  | [] => Ok (self, {| Summary.processed := 0; Summary.errors := 0 |})
  | _ =>
      if Nat.eqb (batch_size self) 0 then Raise "ZeroDivisionError"
      else
        let total_items := length data in
        let total_batches := (total_items + batch_size self - 1) / batch_size self in
        let st := fold_left (batch_step fail q data) (seq 1 total_batches)
                    {| loop_self := self; loop_processed := 0; loop_errors := 0 |} in
        Ok (loop_self st,
            {| Summary.processed := loop_processed st; Summary.errors := loop_errors st |})
  end.

(** The conversion of the fields before their sub-step. *)
Definition field_with_json (field : row) : result row :=
  attributes <=- json_dumps (default (PDict []) (row_lookup "attributes" field)) ;;
  Ok (row_set "attributes" (PStr attributes) field).

(** The string [_load_model_fields] stores for a field's attributes. *)
Definition attributes_json (attributes : pyval) : result string :=
  if py_truthy attributes then json_dumps attributes else Ok "{}".

(** A relationship sub-step, skipped when its list is empty. *)
Definition rel_step (fail : nat → bool) (q : query) (data : list row)
    (self : Neo4jLoader) : result Neo4jLoader :=
  match data with
  | [] => Ok self
  | _ => r <=- _batch_execute fail q data self ;; Ok r.1
  end.

(** [load_organized_data].  [fail k] tells which batches of the [k]-th
    sub-step raise. *)
Definition load_organized_data (fail : nat → nat → bool) (data : dataset)
    (self : Neo4jLoader) : result Neo4jLoader :=
  r <=- _batch_execute (fail 1) q_modules (modules data) self ;;
  r <=- _batch_execute (fail 2) q_models (models data) r.1 ;;
  r <=- _batch_execute (fail 3) q_views (views data) r.1 ;;
  fields_with_json <=- result_mapM field_with_json (fields data) ;;
  r <=- _batch_execute (fail 4) q_fields fields_with_json r.1 ;;
  self <=- rel_step (fail 5) q_module_dependencies (module_dependencies data) r.1 ;;
  self <=- rel_step (fail 6) q_model_module_rels (model_module_rels data) self ;;
  self <=- rel_step (fail 7) q_model_inheritances (model_inheritances data) self ;;
  self <=- rel_step (fail 8) q_model_delegations (model_delegations data) self ;;
  self <=- rel_step (fail 9) q_field_model_rels (field_model_rels data) self ;;
  self <=- rel_step (fail 10) q_field_references (field_references data) self ;;
  self <=- rel_step (fail 11) q_view_module_rels (view_module_rels data) self ;;
  self <=- rel_step (fail 12) q_view_model_rels (view_model_rels data) self ;;
  rel_step (fail 13) q_view_inheritances (view_inheritances data) self.

(** * Properties *)

(** ** The manifest evaluator *)

(** The manifest [{"name": "x", "depends": [d for d in ["base"]]}]. *)
Definition manifest_with_comprehension : ast.expr :=
  ast.Dict
    [(ast.Constant (PStr "name"), ast.Constant (PStr "x"));
     (ast.Constant (PStr "depends"),
      ast.ListComp (ast.Name "d") "d" (ast.List [ast.Constant (PStr "base")]))].

(** The manifest [{"depends": __builtins__}]. *)
Definition manifest_with_name : ast.expr :=
  ast.Dict [(ast.Constant (PStr "depends"), ast.Name "__builtins__")].

(** C1 (the code departs from the claim).  The manifest evaluator is
    Python's [eval] with emptied builtins, not a whitelist: a manifest that
    holds a comprehension, or a name, is evaluated and its value returned,
    where the claim requires the empty mapping. *)
Theorem C1_manifest_evaluator_runs_code :
  _safe_eval_manifest (Source manifest_with_comprehension)
    = Some [(PStr "name", PStr "x"); (PStr "depends", PList [PStr "base"])]
  ∧ _safe_eval_manifest (Source manifest_with_name)
    = Some [(PStr "depends", PDict [])].
Proof. split; reflexivity. Qed.

(** The record emitted for a module whose manifest gives no data. *)
Definition default_module (module_path : Path) : OdooModule.t :=
  {| OdooModule.name := path_name module_path;
     OdooModule.path := path_absolute module_path;
     OdooModule.version := PStr "1.0";
     OdooModule.depends := PList [];
     OdooModule.description := PStr "";
     OdooModule.author := PStr "";
     OdooModule.category := PStr "Uncategorized";
     OdooModule.installable := PBool true;
     OdooModule.auto_install := PBool false |}.

(** A manifest that is not a valid manifest expression: it does not compile,
    its evaluation raises, or its value is not a dictionary. *)
Definition invalid_manifest (content : source_text) : bool :=
  match content with
  | Unparsable => true
  | Source tree =>
      match py_eval namespace [] tree with
      | Some (Raise _) => true
      | Some (Ok (PDict _)) => false
      | Some (Ok _) => true
      | None => false
      end
  end.

Lemma invalid_manifest_empty content :
  invalid_manifest content = true → _safe_eval_manifest content = Some [].
Proof.
  destruct content as [|tree]; simpl; [done|].
  destruct (py_eval namespace [] tree) as [[[]|]|]; simpl; congruence.
Qed.

(** An unreadable manifest is the one case in which the module is skipped. *)
Lemma unreadable_manifest_skipped module_path :
  _parse_module module_path None = Some None.
Proof. reflexivity. Qed.

(** C4 (counterexample).  A manifest that does not compile: the module is
    emitted, with the default fields. *)
Lemma C4_invalid_manifest_not_skipped :
  _parse_module {| path_name := "sale"; path_absolute := "/odoo/sale" |} (Some Unparsable)
  = Some (Some (default_module {| path_name := "sale"; path_absolute := "/odoo/sale" |})).
Proof. reflexivity. Qed.

(** C4 (amended).  For every module directory whose manifest is not a valid
    manifest expression, the scanner emits a Module record: it carries the
    directory's name and path and the default value of every other field. *)
Theorem C4_invalid_manifest_default_module module_path content :
  invalid_manifest content = true →
  _parse_module module_path (Some content) = Some (Some (default_module module_path)).
Proof.
  intros H. unfold _parse_module. by rewrite (invalid_manifest_empty _ H).
Qed.

Lemma C4_invalid_manifest_default_module_witness :
  invalid_manifest (Source (ast.Name "foo")) = true
  ∧ _parse_module {| path_name := "sale"; path_absolute := "/odoo/sale" |}
      (Some (Source (ast.Name "foo")))
    = Some (Some (default_module {| path_name := "sale"; path_absolute := "/odoo/sale" |})).
Proof.
  split; [reflexivity|].
  apply (C4_invalid_manifest_default_module
           {| path_name := "sale"; path_absolute := "/odoo/sale" |}
           (Source (ast.Name "foo"))).
  reflexivity.
Defined.

(** ** Effective name and entity type *)

Lemma py_in_head x l : py_in x (x :: l) = true.
Proof. unfold py_in. simpl. by rewrite bool_decide_true. Qed.

(** [class Settings(models.TransientModel): _inherit = 'res.config.settings'] *)
Definition transient_extension : ast.ClassDef :=
  {| ast.name := "Settings";
     ast.bases := [ast.Attribute (ast.Name "models") "TransientModel"];
     ast.body :=
       [ast.Assign [ast.Name "_inherit"] (ast.Constant (PStr "res.config.settings"))] |}.

(** C9 (counterexample).  A transient model that extends an entity in
    place: no [_name], one [_inherit] entry, and the type is [transient]. *)
Lemma C9_transient_extension_type :
  (m <=- _parse_class "base_setup" transient_extension
           {| path_name := "settings.py"; path_absolute := "/odoo/base_setup/settings.py" |} ;;
   match m with
   | Some m =>
       t <=- derive_model_type (OdooModel.is_transient m) (OdooModel.inherits m)
               (OdooModel.name m) ;;
       Ok (_get_attribute transient_extension "_name", OdooModel.inherits m,
           OdooModel.name m, t)
   | None => Raise "not a model"
   end)
  = Ok (PNone, PList [PStr "res.config.settings"], PStr "res.config.settings", "transient").
Proof. reflexivity. Qed.

(** C9 (amended).  For every parsed entity whose declared [_name] is absent
    and whose normalized [_inherit] list has exactly one entry [p], the
    effective name equals [p]; the entity type derived for it is [transient]
    when the entity is transient and [extension] otherwise; an entity whose
    [p] is empty or [None] is dropped by the transformer before any type is
    derived. *)
Theorem C9_single_inherit_extension module_name node file_path p :
  _is_odoo_model node = true →
  _get_attribute node "_name" = PNone →
  normalize_inherit (py_or (_get_attribute node "_inherit") (PList [])) = PList [p] →
  ∃ m, _parse_class module_name node file_path = Ok (Some m)
     ∧ OdooModel.name m = p
     ∧ OdooModel.is_extension m = true
     ∧ (py_truthy p = true →
        derive_model_type (OdooModel.is_transient m) (OdooModel.inherits m)
          (OdooModel.name m)
        = Ok (if py_truthy (OdooModel.is_transient m) then "transient" else "extension"))
     ∧ (py_truthy p = false → organize_model m = Ok empty_data).
Proof.
  intros Hmodel Hname Hinh. unfold _parse_class.
  rewrite Hmodel, Hname, Hinh. simpl.
  eexists. split; [reflexivity|]. simpl. repeat split.
  - intros Hp. unfold derive_model_type.
    destruct (py_truthy (py_or _ _)); [done|].
    rewrite Hp. cbn [negb py_truthy length Nat.eqb py_contains result_bind].
    by rewrite py_in_head.
  - intros Hp. unfold organize_model. simpl. by rewrite Hp.
Qed.

Lemma C9_single_inherit_extension_witness :
  ∃ m, _parse_class "base_setup" transient_extension
         {| path_name := "settings.py"; path_absolute := "/odoo/base_setup/settings.py" |}
       = Ok (Some m)
     ∧ OdooModel.name m = PStr "res.config.settings"
     ∧ OdooModel.is_extension m = true
     ∧ (py_truthy (PStr "res.config.settings") = true →
        derive_model_type (OdooModel.is_transient m) (OdooModel.inherits m)
          (OdooModel.name m)
        = Ok (if py_truthy (OdooModel.is_transient m) then "transient" else "extension"))
     ∧ (py_truthy (PStr "res.config.settings") = false →
        organize_model m = Ok empty_data).
Proof.
  apply (C9_single_inherit_extension "base_setup" transient_extension
           {| path_name := "settings.py"; path_absolute := "/odoo/base_setup/settings.py" |}
           (PStr "res.config.settings")); reflexivity.
Defined.

(** ** Serialization of field attributes *)

Lemma json_dumps_dict kvs ks vs :
  Forall2 (λ kv k, json_key kv.1 = Ok k) kvs ks →
  Forall2 (λ kv v, json_dumps kv.2 = Ok v) kvs vs →
  json_dumps (PDict kvs)
  = Ok ("{" +:+ String.concat ", " (zip_with (λ k v, k +:+ ": " +:+ v) ks vs) +:+ "}").
Proof.
  intros Hk Hv. cbn [json_dumps].
  match goal with
  | |- match ?go kvs with _ => _ end = _ =>
      assert (go kvs = Ok (zip_with (λ k v, k +:+ ": " +:+ v) ks vs)) as ->; [|done]
  end.
  revert vs Hv. induction Hk as [|[k x] ks0 kvs ks Hk0 _ IH]; intros vs Hv.
  - by inversion Hv.
  - inversion Hv as [|? v ? vs' Hv0 Hvs]; subst. simpl in *.
    by rewrite Hk0, Hv0, (IH _ Hvs).
Qed.

Definition quoted (s : string) : string := quote +:+ s +:+ quote.

(** The attributes [{"a": 1, "b": 2}] and [{"b": 2, "a": 1}]. *)
Definition attrs_ab : pyval := PDict [(PStr "a", PInt 1); (PStr "b", PInt 2)].
Definition attrs_ba : pyval := PDict [(PStr "b", PInt 2); (PStr "a", PInt 1)].

Definition field_row (attributes : pyval) : row :=
  [("model_name", PStr "res.partner"); ("field_name", PStr "name");
   ("field_type", PStr "Char"); ("related_model", PNone);
   ("attributes", attributes)].

(** C3 (counterexample).  Two attribute mappings that are equal as mappings
    and differ in the order of their keys are stored as different strings. *)
Lemma C3_key_order_reaches_store :
  py_eqb attrs_ab attrs_ba = true
  ∧ (r <=- field_with_json (field_row attrs_ab) ;; Ok (row_get "attributes" r))
    = Ok (PStr ("{" +:+ quoted "a" +:+ ": 1, " +:+ quoted "b" +:+ ": 2}"))
  ∧ (r <=- field_with_json (field_row attrs_ba) ;; Ok (row_get "attributes" r))
    = Ok (PStr ("{" +:+ quoted "b" +:+ ": 2, " +:+ quoted "a" +:+ ": 1}"))
  ∧ field_with_json (field_row attrs_ab) ≠ field_with_json (field_row attrs_ba).
Proof. repeat split; try reflexivity. vm_compute. discriminate. Qed.

(** C3 (amended).  For every Field, the attributes mapping is serialized to
    a JSON string before storage, with its keys in the order the mapping
    holds them: the string is the list of the members, each the key's text,
    a colon and the value's text, in that order.  Both loading paths store
    this string. *)
Theorem C3_attributes_in_mapping_order field kvs ks vs :
  row_lookup "attributes" field = Some (PDict kvs) →
  Forall2 (λ kv k, json_key kv.1 = Ok k) kvs ks →
  Forall2 (λ kv v, json_dumps kv.2 = Ok v) kvs vs →
  let stored :=
    "{" +:+ String.concat ", " (zip_with (λ k v, k +:+ ": " +:+ v) ks vs) +:+ "}" in
  field_with_json field = Ok (row_set "attributes" (PStr stored) field)
  ∧ attributes_json (PDict kvs) = Ok stored.
Proof.
  intros Hattr Hk Hv stored. unfold field_with_json, attributes_json.
  rewrite Hattr. cbn [default from_option id]. rewrite (json_dumps_dict _ _ _ Hk Hv).
  split; [reflexivity|].
  destruct Hk; [by inversion Hv|]. reflexivity.
Qed.

Lemma C3_attributes_in_mapping_order_witness :
  field_with_json (field_row attrs_ba)
  = Ok (row_set "attributes"
          (PStr ("{" +:+ String.concat ", "
                   (zip_with (λ k v, k +:+ ": " +:+ v) [quoted "b"; quoted "a"] ["2"; "1"])
                 +:+ "}"))
          (field_row attrs_ba))
  ∧ attributes_json attrs_ba
  = Ok ("{" +:+ String.concat ", "
          (zip_with (λ k v, k +:+ ": " +:+ v) [quoted "b"; quoted "a"] ["2"; "1"]) +:+ "}").
Proof.
  apply (C3_attributes_in_mapping_order (field_row attrs_ba)
           [(PStr "b", PInt 2); (PStr "a", PInt 1)] [quoted "b"; quoted "a"] ["2"; "1"]).
  - reflexivity.
  - repeat constructor.
  - repeat constructor.
Defined.

(** ** Change detection *)

Section ChangeDetection.
Variable sha256_hexdigest : string → string.
Variable fs : file_system.

Lemma has_module_changed_spec self module_path :
  _has_module_changed sha256_hexdigest fs self module_path = true
  ↔ ∃ f, f ∈ _get_relevant_files fs module_path
       ∧ has_changed sha256_hexdigest fs self f = true.
Proof.
  unfold _has_module_changed, get_changed_files.
  rewrite Nat.ltb_lt. split.
  - intros Hlen.
    destruct (filter _ _) as [|f l] eqn:E; [simpl in Hlen; lia|].
    assert (f ∈ filter (λ file_path,
              has_changed sha256_hexdigest fs self file_path = true)
              (_get_relevant_files fs module_path)) as Hin
      by (rewrite E; left).
    apply list_elem_of_filter in Hin as [Hch Hrel]. by exists f.
  - intros (f & Hin & Hch).
    assert (f ∈ filter (λ file_path,
              has_changed sha256_hexdigest fs self file_path = true)
              (_get_relevant_files fs module_path)) as Hin'
      by (apply list_elem_of_filter; done).
    destruct (filter _ _); [by apply elem_of_nil in Hin'|simpl; lia].
Qed.

(** C10.  A file whose content cannot be read is reported unchanged,
    whatever hash the state holds for it; it is never among the changed
    files, and a module is selected as changed only through a relevant
    file that can be read. *)
Theorem C10_unreadable_file_unchanged self file_path :
  read_bytes fs (path_absolute file_path) = None →
  get_file_hash sha256_hexdigest fs file_path = EmptyString
  ∧ has_changed sha256_hexdigest fs self file_path = false
  ∧ (∀ file_paths,
       file_path ∉ get_changed_files sha256_hexdigest fs self file_paths)
  ∧ (∀ module_path,
       _has_module_changed sha256_hexdigest fs self module_path = true →
       ∃ f, f ∈ _get_relevant_files fs module_path
          ∧ is_Some (read_bytes fs (path_absolute f))
          ∧ has_changed sha256_hexdigest fs self f = true).
Proof.
  intros Hread.
  assert (get_file_hash sha256_hexdigest fs file_path = EmptyString) as Hhash
    by (unfold get_file_hash; by rewrite Hread).
  assert (has_changed sha256_hexdigest fs self file_path = false) as Hch
    by (unfold has_changed; by rewrite Hhash).
  repeat split; try done.
  - intros file_paths Hin. apply list_elem_of_filter in Hin as [Hin _]. congruence.
  - intros module_path (f & Hin & Hf)%has_module_changed_spec.
    exists f. repeat split; try done.
    unfold has_changed, get_file_hash in Hf.
    destruct (read_bytes fs (path_absolute f)); [done|]. discriminate.
Qed.
End ChangeDetection.

(** A state that holds a hash for a file that can no longer be read. *)
Definition stale_state : state :=
  {| last_update := PStr "2026-01-01T00:00:00";
     files := {["/odoo/sale/models.py" := "0f3a"]} |}.

Definition unreadable_fs : file_system :=
  {| read_bytes := λ _, None;
     exists_ := λ _, true;
     rglob := λ dir pattern,
       [{| path_name := "models.py"; path_absolute := dir +:+ "/models.py" |}] |}.

Lemma C10_unreadable_file_unchanged_witness :
  get_file_hash (λ _, "e3b0") unreadable_fs
    {| path_name := "models.py"; path_absolute := "/odoo/sale/models.py" |} = EmptyString
  ∧ has_changed (λ _, "e3b0") unreadable_fs stale_state
      {| path_name := "models.py"; path_absolute := "/odoo/sale/models.py" |} = false
  ∧ (∀ file_paths,
       {| path_name := "models.py"; path_absolute := "/odoo/sale/models.py" |}
       ∉ get_changed_files (λ _, "e3b0") unreadable_fs stale_state file_paths)
  ∧ (∀ module_path,
       _has_module_changed (λ _, "e3b0") unreadable_fs stale_state module_path = true →
       ∃ f, f ∈ _get_relevant_files unreadable_fs module_path
          ∧ is_Some (read_bytes unreadable_fs (path_absolute f))
          ∧ has_changed (λ _, "e3b0") unreadable_fs stale_state f = true).
Proof.
  apply (C10_unreadable_file_unchanged (λ _, "e3b0") unreadable_fs stale_state
           {| path_name := "models.py"; path_absolute := "/odoo/sale/models.py" |}).
  reflexivity.
Defined.

Section IncrementalStrategy.
Variable sha256_hexdigest : string → string.
Variable fs : file_system.

(** When every module dictionary holds its path, the detection returns the
    modules with at least one changed relevant file, in their order. *)
Lemma detect_changed_modules_spec self modules :
  Forall (λ module, ∃ p, module_path_of module = Ok p) modules →
  ∃ changed,
    detect_changed_modules sha256_hexdigest fs self modules = Ok changed
    ∧ (length changed ≤ length modules)%nat
    ∧ ∀ module, module ∈ changed
        ↔ module ∈ modules
          ∧ ∃ p f, module_path_of module = Ok p
                 ∧ f ∈ _get_relevant_files fs p
                 ∧ has_changed sha256_hexdigest fs self f = true.
Proof.
  induction 1 as [|m modules [p Hp] _ (changed & E & Hlen & IH)].
  { exists []. split; [done|]. split; [done|]. intros module. split.
    - by intros ?%elem_of_nil.
    - by intros [?%elem_of_nil _]. }
  simpl. rewrite Hp, E. simpl.
  assert (_has_module_changed sha256_hexdigest fs self p = true
          ↔ ∃ p' f, module_path_of m = Ok p'
                  ∧ f ∈ _get_relevant_files fs p'
                  ∧ has_changed sha256_hexdigest fs self f = true) as Hm.
  { rewrite has_module_changed_spec. split.
    - intros (f & Hf & Hch). by exists p, f.
    - intros (p' & f & Hp' & Hf & Hch). rewrite Hp in Hp'. injection Hp' as <-.
      by exists f. }
  destruct (_has_module_changed sha256_hexdigest fs self p) eqn:Ech.
  - eexists. split; [done|]. split; [simpl; lia|].
    intros module. rewrite !elem_of_cons, IH. split.
    + intros [->|[Hin Hex]]; [|by auto]. split; [by left|]. by apply Hm.
    + intros [[->|Hin] Hex]; [by left|by right].
  - eexists. split; [done|]. split; [simpl; lia|].
    intros module. rewrite elem_of_cons, IH. split.
    + intros [Hin Hex]. by auto.
    + intros [[->|Hin] Hex]; [|done]. apply Hm in Hex. discriminate.
Qed.
End IncrementalStrategy.

(** The binary64 comparison [changed / total > 0.3] against the exact one.
    Division is correctly rounded and 0.3 is read as the nearest float; for
    the sizes checked here the rounded test is the exact test
    [3 * total < 10 * changed]. *)
Definition ratio_agrees (c n : Z) : bool :=
  Bool.eqb (threshold <? PrimFloat.of_uint63 (Uint63.of_Z c)
                         / PrimFloat.of_uint63 (Uint63.of_Z n))%float
           (3 * n <? 10 * c)%Z.

Fixpoint all_from (k : nat) (z : Z) (f : Z → bool) : bool :=
  match k with
  | O => true
  | S k' => f z && all_from k' (z + 1)%Z f
  end.

Definition exact_bound : nat := 4096.

Lemma all_from_spec k z f :
  all_from k z f = true → ∀ i, (z ≤ i < z + Z.of_nat k)%Z → f i = true.
Proof.
  revert z. induction k as [|k IH]; intros z H i Hi; [lia|].
  simpl in H. apply andb_true_iff in H as [Hz Hrest].
  destruct (decide (i = z)) as [->|Hne]; [done|].
  apply (IH _ Hrest). lia.
Qed.

Lemma ratio_agrees_checked :
  all_from exact_bound 1%Z
    (λ n, all_from (S (Z.to_nat n)) 0%Z (λ c, ratio_agrees c n)) = true.
Proof. vm_compute. reflexivity. Qed.

Lemma ratio_agrees_all (c n : Z) :
  (1 ≤ n < 1 + Z.of_nat exact_bound)%Z → (0 ≤ c < 0 + Z.of_nat (S (Z.to_nat n)))%Z →
  ratio_agrees c n = true.
Proof.
  intros Hn Hc.
  exact (all_from_spec (S (Z.to_nat n)) 0%Z (λ c, ratio_agrees c n)
           (all_from_spec exact_bound 1%Z
              (λ n, all_from (S (Z.to_nat n)) 0%Z (λ c, ratio_agrees c n))
              ratio_agrees_checked n Hn) c Hc).
Qed.

Lemma threshold_exact (c n : nat) :
  (0 < n ≤ exact_bound)%nat → (c ≤ n)%nat →
  (threshold <? float_of_nat c / float_of_nat n)%float = (3 * n <? 10 * c)%nat.
Proof.
  intros Hn Hc.
  assert (ratio_agrees (Z.of_nat c) (Z.of_nat n) = true) as H2.
  { apply ratio_agrees_all.
    - generalize dependent exact_bound. intros; lia.
    - rewrite Nat2Z.id. lia. }
  unfold ratio_agrees in H2.
  apply eqb_prop in H2. unfold float_of_nat. rewrite H2.
  destruct (3 * n <? 10 * c)%nat eqn:E.
  - apply Nat.ltb_lt in E. apply Z.ltb_lt. lia.
  - apply Nat.ltb_ge in E. apply Z.ltb_ge. lia.
Qed.

(** The dictionary of a module with default metadata. *)
Definition module_row (name : string) : row :=
  module_to_dict (default_module {| path_name := name; path_absolute := "/odoo/" +:+ name |}).

(** Three modules, of which one has a file whose content is new. *)
Definition three_modules : list row :=
  [module_row "account"; module_row "sale"; module_row "stock"].

Definition sale_fs : file_system :=
  {| read_bytes := λ path, Some path;
     exists_ := λ path, String.eqb path "/odoo/sale/__manifest__.py";
     rglob := λ _ _, [] |}.

Definition known_state : state :=
  {| last_update := PStr "2026-01-01T00:00:00"; files := ∅ |}.

(** C6.  With no previous run the strategy is a full reload of all modules.
    Otherwise the modules with at least one changed relevant file are
    counted, and the strategy is a full reload of all modules when their
    fraction exceeds 0.3 and an incremental run over exactly these modules
    when it does not.  The fraction is compared in binary64 as the code
    does; up to [exact_bound] modules this is the exact comparison
    [3 * total < 10 * changed]. *)
Theorem C6_incremental_strategy sha256_hexdigest fs self (modules : list row) :
  Forall (λ module, ∃ p, module_path_of module = Ok p) modules →
  ∃ changed s,
    get_incremental_strategy sha256_hexdigest fs self modules = Ok s
    ∧ detect_changed_modules sha256_hexdigest fs self modules = Ok changed
    ∧ (∀ module, module ∈ changed
         ↔ module ∈ modules
           ∧ ∃ p f, module_path_of module = Ok p
                  ∧ f ∈ _get_relevant_files fs p
                  ∧ has_changed sha256_hexdigest fs self f = true)
    ∧ (let change_ratio :=
         match modules with
         | [] => 0%float
         | _ => (float_of_nat (length changed) / float_of_nat (length modules))%float
         end in
       (if negb (py_truthy (last_update self)) then
          full_reload s = true ∧ changed_modules s = modules
        else if (threshold <? change_ratio)%float then
          full_reload s = true ∧ changed_modules s = modules
        else
          full_reload s = false ∧ changed_modules s = changed)
       ∧ ((length modules ≤ exact_bound)%nat →
          (threshold <? change_ratio)%float
          = (3 * length modules <? 10 * length changed)%nat)).
Proof.
  intros Hpaths.
  destruct (detect_changed_modules_spec sha256_hexdigest fs self modules Hpaths)
    as (changed & E & Hlen & Hchanged).
  assert (∀ change_ratio,
            change_ratio
            = match modules with
              | [] => 0%float
              | _ => (float_of_nat (length changed) / float_of_nat (length modules))%float
              end →
            (length modules ≤ exact_bound)%nat →
            (threshold <? change_ratio)%float
            = (3 * length modules <? 10 * length changed)%nat) as Hexact.
  { intros change_ratio -> Hle.
    destruct modules as [|m modules']; [by destruct changed|].
    apply threshold_exact; [simpl in *; lia|done]. }
  exists changed. unfold get_incremental_strategy.
  destruct (negb (py_truthy (last_update self))).
  { eexists. split; [reflexivity|]. split; [done|]. split; [done|].
    split; [done|]. by apply Hexact. }
  rewrite E. cbn [result_bind].
  destruct (threshold <? _)%float eqn:Hratio.
  - eexists. split; [reflexivity|]. split; [done|]. split; [done|].
    split; [done|]. rewrite <-Hratio. by apply Hexact.
  - eexists. split; [reflexivity|]. split; [done|]. split; [done|].
    split; [done|]. rewrite <-Hratio. by apply Hexact.
Qed.

(** One module of three has changed: more than 0.3 of them, a full reload. *)
Lemma C6_incremental_strategy_witness :
  ∃ changed s,
    get_incremental_strategy (λ content, content) sale_fs known_state three_modules = Ok s
    ∧ detect_changed_modules (λ content, content) sale_fs known_state three_modules
      = Ok changed
    ∧ (∀ module, module ∈ changed
         ↔ module ∈ three_modules
           ∧ ∃ p f, module_path_of module = Ok p
                  ∧ f ∈ _get_relevant_files sale_fs p
                  ∧ has_changed (λ content, content) sale_fs known_state f = true)
    ∧ (let change_ratio :=
         (float_of_nat (length changed) / float_of_nat (length three_modules))%float in
       (if negb (py_truthy (last_update known_state)) then
          full_reload s = true ∧ changed_modules s = three_modules
        else if (threshold <? change_ratio)%float then
          full_reload s = true ∧ changed_modules s = three_modules
        else
          full_reload s = false ∧ changed_modules s = changed)
       ∧ ((length three_modules ≤ exact_bound)%nat →
          (threshold <? change_ratio)%float
          = (3 * length three_modules <? 10 * length changed)%nat)).
Proof.
  apply (C6_incremental_strategy (λ content, content) sale_fs known_state three_modules).
  repeat constructor; by eexists.
Defined.

(** ** Batches *)

Local Open Scope nat_scope.

(** The store after the batches numbered in [l] have committed, in order. *)
Definition commit_batches (q : query) (B : nat) (data : list row) (l : list nat)
    (g : graph) : graph :=
  fold_left (λ g i, run_query q g (batch_of B data i)) l g.

(** The number of items in the batches numbered in [l]. *)
Definition batch_items (B : nat) (data : list row) (l : list nat) : nat :=
  sum_list_with (λ i, length (batch_of B data i)) l.

Definition with_counts (m : Metrics.t) (errors batches : nat) : Metrics.t :=
  {| Metrics.nodes_created := Metrics.nodes_created m;
     Metrics.relationships_created := Metrics.relationships_created m;
     Metrics.errors := Metrics.errors m + errors;
     Metrics.batches_processed := Metrics.batches_processed m + batches |}.

Lemma batch_fold_commit fail q data l self done failed :
  (∀ i, i ∈ l → fail i = false) →
  fold_left (batch_step fail q data) l
    {| loop_self := self; loop_processed := done; loop_errors := failed |}
  = {| loop_self :=
         {| store := commit_batches q (batch_size self) data l (store self);
            batch_size := batch_size self;
            metrics := with_counts (metrics self) 0 (length l) |};
       loop_processed := done + batch_items (batch_size self) data l;
       loop_errors := failed |}.
Proof.
  revert self done failed.
  induction l as [|i l IH]; intros [g B [nc rc er bp]] done failed Hl.
  - simpl. unfold with_counts. simpl. by rewrite !Nat.add_0_r.
  - cbn [fold_left]. unfold batch_step at 2. cbn [loop_self batch_size metrics].
    rewrite (Hl i) by left. rewrite IH by (intros j Hj; apply Hl; by right).
    unfold with_counts, batch_items, commit_batches. simpl.
    replace (bp + 1 + length l) with (bp + S (length l)) by lia.
    by rewrite Nat.add_assoc.
Qed.

Lemma batch_step_fail fail q data self done failed k :
  fail k = true →
  batch_step fail q data
    {| loop_self := self; loop_processed := done; loop_errors := failed |} k
  = {| loop_self :=
         {| store := store self; batch_size := batch_size self;
            metrics := with_counts (metrics self) 1 0 |};
       loop_processed := done;
       loop_errors := failed + length (batch_of (batch_size self) data k) |}.
Proof.
  intros Hk. unfold batch_step. cbn [loop_self loop_processed loop_errors].
  rewrite Hk. unfold with_counts. by rewrite Nat.add_0_r.
Qed.

Lemma batch_items_seq B data n :
  batch_items B data (seq 1 n) = length (take (n * B) data).
Proof.
  unfold batch_items. induction n as [|n IH]; [done|].
  rewrite seq_S, sum_list_with_app, IH. simpl.
  unfold batch_of. rewrite !length_take, length_drop.
  replace (S n - 1) with n by lia. lia.
Qed.

Lemma total_batches_cover (B len : nat) :
  0 < B → len ≤ (len + B - 1) / B * B.
Proof.
  intros HB.
  pose proof (Nat.div_mod_eq (len + B - 1) B) as Hdm.
  pose proof (Nat.mod_upper_bound (len + B - 1) B) as Hmod.
  nia.
Qed.

Lemma commit_batches_app q B data l1 l2 g :
  commit_batches q B data (l1 ++ l2) g
  = commit_batches q B data l2 (commit_batches q B data l1 g).
Proof. apply fold_left_app. Qed.

Lemma batch_execute_loop fail q data self :
  data ≠ [] → 0 < batch_size self →
  _batch_execute fail q data self
  = let st := fold_left (batch_step fail q data)
                (seq 1 ((length data + batch_size self - 1) / batch_size self))
                {| loop_self := self; loop_processed := 0; loop_errors := 0 |} in
    Ok (loop_self st,
        {| Summary.processed := loop_processed st; Summary.errors := loop_errors st |}).
Proof.
  intros Hdata HB. unfold _batch_execute.
  destruct data; [done|].
  destruct (Nat.eqb (batch_size self) 0) eqn:E0; [apply Nat.eqb_eq in E0; lia|done].
Qed.

Definition four_modules : list row :=
  [module_row "a"; module_row "b"; module_row "c"; module_row "d"].

Definition no_metrics : Metrics.t :=
  {| Metrics.nodes_created := 0; Metrics.relationships_created := 0;
     Metrics.errors := 0; Metrics.batches_processed := 0 |}.

Definition fresh_loader (B : nat) : Neo4jLoader :=
  {| store := empty_graph; batch_size := B; metrics := no_metrics |}.

(** C7 (counterexample).  Four rows in batches of two, the first batch
    fails: the error metric goes from 0 to 1, below the two items lost. *)
Lemma C7_error_metric_counts_batches :
  (r <=- _batch_execute (λ i, Nat.eqb i 1) q_modules four_modules (fresh_loader 2) ;;
   Ok (Metrics.errors (metrics r.1), length (batch_of 2 four_modules 1),
       Summary.errors r.2, Metrics.batches_processed (metrics r.1)))
  = Ok (1, 2, 2, 1).
Proof. reflexivity. Qed.

(** C7 (amended).  For every loader sub-step split into N batches in which
    exactly one batch k fails, the other N-1 batches are still executed and
    commit, in order, and the store is their effect; the summary the
    sub-step returns counts the items of batch k as errors and all others as
    processed; the loader's metrics count one more error and N-1 more
    processed batches. *)
Theorem C7_one_failing_batch q data self k :
  0 < batch_size self →
  let B := batch_size self in
  let N := (length data + B - 1) / B in
  1 ≤ k ≤ N →
  ∃ self' summary,
    _batch_execute (λ i, Nat.eqb i k) q data self = Ok (self', summary)
    ∧ store self'
      = commit_batches q B data (seq 1 (k - 1) ++ seq (k + 1) (N - k)) (store self)
    ∧ metrics self' = with_counts (metrics self) 1 (N - 1)
    ∧ Summary.errors summary = length (batch_of B data k)
    ∧ Summary.processed summary + length (batch_of B data k) = length data.
Proof.
  intros HB B N Hk.
  assert (seq 1 N = seq 1 (k - 1) ++ [k] ++ seq (k + 1) (N - k)) as Hseq.
  { replace N with ((k - 1) + (1 + (N - k))) at 1 by lia.
    rewrite seq_app, seq_app. simpl. repeat f_equal; lia. }
  assert (data ≠ []) as Hdata.
  { intros ->. subst N. simpl in Hk. rewrite Nat.div_small in Hk by lia. lia. }
  rewrite batch_execute_loop by done.
  fold B. fold N. cbv zeta. rewrite Hseq. rewrite !fold_left_app.
  rewrite batch_fold_commit.
  2:{ intros i Hi. apply Nat.eqb_neq. apply elem_of_seq in Hi. lia. }
  cbn [fold_left].
  rewrite batch_step_fail by apply Nat.eqb_refl.
  rewrite batch_fold_commit.
  2:{ intros i Hi. apply Nat.eqb_neq. apply elem_of_seq in Hi. lia. }
  cbn [store batch_size metrics]. fold B.
  eexists _, _. split; [reflexivity|].
  cbn [fst snd Summary.errors Summary.processed loop_self loop_processed loop_errors
       store metrics].
  repeat split.
  - by rewrite commit_batches_app.
  - destruct (metrics self). unfold with_counts. simpl.
    rewrite !length_seq. f_equal; lia.
  - pose proof (batch_items_seq B data N) as Hall.
    rewrite Hseq in Hall. unfold batch_items in Hall |- *.
    rewrite !sum_list_with_app in Hall. simpl in Hall.
    rewrite take_ge in Hall by (apply total_batches_cover; done).
    lia.
Qed.

Lemma C7_one_failing_batch_witness :
  ∃ self' summary,
    _batch_execute (λ i, Nat.eqb i 1) q_modules four_modules (fresh_loader 2)
    = Ok (self', summary)
    ∧ store self'
      = commit_batches q_modules 2 four_modules (seq 1 0 ++ seq 2 1) empty_graph
    ∧ metrics self' = with_counts no_metrics 1 1
    ∧ Summary.errors summary = length (batch_of 2 four_modules 1)
    ∧ Summary.processed summary + length (batch_of 2 four_modules 1)
      = length four_modules.
Proof.
  apply (C7_one_failing_batch q_modules four_modules (fresh_loader 2) 1);
    cbv; lia.
Defined.

(** ** The graph store, cell by cell

    A clause changes one cell of the store: the node or the relationships
    under one key.  [node_cell] and [rel_cell] are these changes. *)

Definition node_cell (c : clause) (r : row) (n : node_id)
    (o : option (gmap string pyval)) : option (gmap string pyval) :=
  match c with
  | MERGE_node p =>
      if decide (node_of p r = n) then Some (default (key_props p r) o) else o
  | SET_node p assign =>
      if decide (node_of p r = n) then set_props assign r <$> o else o
  | _ => o
  end.

(** The relationships under a key once [MERGE] has run: what was there, or
    one new relationship without properties. *)
Definition merged_rels (o : option (list (gmap string pyval)))
    : list (gmap string pyval) :=
  match o with
  | Some (x :: l) => x :: l
  | _ => [∅]
  end.

Definition rel_cell (c : clause) (r : row) (k : rel_key)
    (o : option (list (gmap string pyval))) : option (list (gmap string pyval)) :=
  match c with
  | MERGE_rel t a b =>
      if decide ((t, node_of a r, node_of b r) = k) then Some (merged_rels o) else o
  | SET_rel t a b assign =>
      if decide ((t, node_of a r, node_of b r) = k)
      then map (set_props assign r) <$> o else o
  | _ => o
  end.

Lemma exec_clause_nodes c r g n :
  nodes (exec_clause c r g) !! n = node_cell c r n (nodes g !! n).
Proof.
  destruct c as [p|p assign|t a b|t a b assign]; simpl; try done.
  - destruct (nodes g !! node_of p r) eqn:E; simpl.
    + case_decide; [subst; by rewrite E|done].
    + rewrite lookup_insert. case_decide; [subst; by rewrite E|done].
  - rewrite lookup_alter. case_decide; [by subst|done].
  - by destruct (rels g !! (t, node_of a r, node_of b r)) as [[|]|].
Qed.

Lemma exec_clause_rels c r g k :
  rels (exec_clause c r g) !! k = rel_cell c r k (rels g !! k).
Proof.
  destruct c as [p|p assign|t a b|t a b assign]; simpl; try done.
  - by destruct (nodes g !! node_of p r).
  - destruct (rels g !! (t, node_of a r, node_of b r)) as [[|x l]|] eqn:E; simpl.
    + rewrite lookup_insert. case_decide; [subst; by rewrite E|done].
    + case_decide; [subst; by rewrite E|done].
    + rewrite lookup_insert. case_decide; [subst; by rewrite E|done].
  - rewrite lookup_alter. case_decide; [by subst|done].
Qed.

Lemma graph_eq g g' :
  (∀ n, nodes g !! n = nodes g' !! n) → (∀ k, rels g !! k = rels g' !! k) → g = g'.
Proof.
  destruct g as [ns rs], g' as [ns' rs']. simpl. intros Hn Hr.
  f_equal; by apply map_eq.
Qed.

(** A trace: the clauses a query runs, each with its row, in order. *)
Definition exec_trace (T : list (clause * row)) (g : graph) : graph :=
  fold_left (λ g cr, exec_clause cr.1 cr.2 g) T g.

Definition node_at (T : list (clause * row)) (n : node_id)
    (o : option (gmap string pyval)) : option (gmap string pyval) :=
  fold_left (λ o cr, node_cell cr.1 cr.2 n o) T o.

Definition rel_at (T : list (clause * row)) (k : rel_key)
    (o : option (list (gmap string pyval))) : option (list (gmap string pyval)) :=
  fold_left (λ o cr, rel_cell cr.1 cr.2 k o) T o.

Lemma exec_trace_nodes T g n :
  nodes (exec_trace T g) !! n = node_at T n (nodes g !! n).
Proof.
  revert g. induction T as [|[c r] T IH]; intros g; [done|].
  simpl. by rewrite IH, exec_clause_nodes.
Qed.

Lemma exec_trace_rels T g k :
  rels (exec_trace T g) !! k = rel_at T k (rels g !! k).
Proof.
  revert g. induction T as [|[c r] T IH]; intros g; [done|].
  simpl. by rewrite IH, exec_clause_rels.
Qed.

Lemma exec_trace_app T1 T2 g :
  exec_trace (T1 ++ T2) g = exec_trace T2 (exec_trace T1 g).
Proof. apply fold_left_app. Qed.

(** The rows of a batch that pass the [MATCH] clauses. *)
Definition selected (q : query) (g : graph) (rows : list row) : list row :=
  filter (λ r, forallb (λ p, matches g p r) (q_match q) = true) rows.

Definition clause_trace (cs : list clause) (s : list row) : list (clause * row) :=
  flat_map (λ c, map (λ r, (c, r)) s) cs.

Lemma run_query_trace q g rows :
  run_query q g rows = exec_trace (clause_trace (q_update q) (selected q g rows)) g.
Proof.
  unfold run_query. fold (selected q g rows).
  generalize (selected q g rows) as s. intros s. revert g.
  induction (q_update q) as [|c cs IH]; intros g; [done|].
  simpl. rewrite exec_trace_app, <-IH. f_equal.
  clear. revert g. induction s as [|r s IH]; intros g; [done|]. simpl. apply IH.
Qed.

(** The sub-step of a query when no batch fails, and a whole load as the
    list of its sub-steps. *)
Definition run_step (q : query) (B : nat) (rows : list row) (g : graph) : graph :=
  commit_batches q B rows (seq 1 ((length rows + B - 1) / B)) g.

Definition run_prog (B : nat) (steps : list (query * list row)) (g : graph) : graph :=
  fold_left (λ g s, run_step s.1 B s.2 g) steps g.

(** What holds of a store and is kept by every clause is kept by a query, a
    sub-step and a load. *)
Lemma exec_trace_ind (Q : graph → Prop) T g :
  Q g → (∀ c r X, (c, r) ∈ T → Q X → Q (exec_clause c r X)) → Q (exec_trace T g).
Proof.
  revert g. induction T as [|[c r] T IH]; intros g Hg Hstep; [done|].
  simpl. apply IH.
  - apply Hstep; [left|done].
  - intros c' r' X Hin. apply Hstep. by right.
Qed.

Lemma elem_of_clause_trace cs s c r :
  (c, r) ∈ clause_trace cs s ↔ c ∈ cs ∧ r ∈ s.
Proof.
  unfold clause_trace. rewrite list_elem_of_In, in_flat_map. split.
  - intros (c' & Hc & Hin). apply in_map_iff in Hin as (r' & [= <- <-] & Hr).
    by rewrite !list_elem_of_In.
  - intros [Hc Hr]. exists c. rewrite <-list_elem_of_In. split; [done|].
    apply in_map_iff. exists r. by rewrite <-list_elem_of_In.
Qed.

Lemma run_query_ind (Q : graph → Prop) q g rows :
  Q g → (∀ c r X, c ∈ q_update q → Q X → Q (exec_clause c r X)) →
  Q (run_query q g rows).
Proof.
  intros Hg Hstep. rewrite run_query_trace. apply exec_trace_ind; [done|].
  intros c r X [Hc _]%elem_of_clause_trace. by apply Hstep.
Qed.

Lemma commit_batches_ind (Q : graph → Prop) q B data l g :
  Q g → (∀ c r X, c ∈ q_update q → Q X → Q (exec_clause c r X)) →
  Q (commit_batches q B data l g).
Proof.
  intros Hg Hstep. unfold commit_batches. revert g Hg.
  induction l as [|i l IH]; intros g Hg; [done|].
  simpl. apply IH. by apply run_query_ind.
Qed.

Definition prog_clauses (steps : list (query * list row)) : list clause :=
  flat_map (λ s, q_update s.1) steps.

Lemma run_prog_ind (Q : graph → Prop) B steps g :
  Q g → (∀ c r X, c ∈ prog_clauses steps → Q X → Q (exec_clause c r X)) →
  Q (run_prog B steps g).
Proof.
  unfold run_prog. revert g. induction steps as [|[q rows] steps IH]; intros g Hg Hstep;
    [done|].
  simpl. apply IH.
  - unfold run_step. apply commit_batches_ind; [done|]. intros c r X Hc. apply Hstep.
    unfold prog_clauses. simpl. apply elem_of_app. by left.
  - intros c r X Hc. apply Hstep. unfold prog_clauses. simpl. apply elem_of_app. by right.
Qed.

(** The footprint of a clause. *)
Definition touches_label (L : node_label) (c : clause) : bool :=
  match c with
  | MERGE_node p | SET_node p _ => bool_decide (p_label p = L)
  | _ => false
  end.

Definition sets_label (L : node_label) (c : clause) : bool :=
  match c with
  | SET_node p _ => bool_decide (p_label p = L)
  | _ => false
  end.

Definition touches_type (t : rel_type) (c : clause) : bool :=
  match c with
  | MERGE_rel t' _ _ | SET_rel t' _ _ _ => bool_decide (t' = t)
  | _ => false
  end.

Lemma node_cell_untouched c r n o :
  touches_label n.1 c = false → node_cell c r n o = o.
Proof.
  destruct c as [p|p assign| |]; simpl; try done.
  all: intros H%bool_decide_eq_false; case_decide; [|done].
  all: subst n; by destruct H.
Qed.

Lemma node_cell_kept c r n ps :
  sets_label n.1 c = false → node_cell c r n (Some ps) = Some ps.
Proof.
  destruct c as [p|p assign| |]; simpl; try done.
  - intros _. by case_decide.
  - intros H%bool_decide_eq_false. case_decide; [|done]. subst n; by destruct H.
Qed.

Lemma node_cell_is_Some c r n o : is_Some o → is_Some (node_cell c r n o).
Proof.
  intros [ps ->]. destruct c as [p|p assign| |]; simpl; try done.
  all: by case_decide.
Qed.

Lemma rel_cell_untouched c r k o :
  touches_type k.1.1 c = false → rel_cell c r k o = o.
Proof.
  destruct c as [ | |t a b|t a b assign]; simpl; try done.
  all: intros H%bool_decide_eq_false; case_decide; [|done].
  all: subst k; by destruct H.
Qed.

(** At least one relationship under the key. *)
Definition rel_present (o : option (list (gmap string pyval))) : Prop :=
  match o with
  | Some (_ :: _) => True
  | _ => False
  end.

Lemma rel_cell_present c r k o : rel_present o → rel_present (rel_cell c r k o).
Proof.
  destruct o as [[|x l]|]; try done. intros _.
  destruct c as [ | |t a b|t a b assign]; simpl; try done.
  all: by case_decide.
Qed.

Lemma forallb_elem_of {A} (f : A → bool) (l : list A) x :
  forallb f l = true → x ∈ l → f x = true.
Proof. rewrite forallb_forall. intros H Hin. apply H. by apply list_elem_of_In. Qed.

(** Frames for a whole load. *)
Lemma run_prog_untouched B steps g n :
  forallb (λ c, negb (touches_label n.1 c)) (prog_clauses steps) = true →
  nodes (run_prog B steps g) !! n = nodes g !! n.
Proof.
  intros H. apply (run_prog_ind (λ X, nodes X !! n = nodes g !! n)); [done|].
  intros c r X Hc HX. rewrite exec_clause_nodes, HX.
  apply node_cell_untouched. apply negb_true_iff. by apply (forallb_elem_of _ _ _ H).
Qed.

Lemma run_prog_kept B steps g n ps :
  forallb (λ c, negb (sets_label n.1 c)) (prog_clauses steps) = true →
  nodes g !! n = Some ps → nodes (run_prog B steps g) !! n = Some ps.
Proof.
  intros H Hg. apply (run_prog_ind (λ X, nodes X !! n = Some ps)); [done|].
  intros c r X Hc HX. rewrite exec_clause_nodes, HX.
  apply node_cell_kept. apply negb_true_iff. by apply (forallb_elem_of _ _ _ H).
Qed.

Lemma run_prog_is_Some B steps g n :
  is_Some (nodes g !! n) → is_Some (nodes (run_prog B steps g) !! n).
Proof.
  intros Hg. apply (run_prog_ind (λ X, is_Some (nodes X !! n))); [done|].
  intros c r X _ HX. rewrite exec_clause_nodes. by apply node_cell_is_Some.
Qed.

Lemma run_prog_rels_untouched B steps g k :
  forallb (λ c, negb (touches_type k.1.1 c)) (prog_clauses steps) = true →
  rels (run_prog B steps g) !! k = rels g !! k.
Proof.
  intros H. apply (run_prog_ind (λ X, rels X !! k = rels g !! k)); [done|].
  intros c r X Hc HX. rewrite exec_clause_rels, HX.
  apply rel_cell_untouched. apply negb_true_iff. by apply (forallb_elem_of _ _ _ H).
Qed.

(** ** One cell under a trace

    What a trace does to one cell is a list of operations: [MERGE] puts a
    value where there is none, [SET] changes the value that is there.  When
    the first operation is a [MERGE] and later [SET]s override earlier ones,
    running the list a second time changes nothing. *)
Section Cell.
Context {V : Type} (good : V → Prop).

Inductive cop : Type :=
  | CMerge (m : option V → V)
  | CSet (f : V → V).

Definition run_op (o : option V) (op : cop) : option V :=
  match op with
  | CMerge m => Some (m o)
  | CSet f => f <$> o
  end.

Definition run_cell (ops : list cop) (o : option V) : option V :=
  fold_left run_op ops o.

Definition starts_ok (ops : list cop) : Prop :=
  match ops with
  | CSet _ :: _ => False
  | _ => True
  end.

Record wf_cell (ops : list cop) : Prop := {
  wf_merge_good : ∀ m, CMerge m ∈ ops → ∀ o, good (m o);
  wf_merge_Some : ∀ m, CMerge m ∈ ops → ∀ v, good v → m (Some v) = v;
  wf_set_good : ∀ f, CSet f ∈ ops → ∀ v, good v → good (f v);
  wf_absorb : ∀ f f', CSet f ∈ ops → CSet f' ∈ ops → ∀ v, f (f' v) = f v;
}.

Fixpoint last_set (ops : list cop) : option (V → V) :=
  match ops with
  | [] => None
  | CMerge _ :: ops' => last_set ops'
  | CSet f :: ops' =>
      match last_set ops' with
      | Some f' => Some f'
      | None => Some f
      end
  end.

Definition last_set_fn (ops : list cop) (v : V) : V :=
  match last_set ops with
  | Some f => f v
  | None => v
  end.

Lemma last_set_elem ops f : last_set ops = Some f → CSet f ∈ ops.
Proof.
  induction ops as [|[m|f0] ops IH]; simpl; [done| |].
  - intros H. right. by apply IH.
  - destruct (last_set ops) as [f'|]; intros [= <-]; [right; by apply IH|left].
Qed.

Lemma wf_cell_tail op ops : wf_cell (op :: ops) → wf_cell ops.
Proof.
  intros [H1 H2 H3 H4]. split.
  - intros m Hm. apply H1. by right.
  - intros m Hm. apply H2. by right.
  - intros f Hf. apply H3. by right.
  - intros f f' Hf Hf'. apply H4; by right.
Qed.

Lemma last_set_fn_good ops v : wf_cell ops → good v → good (last_set_fn ops v).
Proof.
  intros Hwf Hv. unfold last_set_fn.
  destruct (last_set ops) as [f|] eqn:E; [|done].
  apply (wf_set_good _ Hwf); [by apply last_set_elem|done].
Qed.

Lemma run_cell_Some ops v :
  wf_cell ops → good v → run_cell ops (Some v) = Some (last_set_fn ops v).
Proof.
  revert v. induction ops as [|[m|f] ops IH]; intros v Hwf Hv; [done| |].
  - simpl. rewrite (wf_merge_Some _ Hwf m) by (left || done).
    rewrite IH by (eauto using wf_cell_tail). done.
  - simpl. rewrite IH.
    2: by eapply wf_cell_tail.
    2: by apply (wf_set_good _ Hwf f); [left|].
    unfold last_set_fn. simpl. destruct (last_set ops) as [f'|] eqn:E; [|done].
    f_equal. apply (wf_absorb _ Hwf); [right; by apply last_set_elem|left].
Qed.

(** A second run of the operations leaves the cell as the first run left
    it. *)
Theorem run_cell_fixed ops :
  wf_cell ops → starts_ok ops →
  ops = [] ∨ ∀ o, ∃ v, run_cell ops o = Some v ∧ run_cell ops (Some v) = Some v.
Proof.
  intros Hwf Hstart. destruct ops as [|[m|f] ops]; [by left| |done].
  right. intros o.
  assert (good (m o)) as Hgood by (apply (wf_merge_good _ Hwf m); left).
  pose proof (wf_cell_tail _ _ Hwf) as Hwf'.
  exists (last_set_fn ops (m o)). split.
  - simpl. by apply run_cell_Some.
  - simpl. rewrite (wf_merge_Some _ Hwf m); [|left|by apply last_set_fn_good].
    rewrite run_cell_Some; [|done|by apply last_set_fn_good].
    f_equal. unfold last_set_fn. destruct (last_set ops) as [f|] eqn:E; [|done].
    apply (wf_absorb _ Hwf'); by apply last_set_elem.
Qed.

Lemma run_cell_app ops1 ops2 o :
  run_cell (ops1 ++ ops2) o = run_cell ops2 (run_cell ops1 o).
Proof. apply fold_left_app. Qed.

Lemma starts_ok_app ops1 ops2 :
  starts_ok ops1 → starts_ok ops2 → starts_ok (ops1 ++ ops2).
Proof. destruct ops1 as [|[]]; simpl; done. Qed.
End Cell.

Arguments CMerge {V} m.
Arguments CSet {V} f.

(** [SET] writes a fixed list of properties: what one row sets hides what
    another set before. *)
Lemma set_props_outside assign r ps x :
  x ∉ assign.*1 → set_props assign r ps !! x = ps !! x.
Proof.
  unfold set_props. revert ps. induction assign as [|[k key] assign IH]; intros ps Hx;
    [done|].
  simpl in *. apply not_elem_of_cons in Hx as [Hne Hx].
  rewrite IH by done. unfold set_prop. simpl.
  destruct (row_get key r); by rewrite ?lookup_insert_ne, ?lookup_delete_ne.
Qed.

Lemma set_props_agree assign r ps ps' :
  (∀ x, x ∉ assign.*1 → ps !! x = ps' !! x) →
  set_props assign r ps = set_props assign r ps'.
Proof.
  unfold set_props. revert ps ps'.
  induction assign as [|[k key] assign IH]; intros ps ps' H.
  - apply map_eq. intros x. apply H. apply not_elem_of_nil.
  - simpl. apply IH. intros x Hx. unfold set_prop. simpl.
    destruct (decide (x = k)) as [->|Hne].
    + destruct (row_get key r); by rewrite ?lookup_insert_eq, ?lookup_delete_eq.
    + assert (ps !! x = ps' !! x) as Hxx.
      { apply H. simpl. apply not_elem_of_cons. done. }
      destruct (row_get key r); by rewrite ?lookup_insert_ne, ?lookup_delete_ne.
Qed.

Lemma set_props_absorb assign r r' ps :
  set_props assign r (set_props assign r' ps) = set_props assign r ps.
Proof. apply set_props_agree. intros x Hx. by apply set_props_outside. Qed.

(** ** The cells of the graph under a trace *)

#[global] Instance pattern_eq_dec : EqDecision pattern.
Proof. solve_decision. Defined.

Definition node_op (n : node_id) (c : clause) (r : row)
    : list (@cop (gmap string pyval)) :=
  match c with
  | MERGE_node p =>
      if decide (node_of p r = n) then [CMerge (default (key_props p r))] else []
  | SET_node p assign =>
      if decide (node_of p r = n) then [CSet (set_props assign r)] else []
  | _ => []
  end.

Definition rel_op (k : rel_key) (c : clause) (r : row)
    : list (@cop (list (gmap string pyval))) :=
  match c with
  | MERGE_rel t a b =>
      if decide ((t, node_of a r, node_of b r) = k) then [CMerge merged_rels] else []
  | SET_rel t a b assign =>
      if decide ((t, node_of a r, node_of b r) = k)
      then [CSet (map (set_props assign r))] else []
  | _ => []
  end.

Definition trace_ops {V} (op : clause → row → list (@cop V)) (T : list (clause * row))
    : list (@cop V) :=
  flat_map (λ cr, op cr.1 cr.2) T.

Lemma node_at_ops T n o : node_at T n o = run_cell (trace_ops (node_op n) T) o.
Proof.
  unfold node_at, trace_ops. revert o. induction T as [|[c r] T IH]; intros o; [done|].
  simpl. rewrite run_cell_app, <-IH. f_equal.
  destruct c; simpl; try done; by case_decide.
Qed.

Lemma rel_at_ops T k o : rel_at T k o = run_cell (trace_ops (rel_op k) T) o.
Proof.
  unfold rel_at, trace_ops. revert o. induction T as [|[c r] T IH]; intros o; [done|].
  simpl. rewrite run_cell_app, <-IH. f_equal.
  destruct c; simpl; try done; by case_decide.
Qed.

Lemma elem_of_trace_ops {V} (op : clause → row → list (@cop V)) T x :
  x ∈ trace_ops op T ↔ ∃ c r, (c, r) ∈ T ∧ x ∈ op c r.
Proof.
  unfold trace_ops. rewrite list_elem_of_In, in_flat_map. split.
  - intros ([c r] & Hin & Hx). exists c, r. by rewrite !list_elem_of_In.
  - intros (c & r & Hin & Hx). exists (c, r). by rewrite <-!list_elem_of_In.
Qed.

(** The [SET] clauses of a query write the same properties. *)
Definition same_assign (c c' : clause) : bool :=
  match c, c' with
  | SET_node _ a, SET_node _ a' => bool_decide (a = a')
  | SET_rel _ _ _ a, SET_rel _ _ _ a' => bool_decide (a = a')
  | _, _ => true
  end.

Definition uniform_sets (cs : list clause) : bool :=
  forallb (λ c, forallb (same_assign c) cs) cs.

Lemma uniform_sets_spec cs c c' :
  uniform_sets cs = true → c ∈ cs → c' ∈ cs → same_assign c c' = true.
Proof.
  intros H Hc Hc'. unfold uniform_sets in H.
  pose proof (forallb_elem_of _ _ c H Hc) as H1. cbv beta in H1.
  by apply (forallb_elem_of _ _ c' H1).
Qed.

Definition nonempty_rels (l : list (gmap string pyval)) : Prop := l ≠ [].

Lemma node_ops_wf T n cs :
  (∀ c r, (c, r) ∈ T → c ∈ cs) → uniform_sets cs = true →
  wf_cell (λ _, True) (trace_ops (node_op n) T).
Proof.
  intros HT Hu. split; try done.
  - intros m (c & r & Hin & Hm)%elem_of_trace_ops v _.
    destruct c; simpl in Hm; try by apply elem_of_nil in Hm.
    all: case_decide; [|by apply elem_of_nil in Hm].
    all: apply list_elem_of_singleton in Hm; by inversion Hm.
  - intros f f' (c & r & Hin & Hf)%elem_of_trace_ops
      (c' & r' & Hin' & Hf')%elem_of_trace_ops v.
    pose proof (uniform_sets_spec cs c c' Hu (HT _ _ Hin) (HT _ _ Hin')) as Hsame.
    destruct c; simpl in Hf; try by apply elem_of_nil in Hf.
    all: case_decide; [|by apply elem_of_nil in Hf].
    all: apply list_elem_of_singleton in Hf; inversion Hf; subst.
    destruct c'; simpl in Hf'; try by apply elem_of_nil in Hf'.
    all: case_decide; [|by apply elem_of_nil in Hf'].
    all: apply list_elem_of_singleton in Hf'; inversion Hf'; subst.
    simpl in Hsame. apply bool_decide_eq_true in Hsame as ->.
    apply set_props_absorb.
Qed.

Lemma rel_ops_wf T k cs :
  (∀ c r, (c, r) ∈ T → c ∈ cs) → uniform_sets cs = true →
  wf_cell nonempty_rels (trace_ops (rel_op k) T).
Proof.
  intros HT Hu. split.
  - intros m (c & r & Hin & Hm)%elem_of_trace_ops o.
    destruct c; simpl in Hm; try by apply elem_of_nil in Hm.
    all: case_decide; [|by apply elem_of_nil in Hm].
    all: apply list_elem_of_singleton in Hm; inversion Hm; subst.
    by destruct o as [[|]|].
  - intros m (c & r & Hin & Hm)%elem_of_trace_ops v Hv.
    destruct c; simpl in Hm; try by apply elem_of_nil in Hm.
    all: case_decide; [|by apply elem_of_nil in Hm].
    all: apply list_elem_of_singleton in Hm; inversion Hm; subst.
    by destruct v.
  - intros f (c & r & Hin & Hf)%elem_of_trace_ops v Hv.
    destruct c; simpl in Hf; try by apply elem_of_nil in Hf.
    all: case_decide; [|by apply elem_of_nil in Hf].
    all: apply list_elem_of_singleton in Hf; inversion Hf; subst.
    by destruct v.
  - intros f f' (c & r & Hin & Hf)%elem_of_trace_ops
      (c' & r' & Hin' & Hf')%elem_of_trace_ops v.
    pose proof (uniform_sets_spec cs c c' Hu (HT _ _ Hin) (HT _ _ Hin')) as Hsame.
    destruct c; simpl in Hf; try by apply elem_of_nil in Hf.
    all: case_decide; [|by apply elem_of_nil in Hf].
    all: apply list_elem_of_singleton in Hf; inversion Hf; subst.
    destruct c'; simpl in Hf'; try by apply elem_of_nil in Hf'.
    all: case_decide; [|by apply elem_of_nil in Hf'].
    all: apply list_elem_of_singleton in Hf'; inversion Hf'; subst.
    simpl in Hsame. apply bool_decide_eq_true in Hsame as ->.
    rewrite <-list_fmap_compose. apply list_fmap_ext. intros i x _. simpl.
    apply set_props_absorb.
Qed.

(** In a query every [SET] comes after the [MERGE] of what it sets. *)
Definition is_set (c : clause) : bool :=
  match c with
  | SET_node _ _ | SET_rel _ _ _ _ => true
  | _ => false
  end.

Definition guards (c_m c : clause) : bool :=
  match c_m, c with
  | MERGE_node p, SET_node p' _ => bool_decide (p = p')
  | MERGE_rel t a b, SET_rel t' a' b' _ => bool_decide (t = t' ∧ a = a' ∧ b = b')
  | _, _ => false
  end.

Fixpoint guarded_from (seen cs : list clause) : bool :=
  match cs with
  | [] => true
  | c :: cs' =>
      (if is_set c then existsb (λ c_m, guards c_m c) seen else true)
      && guarded_from (c :: seen) cs'
  end.

Definition guarded (cs : list clause) : bool := guarded_from [] cs.

Section Scan.
Context {V : Type} (op : clause → row → list (@cop V)).
Hypothesis op_set : ∀ c r x, is_set c = false → x ∈ op c r → ∃ m, x = CMerge m.
Hypothesis op_guard : ∀ c_m c r, guards c_m c = true → op c r ≠ [] → op c_m r ≠ [].

Lemma flat_map_nil {A B} (f : A → list B) (l : list A) x :
  flat_map f l = [] → x ∈ l → f x = [].
Proof.
  induction l as [|a l IH]; simpl; [by intros _ ?%elem_of_nil|].
  intros [Ha Hl]%app_eq_nil [->|Hin]%elem_of_cons; [done|by apply IH].
Qed.

Lemma clause_trace_ops cs s :
  trace_ops op (clause_trace cs s) = flat_map (λ c, flat_map (op c) s) cs.
Proof.
  unfold trace_ops, clause_trace. induction cs as [|c cs IH]; [done|].
  simpl. rewrite flat_map_app, IH. f_equal. clear IH.
  induction s as [|r s IHs]; [done|]. simpl. by rewrite IHs.
Qed.

Lemma scan_starts_ok seen cs s :
  guarded_from seen cs = true →
  (∀ c_m r, c_m ∈ seen → r ∈ s → op c_m r = []) →
  starts_ok (flat_map (λ c, flat_map (op c) s) cs).
Proof.
  revert seen. induction cs as [|c cs IH]; intros seen Hg Hseen; [done|].
  simpl in Hg. apply andb_true_iff in Hg as [Hc Hg]. simpl.
  destruct (flat_map (op c) s) as [|x l] eqn:E.
  - simpl. apply (IH (c :: seen)); [done|].
    intros c_m r [->|Hin]%elem_of_cons Hr; [|by apply Hseen].
    by apply (flat_map_nil _ _ _ E).
  - assert (x ∈ flat_map (op c) s) as Hx by (rewrite E; left).
    apply list_elem_of_In, in_flat_map in Hx as (r & Hr & Hx).
    apply list_elem_of_In in Hr, Hx.
    destruct (is_set c) eqn:Eset.
    + apply existsb_exists in Hc as (c_m & Hcm & Hguard).
      apply list_elem_of_In in Hcm.
      destruct (op_guard c_m c r Hguard).
      * intros Hnil. rewrite Hnil in Hx. by apply elem_of_nil in Hx.
      * by apply Hseen.
    + destruct (op_set c r x Eset Hx) as [m ->]. done.
Qed.

Lemma batches_starts_ok cs (ss : list (list row)) :
  guarded cs = true →
  starts_ok (trace_ops op (flat_map (clause_trace cs) ss)).
Proof.
  intros Hg. induction ss as [|s ss IH]; [done|].
  simpl. unfold trace_ops in *. rewrite flat_map_app. apply starts_ok_app; [|done].
  fold (trace_ops op (clause_trace cs s)). rewrite clause_trace_ops.
  apply (scan_starts_ok []); [done|]. by intros c_m r ?%elem_of_nil.
Qed.
End Scan.

Lemma node_op_set n c r x : is_set c = false → x ∈ node_op n c r → ∃ m, x = CMerge m.
Proof.
  destruct c; simpl; try done; try by intros _ ?%elem_of_nil.
  intros _. case_decide; [|by intros ?%elem_of_nil].
  intros ->%list_elem_of_singleton. by eexists.
Qed.

Lemma node_op_guard n c_m c r :
  guards c_m c = true → node_op n c r ≠ [] → node_op n c_m r ≠ [].
Proof.
  destruct c_m, c; simpl; try done.
  intros <-%bool_decide_eq_true. by case_decide.
Qed.

Lemma rel_op_set k c r x : is_set c = false → x ∈ rel_op k c r → ∃ m, x = CMerge m.
Proof.
  destruct c; simpl; try done; try by intros _ ?%elem_of_nil.
  intros _. case_decide; [|by intros ?%elem_of_nil].
  intros ->%list_elem_of_singleton. by eexists.
Qed.

Lemma rel_op_guard k c_m c r :
  guards c_m c = true → rel_op k c r ≠ [] → rel_op k c_m r ≠ [].
Proof.
  destruct c_m, c; simpl; try done.
  intros (<- & <- & <-)%bool_decide_eq_true. by case_decide.
Qed.

(** ** The selection of rows does not move

    A [MATCH] pattern either finds its node for every row from the start of
    the sub-step on, or looks for a node with a label in [closed], labels
    under which no node is created any more. *)
Definition matched (q : query) (g : graph) (r : row) : bool :=
  forallb (λ p, matches g p r) (q_match q).

Definition extends_for (closed : list node_label) (g X : graph) : Prop :=
  (∀ n, is_Some (nodes g !! n) → is_Some (nodes X !! n))
  ∧ (∀ n, n.1 ∈ closed → nodes X !! n = nodes g !! n).

Definition sel_ok (closed : list node_label) (q : query) (rows : list row)
    (g : graph) : Prop :=
  ∀ p, p ∈ q_match q →
    (∀ r, r ∈ rows → matches g p r = true) ∨ p_label p ∈ closed.

Definition untouched (closed : list node_label) (cs : list clause) : bool :=
  forallb (λ L, forallb (λ c, negb (touches_label L c)) cs) closed.

Lemma untouched_spec closed cs L c :
  untouched closed cs = true → L ∈ closed → c ∈ cs → touches_label L c = false.
Proof.
  intros H HL Hc. unfold untouched in H.
  pose proof (forallb_elem_of _ _ L H HL) as H1. cbv beta in H1.
  apply negb_true_iff. by apply (forallb_elem_of _ _ c H1).
Qed.

Lemma extends_for_refl closed g : extends_for closed g g.
Proof. by split. Qed.

Lemma extends_for_exec closed g X c r :
  (∀ L, L ∈ closed → touches_label L c = false) →
  extends_for closed g X → extends_for closed g (exec_clause c r X).
Proof.
  intros Hc [Hmono Hsame]. split.
  - intros n Hn. rewrite exec_clause_nodes. apply node_cell_is_Some. by apply Hmono.
  - intros n Hn. rewrite exec_clause_nodes, node_cell_untouched by (by apply Hc).
    by apply Hsame.
Qed.

Lemma matched_same closed q rows g X r :
  sel_ok closed q rows g → extends_for closed g X → r ∈ rows →
  matched q X r = matched q g r.
Proof.
  intros Hsel [Hmono Hsame] Hr. unfold matched.
  assert (∀ ps, (∀ p, p ∈ ps → p ∈ q_match q) →
            forallb (λ p, matches X p r) ps = forallb (λ p, matches g p r) ps) as H;
    [|by apply H].
  induction ps as [|p ps IH]; intros Hps; [done|]. simpl.
  rewrite IH by (intros p' Hp'; apply Hps; by right). f_equal.
  destruct (Hsel p) as [Hall|Hclosed]; [apply Hps; left| |].
  - rewrite (Hall r Hr). unfold matches in *.
    specialize (Hall r Hr). apply andb_true_iff in Hall as [-> Hnode]. simpl.
    unfold has_node in *. apply bool_decide_eq_true. apply Hmono.
    by apply bool_decide_eq_true in Hnode.
  - unfold matches, has_node. by rewrite Hsame.
Qed.

Lemma filter_bool_ext {A} (f f' : A → bool) (l : list A) :
  (∀ x, x ∈ l → f x = f' x) →
  filter (λ x, f x = true) l = filter (λ x, f' x = true) l.
Proof.
  induction l as [|a l IH]; intros H; [done|].
  rewrite !filter_cons, (H a) by left. rewrite IH; [done|].
  intros x Hx. apply H. by right.
Qed.

Lemma selected_same closed q rows g X b :
  sel_ok closed q rows g → extends_for closed g X → b ⊆ rows →
  selected q X b = selected q g b.
Proof.
  intros Hsel Hext Hb. unfold selected.
  apply (filter_bool_ext (matched q X) (matched q g)). intros r Hr.
  apply (matched_same closed q rows); [done..|by apply Hb].
Qed.

(** ** A sub-step as one trace *)

Definition step_trace (q : query) (B : nat) (rows : list row) (g : graph)
    (l : list nat) : list (clause * row) :=
  flat_map (clause_trace (q_update q))
           (map (λ i, selected q g (batch_of B rows i)) l).

Lemma batch_of_subseteq B (rows : list row) i : batch_of B rows i ⊆ rows.
Proof.
  unfold batch_of. etrans; [apply subseteq_take|apply subseteq_drop].
Qed.

Lemma elem_of_step_trace q B rows g l c r :
  (c, r) ∈ step_trace q B rows g l → c ∈ q_update q ∧ r ∈ rows.
Proof.
  unfold step_trace. rewrite list_elem_of_In, in_flat_map.
  intros (s & Hs & Hin). apply in_map_iff in Hs as (i & <- & _).
  apply list_elem_of_In, elem_of_clause_trace in Hin as [Hc Hr]. split; [done|].
  apply list_elem_of_filter in Hr as [_ Hr]. by apply (batch_of_subseteq B rows i).
Qed.

Lemma commit_batches_trace closed q B rows g l X :
  sel_ok closed q rows g → untouched closed (q_update q) = true →
  extends_for closed g X →
  commit_batches q B rows l X = exec_trace (step_trace q B rows g l) X.
Proof.
  intros Hsel Hunt. revert X. induction l as [|i l IH]; intros X Hext; [done|].
  unfold commit_batches, step_trace in *. simpl.
  rewrite exec_trace_app, run_query_trace.
  rewrite (selected_same closed q rows g X) by (done || apply batch_of_subseteq).
  apply IH. apply exec_trace_ind; [done|].
  intros c r Y [Hc _]%elem_of_clause_trace HY. apply extends_for_exec; [|done].
  intros L HL. by apply (untouched_spec closed (q_update q)).
Qed.

Definition touches_some_label (cs : list clause) (L : node_label) : Prop :=
  ∃ c, c ∈ cs ∧ touches_label L c = true.

Definition touches_some_type (cs : list clause) (t : rel_type) : Prop :=
  ∃ c, c ∈ cs ∧ touches_type t c = true.

Lemma node_op_touches n c r : node_op n c r ≠ [] → touches_label n.1 c = true.
Proof.
  destruct c; simpl; try done.
  all: case_decide; [|done]; subst n; intros _; by apply bool_decide_eq_true.
Qed.

Lemma rel_op_touches k c r : rel_op k c r ≠ [] → touches_type k.1.1 c = true.
Proof.
  destruct c; simpl; try done.
  all: case_decide; [|done]; subst k; intros _; by apply bool_decide_eq_true.
Qed.

Lemma trace_ops_nonempty {V} (op : clause → row → list (@cop V)) T :
  trace_ops op T ≠ [] → ∃ c r, (c, r) ∈ T ∧ op c r ≠ [].
Proof.
  intros H. destruct (trace_ops op T) as [|x ops] eqn:E; [done|].
  assert (x ∈ trace_ops op T) as Hx by (rewrite E; left).
  apply elem_of_trace_ops in Hx as (c & r & Hin & Hx).
  exists c, r. split; [done|]. intros Hnil. rewrite Hnil in Hx. by apply elem_of_nil in Hx.
Qed.

(** The fixed point of a sub-step.  [g] is the store the sub-step started
    from in the first load and [G] a later store: it kept the nodes the
    sub-step wrote and the relationships of its type, and selects the same
    rows.  Running the sub-step on [G] leaves [G] as it is. *)
Theorem step_fixed closed q B rows g G :
  sel_ok closed q rows g →
  untouched closed (q_update q) = true →
  extends_for closed g G →
  guarded (q_update q) = true →
  uniform_sets (q_update q) = true →
  (∀ n ps, touches_some_label (q_update q) n.1 →
     nodes (run_step q B rows g) !! n = Some ps → nodes G !! n = Some ps) →
  (∀ k, touches_some_type (q_update q) k.1.1 →
     rels G !! k = rels (run_step q B rows g) !! k) →
  run_step q B rows G = G.
Proof.
  intros Hsel Hunt Hext Hguard Hunif Hnodes Hrels.
  unfold run_step in *.
  rewrite (commit_batches_trace closed q B rows g _ G) by done.
  rewrite (commit_batches_trace closed q B rows g _ g) in Hnodes, Hrels
    by (done || apply extends_for_refl).
  set (T := step_trace q B rows g _) in *.
  assert (∀ c r, (c, r) ∈ T → c ∈ q_update q) as HT.
  { intros c r Hin. by apply elem_of_step_trace in Hin as [Hc _]. }
  apply graph_eq.
  - intros n. rewrite exec_trace_nodes, node_at_ops.
    destruct (run_cell_fixed (λ _, True) (trace_ops (node_op n) T)) as [Hnil|Hfix].
    + by apply (node_ops_wf T n (q_update q)).
    + apply batches_starts_ok; [apply node_op_set|apply node_op_guard|done].
    + by rewrite Hnil.
    + destruct (Hfix (nodes g !! n)) as (v & Hv & Hvv).
      assert (nodes G !! n = Some v) as ->; [|done].
      apply Hnodes; [|by rewrite exec_trace_nodes, node_at_ops].
      destruct (trace_ops_nonempty (node_op n) T) as (c & r & Hin & Hop).
      { intros Hnil. rewrite Hnil in Hv. simpl in Hv.
        destruct (Hfix None) as (v' & Hv' & _). by rewrite Hnil in Hv'. }
      exists c. split; [by apply (HT c r)|by apply (node_op_touches n c r)].
  - intros k. rewrite exec_trace_rels, rel_at_ops.
    destruct (run_cell_fixed nonempty_rels (trace_ops (rel_op k) T)) as [Hnil|Hfix].
    + by apply (rel_ops_wf T k (q_update q)).
    + apply batches_starts_ok; [apply rel_op_set|apply rel_op_guard|done].
    + by rewrite Hnil.
    + destruct (Hfix (rels g !! k)) as (v & Hv & Hvv).
      assert (rels G !! k = Some v) as ->; [|done].
      rewrite Hrels; [by rewrite exec_trace_rels, rel_at_ops|].
      destruct (trace_ops_nonempty (rel_op k) T) as (c & r & Hin & Hop).
      { intros Hnil. destruct (Hfix None) as (v' & Hv' & _). by rewrite Hnil in Hv'. }
      exists c. split; [by apply (HT c r)|by apply (rel_op_touches k c r)].
Qed.

(** ** A sub-step inside a load *)

Lemma run_prog_app B steps1 steps2 g :
  run_prog B (steps1 ++ steps2) g = run_prog B steps2 (run_prog B steps1 g).
Proof. apply fold_left_app. Qed.

Lemma run_prog_cons B q rows steps g :
  run_prog B ((q, rows) :: steps) g = run_prog B steps (run_step q B rows g).
Proof. done. Qed.

(** A later clause that would change what an earlier clause wrote: a [SET]
    on a node label the earlier clause writes, or any clause on its
    relationship type. *)
Definition conflicts (c c' : clause) : bool :=
  match c with
  | MERGE_node p | SET_node p _ => sets_label (p_label p) c'
  | MERGE_rel t _ _ | SET_rel t _ _ _ => touches_type t c'
  end.

Definition no_later_conflict (cs later : list clause) : bool :=
  forallb (λ c, forallb (λ c', negb (conflicts c c')) later) cs.

Lemma no_later_conflict_spec cs later c c' :
  no_later_conflict cs later = true → c ∈ cs → c' ∈ later → conflicts c c' = false.
Proof.
  intros H Hc Hc'. unfold no_later_conflict in H.
  pose proof (forallb_elem_of _ _ c H Hc) as H1. cbv beta in H1.
  apply negb_true_iff. by apply (forallb_elem_of _ _ c' H1).
Qed.

Lemma forallb_intro {A} (f : A → bool) (l : list A) :
  (∀ x, x ∈ l → f x = true) → forallb f l = true.
Proof. intros H. apply forallb_forall. intros x Hx. apply H. by apply list_elem_of_In. Qed.

Theorem prog_step_fixed B pre q rows post g0 closed :
  sel_ok closed q rows (run_prog B pre g0) →
  untouched closed (q_update q ++ prog_clauses post) = true →
  guarded (q_update q) = true →
  uniform_sets (q_update q) = true →
  no_later_conflict (q_update q) (prog_clauses post) = true →
  run_step q B rows (run_prog B (pre ++ (q, rows) :: post) g0)
  = run_prog B (pre ++ (q, rows) :: post) g0.
Proof.
  intros Hsel Hunt Hguard Hunif Hlater.
  rewrite run_prog_app, run_prog_cons.
  set (g := run_prog B pre g0) in *.
  assert (prog_clauses ((q, rows) :: post) = q_update q ++ prog_clauses post) as Hcl
    by done.
  apply (step_fixed closed q B rows g); try done.
  - apply forallb_intro. intros L HL. apply forallb_intro. intros c Hc.
    apply negb_true_iff. apply (untouched_spec closed _ L c Hunt HL).
    apply elem_of_app. by left.
  - rewrite <-run_prog_cons. split.
    + intros n Hn. by apply run_prog_is_Some.
    + intros n Hn. apply run_prog_untouched. rewrite Hcl.
      apply forallb_intro. intros c Hc. apply negb_true_iff.
      by apply (untouched_spec closed _ n.1 c Hunt Hn).
  - intros n ps (c & Hc & Htouch) Hn. apply run_prog_kept; [|done].
    apply forallb_intro. intros c' Hc'. apply negb_true_iff.
    pose proof (no_later_conflict_spec _ _ c c' Hlater Hc Hc') as Hno.
    destruct c; simpl in *; try done.
    all: apply bool_decide_eq_true in Htouch; by rewrite <-Htouch.
  - intros k (c & Hc & Htouch). apply run_prog_rels_untouched.
    apply forallb_intro. intros c' Hc'. apply negb_true_iff.
    pose proof (no_later_conflict_spec _ _ c c' Hlater Hc Hc') as Hno.
    destruct c; simpl in *; try done.
    all: apply bool_decide_eq_true in Htouch; by rewrite <-Htouch.
Qed.

(** A load all of whose sub-steps leave the store as it is. *)
Lemma run_prog_fixed B steps G :
  Forall (λ s, run_step s.1 B s.2 G = G) steps → run_prog B steps G = G.
Proof.
  induction 1 as [|[q rows] steps Hs _ IH]; [done|].
  rewrite run_prog_cons. simpl in Hs. by rewrite Hs.
Qed.

(** ** What the node sub-steps create *)

Lemma concat_batches B (data : list row) n :
  concat (map (batch_of B data) (seq 1 n)) = take (n * B) data.
Proof.
  induction n as [|n IH]; [done|].
  rewrite seq_S, map_app, concat_app, IH. simpl. rewrite app_nil_r.
  unfold batch_of. replace (S n - 1) with n by lia.
  rewrite take_take_drop. f_equal. lia.
Qed.

Lemma elem_of_batches B (data : list row) r :
  0 < B → r ∈ data →
  ∃ i, i ∈ seq 1 ((length data + B - 1) / B) ∧ r ∈ batch_of B data i.
Proof.
  intros HB Hr.
  pose proof (concat_batches B data ((length data + B - 1) / B)) as Hcat.
  rewrite take_ge in Hcat by (by apply total_batches_cover).
  rewrite <-Hcat in Hr. apply list_elem_of_In, in_concat in Hr as (b & Hb & Hr).
  apply in_map_iff in Hb as (i & <- & Hi). exists i. by rewrite !list_elem_of_In.
Qed.

Lemma exec_trace_is_Some T g n :
  is_Some (nodes g !! n) → is_Some (nodes (exec_trace T g) !! n).
Proof.
  intros Hg. apply (exec_trace_ind (λ X, is_Some (nodes X !! n))); [done|].
  intros c r X _ HX. rewrite exec_clause_nodes. by apply node_cell_is_Some.
Qed.

Lemma exec_trace_merged T g p r :
  (MERGE_node p, r) ∈ T → is_Some (nodes (exec_trace T g) !! node_of p r).
Proof.
  intros (T1 & T2 & ->)%list_elem_of_split.
  rewrite exec_trace_app.
  change (exec_trace ((MERGE_node p, r) :: T2) (exec_trace T1 g))
    with (exec_trace T2 (exec_clause (MERGE_node p) r (exec_trace T1 g))).
  apply exec_trace_is_Some.
  rewrite exec_clause_nodes. simpl. by rewrite decide_True.
Qed.

Lemma commit_batches_is_Some q B data l g n :
  is_Some (nodes g !! n) → is_Some (nodes (commit_batches q B data l g) !! n).
Proof.
  intros Hg. apply (commit_batches_ind (λ X, is_Some (nodes X !! n))); [done|].
  intros c r X _ HX. rewrite exec_clause_nodes. by apply node_cell_is_Some.
Qed.

Lemma run_step_creates q B rows g p r :
  0 < B → q_match q = [] → MERGE_node p ∈ q_update q → r ∈ rows →
  is_Some (nodes (run_step q B rows g) !! node_of p r).
Proof.
  intros HB Hmatch Hp Hr. unfold run_step.
  destruct (elem_of_batches B rows r HB Hr) as (i & Hi & Hri).
  apply list_elem_of_split in Hi as (l1 & l2 & ->).
  rewrite commit_batches_app. unfold commit_batches at 1. simpl.
  fold (commit_batches q B rows l2). apply commit_batches_is_Some.
  rewrite run_query_trace. apply exec_trace_merged.
  apply elem_of_clause_trace. split; [done|].
  unfold selected. rewrite Hmatch. apply list_elem_of_filter. by split.
Qed.

Lemma run_prog_creates B pre q rows post g p r :
  0 < B → q_match q = [] → MERGE_node p ∈ q_update q → r ∈ rows →
  is_Some (nodes (run_prog B (pre ++ (q, rows) :: post) g) !! node_of p r).
Proof.
  intros HB Hmatch Hp Hr. rewrite run_prog_app, run_prog_cons.
  apply run_prog_is_Some. by apply run_step_creates.
Qed.

(** ** The normalized dataset refers to its own rows *)

(** The rows of the thirteen sub-steps. *)
Definition load_steps (d : dataset) (fields_with_json : list row)
    : list (query * list row) :=
  [(q_modules, modules d); (q_models, models d); (q_views, views d);
   (q_fields, fields_with_json);
   (q_module_dependencies, module_dependencies d);
   (q_model_module_rels, model_module_rels d);
   (q_model_inheritances, model_inheritances d);
   (q_model_delegations, model_delegations d);
   (q_field_model_rels, field_model_rels d);
   (q_field_references, field_references d);
   (q_view_module_rels, view_module_rels d);
   (q_view_model_rels, view_model_rels d);
   (q_view_inheritances, view_inheritances d)].

(** The value under [key] of a relationship row is the value under [name]
    of one of the node rows, and is not [None]. *)
Definition resolved (key : string) (r : row) (name : string) (node_rows : list row)
    : Prop :=
  row_get key r ≠ PNone
  ∧ ∃ r', r' ∈ node_rows ∧ row_get name r' = row_get key r.

Definition field_resolved (r : row) (field_rows : list row) : Prop :=
  row_get "model_name" r ≠ PNone ∧ row_get "field_name" r ≠ PNone
  ∧ ∃ f, f ∈ field_rows
       ∧ row_get "model_name" f = row_get "model_name" r
       ∧ row_get "field_name" f = row_get "field_name" r.

Record self_contained (d : dataset) : Prop := {
  sc_model_module : ∀ r, r ∈ model_module_rels d → resolved "model" r "name" (models d);
  sc_inheritances : ∀ r, r ∈ model_inheritances d → resolved "child" r "name" (models d);
  sc_delegations : ∀ r, r ∈ model_delegations d → resolved "child" r "name" (models d);
  sc_field_model : ∀ r, r ∈ field_model_rels d →
    resolved "model_name" r "name" (models d) ∧ field_resolved r (fields d);
  sc_field_refs : ∀ r, r ∈ field_references d → field_resolved r (fields d);
  sc_view_module : ∀ r, r ∈ view_module_rels d →
    resolved "view_xml_id" r "xml_id" (views d);
  sc_view_model : ∀ r, r ∈ view_model_rels d →
    resolved "view_xml_id" r "xml_id" (views d);
  sc_view_inh : ∀ r, r ∈ view_inheritances d → resolved "child" r "xml_id" (views d);
}.

Lemma resolved_mono key r name rows rows' :
  rows ⊆ rows' → resolved key r name rows → resolved key r name rows'.
Proof. intros Hsub (Hne & r' & Hin & Heq). split; [done|]. exists r'. split; [by apply Hsub|done]. Qed.

Lemma field_resolved_mono r rows rows' :
  rows ⊆ rows' → field_resolved r rows → field_resolved r rows'.
Proof.
  intros Hsub (H1 & H2 & f & Hin & Heq). repeat split; try done.
  exists f. split; [by apply Hsub|done].
Qed.

Lemma subseteq_app_l' {A} (l1 l2 : list A) : l1 ⊆ l1 ++ l2.
Proof. intros x Hx. apply elem_of_app. by left. Qed.

Lemma subseteq_app_r' {A} (l1 l2 : list A) : l2 ⊆ l1 ++ l2.
Proof. intros x Hx. apply elem_of_app. by right. Qed.

Lemma self_contained_empty : self_contained empty_data.
Proof. split; simpl; intros r Hr; by apply elem_of_nil in Hr. Qed.

Lemma self_contained_extend a b :
  self_contained a → self_contained b → self_contained (data_extend a b).
Proof.
  intros [A1 A2 A3 A4 A5 A6 A7 A8] [B1 B2 B3 B4 B5 B6 B7 B8].
  split; simpl; intros r [Hr|Hr]%elem_of_app.
  all: repeat match goal with
         | H : ∀ r, r ∈ _ → _ |- _ => try pose proof (H _ Hr); clear H
         end.
  all: repeat match goal with
         | H : _ ∧ field_resolved _ _ |- _ => destruct H
         | |- _ ∧ _ => split
         end.
  all: eauto using resolved_mono, field_resolved_mono, subseteq_app_l', subseteq_app_r'.
Qed.

Lemma self_contained_fold parts base :
  Forall self_contained parts → self_contained base →
  self_contained (fold_left data_extend parts base).
Proof.
  intros Hparts. revert base. induction Hparts as [|p parts Hp _ IH]; intros base Hb;
    [done|].
  simpl. apply IH. by apply self_contained_extend.
Qed.

Lemma py_truthy_not_None v : py_truthy v = true → v ≠ PNone.
Proof. by intros H ->. Qed.

Lemma organize_module_self_contained module p :
  organize_module module = Ok p → self_contained p.
Proof.
  unfold organize_module. destruct (py_iter _); simpl; [|done].
  intros [= <-]. split; simpl; intros r Hr; by apply elem_of_nil in Hr.
Qed.

Lemma organize_view_self_contained view : self_contained (organize_view view).
Proof.
  unfold organize_view.
  destruct (negb (py_truthy (OdooView.xml_id view))
            || negb (py_truthy (OdooView.model view))) eqn:E;
    [apply self_contained_empty|].
  apply orb_false_iff in E as [Hx%negb_false_iff Hm%negb_false_iff].
  apply py_truthy_not_None in Hx.
  split; simpl; try (intros r Hr; by apply elem_of_nil in Hr).
  - intros r ->%list_elem_of_singleton. split; [done|]. eexists. split; [left|done].
  - intros r ->%list_elem_of_singleton. split; [done|]. eexists. split; [left|done].
  - destruct (py_truthy (OdooView.inherit_id view));
      [|intros r Hr; by apply elem_of_nil in Hr].
    intros r ->%list_elem_of_singleton. split; [done|]. eexists. split; [left|done].
Qed.

(** The rows of the fields of one model, added to rows that hold the
    model. *)
Lemma organize_fields_self_contained model_name fs acc :
  model_name ≠ PNone →
  (∃ r', r' ∈ models acc ∧ row_get "name" r' = model_name) →
  self_contained acc →
  self_contained (fold_left data_extend (map (organize_field model_name) fs) acc).
Proof.
  intros Hname. revert acc. induction fs as [|f fs IH]; intros acc Hmodel Hacc; [done|].
  simpl. apply IH.
  - destruct Hmodel as (r' & Hin & Heq). exists r'. split; [|done].
    simpl. apply elem_of_app. by left.
  - destruct Hacc as [A1 A2 A3 A4 A5 A6 A7 A8].
    destruct Hmodel as (r' & Hin & Heq).
    unfold organize_field.
    destruct (negb (py_truthy (PStr (OdooField.name f)))) eqn:E.
    { apply self_contained_extend; [done|apply self_contained_empty]. }
    split; simpl; rewrite ?app_nil_r; try done.
    + intros r [Hr| ->%list_elem_of_singleton]%elem_of_app.
      * split; [|eapply field_resolved_mono; [apply subseteq_app_l'|]]; by apply A4.
      * split.
        -- split; [done|]. by exists r'.
        -- repeat split; try done. eexists. split; [apply elem_of_app; right; left|done].
    + intros r [Hr|Hr]%elem_of_app.
      * eapply field_resolved_mono; [apply subseteq_app_l'|]. by apply A5.
      * destruct (py_truthy (OdooField.related_model f)); [|by apply elem_of_nil in Hr].
        apply list_elem_of_singleton in Hr as ->.
        repeat split; try done. eexists. split; [apply elem_of_app; right; left|done].
Qed.

Lemma organize_model_self_contained model p :
  organize_model model = Ok p → self_contained p.
Proof.
  unfold organize_model.
  destruct (negb (py_truthy (OdooModel.name model))) eqn:E.
  { intros [= <-]. apply self_contained_empty. }
  apply negb_false_iff, py_truthy_not_None in E.
  destruct (derive_model_type _ _ _); simpl; [|done].
  destruct (py_iter _) as [parents|]; simpl; [|done].
  destruct (py_items _) as [delegations|]; simpl; [|done].
  intros [= <-]. apply organize_fields_self_contained; [done| |].
  - eexists. split; [left|done].
  - split; simpl; try (intros r Hr; by apply elem_of_nil in Hr).
    + intros r ->%list_elem_of_singleton. split; [done|]. eexists. split; [left|done].
    + intros r (parent & -> & _)%list_elem_of_fmap. split; [done|].
      eexists. split; [left|done].
    + intros r (pf & -> & _)%list_elem_of_fmap. split; [done|].
      eexists. split; [left|done].
Qed.

Lemma result_mapM_Forall {A B} (f : A → result B) (P : B → Prop) l l' :
  result_mapM f l = Ok l' → (∀ x y, f x = Ok y → P y) → Forall P l'.
Proof.
  revert l'. induction l as [|a l IH]; intros l' H HP; simpl in H.
  - injection H as <-. constructor.
  - destruct (f a) as [b|] eqn:Ea; simpl in H; [|done].
    destruct (result_mapM f l) as [bs|]; simpl in H; [|done].
    injection H as <-. constructor; [by apply (HP a)|by apply IH].
Qed.

Theorem organize_self_contained modules all_models all_views d :
  organize_data_for_loading modules all_models all_views = Ok d → self_contained d.
Proof.
  unfold organize_data_for_loading.
  destruct (result_mapM organize_module modules) as [by_module|] eqn:E1; simpl; [|done].
  destruct (result_mapM organize_model all_models) as [by_model|] eqn:E2; simpl; [|done].
  intros [= <-]. apply self_contained_fold; [|apply self_contained_empty].
  rewrite !Forall_app. repeat split.
  - apply (result_mapM_Forall _ _ _ _ E1). apply organize_module_self_contained.
  - apply (result_mapM_Forall _ _ _ _ E2). apply organize_model_self_contained.
  - apply Forall_forall. intros p (v & -> & _)%list_elem_of_fmap.
    apply organize_view_self_contained.
Qed.

(** ** A load in which every batch commits *)

Definition never (_ : nat) : bool := false.

Lemma batch_execute_commits q data self :
  0 < batch_size self →
  ∃ self' summary,
    _batch_execute never q data self = Ok (self', summary)
    ∧ store self' = run_step q (batch_size self) data (store self)
    ∧ batch_size self' = batch_size self.
Proof.
  intros HB. destruct data as [|r0 data'] eqn:Edata.
  - eexists _, _. split; [reflexivity|]. split; [|done].
    unfold run_step. simpl. rewrite ?Nat.add_0_l, Nat.div_small by lia. done.
  - rewrite <-Edata. rewrite batch_execute_loop by (done || by subst).
    cbv zeta. rewrite batch_fold_commit by done.
    eexists _, _. split; [reflexivity|]. done.
Qed.

Lemma rel_step_commits q data self :
  0 < batch_size self →
  ∃ self',
    rel_step never q data self = Ok self'
    ∧ store self' = run_step q (batch_size self) data (store self)
    ∧ batch_size self' = batch_size self.
Proof.
  intros HB. unfold rel_step. destruct data as [|r0 data'] eqn:Edata.
  - exists self. split; [done|]. split; [|done].
    unfold run_step. simpl. rewrite ?Nat.add_0_l, Nat.div_small by lia. done.
  - rewrite <-Edata.
    destruct (batch_execute_commits q data self HB) as (self' & s & E & Hst & HB').
    rewrite E. simpl. by exists self'.
Qed.

Ltac commit_node_step HB :=
  match goal with
  | |- context [_batch_execute ?f ?q ?data ?self] =>
      change f with never;
      let self' := fresh "self" in
      let s := fresh "s" in
      let E := fresh "E" in
      let Hst := fresh "Hst" in
      let HB' := fresh "HB" in
      destruct (batch_execute_commits q data self) as (self' & s & E & Hst & HB');
      [first [done | congruence | lia]|];
      rewrite E; cbn [result_bind fst snd]
  end.

Ltac commit_rel_step :=
  match goal with
  | |- context [rel_step ?f ?q ?data ?self] =>
      change f with never;
      let self' := fresh "self" in
      let E := fresh "E" in
      let Hst := fresh "Hst" in
      let HB' := fresh "HB" in
      destruct (rel_step_commits q data self) as (self' & E & Hst & HB');
      [first [done | congruence | lia]|];
      rewrite E; cbn [result_bind fst snd]
  end.

Lemma load_commits d self fields_with_json :
  0 < batch_size self →
  result_mapM field_with_json (fields d) = Ok fields_with_json →
  ∃ self',
    load_organized_data (λ _, never) d self = Ok self'
    ∧ store self'
      = run_prog (batch_size self) (load_steps d fields_with_json) (store self)
    ∧ batch_size self' = batch_size self.
Proof.
  intros HB Hjson. unfold load_organized_data.
  do 3 commit_node_step HB.
  rewrite Hjson. cbn [result_bind].
  commit_node_step HB.
  do 8 commit_rel_step.
  match goal with
  | |- context [rel_step ?f ?q ?data ?self] =>
      change f with never;
      destruct (rel_step_commits q data self) as (self' & Elast & Hstlast & HBlast);
        [congruence|]
  end.
  exists self'. split; [done|]. split; [|congruence].
  unfold load_steps, run_prog. cbn [fold_left fst snd].
  congruence.
Qed.

Lemma load_Ok_json d self self' :
  0 < batch_size self →
  load_organized_data (λ _, never) d self = Ok self' →
  ∃ fields_with_json, result_mapM field_with_json (fields d) = Ok fields_with_json.
Proof.
  intros HB. unfold load_organized_data.
  do 3 commit_node_step HB.
  destruct (result_mapM field_with_json (fields d)) as [fj|]; [by exists fj|done].
Qed.

Lemma row_get_set_ne k k' v r : k ≠ k' → row_get k (row_set k' v r) = row_get k r.
Proof.
  intros Hne. unfold row_get. f_equal.
  induction r as [|[k0 v0] r IH]; simpl.
  - destruct (String.eqb_spec k k'); done.
  - destruct (String.eqb_spec k' k0) as [->|Hne0]; simpl.
    + by destruct (String.eqb_spec k k0).
    + destruct (String.eqb_spec k k0); [done|apply IH].
Qed.

Lemma fields_with_json_keys fs fj f :
  result_mapM field_with_json fs = Ok fj → f ∈ fs →
  ∃ f', f' ∈ fj
      ∧ row_get "model_name" f' = row_get "model_name" f
      ∧ row_get "field_name" f' = row_get "field_name" f.
Proof.
  revert fj. induction fs as [|f0 fs IH]; intros fj H Hin; [by apply elem_of_nil in Hin|].
  simpl in H. destruct (field_with_json f0) as [f0'|] eqn:E0; simpl in H; [|done].
  destruct (result_mapM field_with_json fs) as [fj'|]; simpl in H; [|done].
  injection H as <-. apply elem_of_cons in Hin as [->|Hin].
  - exists f0'. split; [left|].
    unfold field_with_json in E0. destruct (json_dumps _); simpl in E0; [|done].
    injection E0 as <-. by rewrite !row_get_set_ne.
  - destruct (IH fj' eq_refl Hin) as (f' & Hf' & Heq). exists f'. split; [by right|done].
Qed.

(** A row whose node an earlier node sub-step created is matched. *)
Lemma matches_created B pre q rows post g0 p r p' r' :
  0 < B → q_match q = [] → MERGE_node p' ∈ q_update q → r' ∈ rows →
  node_of p r = node_of p' r' →
  forallb (λ v, negb (bool_decide (v = PNone))) (node_of p r).2 = true →
  matches (run_prog B (pre ++ (q, rows) :: post) g0) p r = true.
Proof.
  intros HB Hmatch Hp Hr' Heq Hnull. unfold matches. rewrite Hnull. simpl.
  unfold has_node. apply bool_decide_eq_true. rewrite Heq.
  by apply run_prog_creates.
Qed.

Lemma not_None_forallb (v : pyval) :
  v ≠ PNone → forallb (λ v, negb (bool_decide (v = PNone))) [v] = true.
Proof. intros H. simpl. by rewrite bool_decide_false. Qed.

(** ** Loading twice *)

Ltac no_match := intros ? Hp; by apply elem_of_nil in Hp.

Ltac label_closed := right; simpl; by repeat constructor.

(** The model, view or field a relationship row refers to was created by
    the node sub-step of the rows it is resolved in. *)
Lemma model_matched B d g0 post key r :
  0 < B → resolved key r "name" (models d) →
  matches (run_prog B ((q_modules, modules d) :: (q_models, models d) :: post) g0)
    (model_node key) r = true.
Proof.
  intros HB (Hne & r' & Hin & Heq).
  apply (matches_created B [(q_modules, modules d)] q_models (models d) post g0
           (model_node key) r (model_node "name") r'); try done.
  - left.
  - unfold node_of. simpl. by rewrite Heq.
  - by apply not_None_forallb.
Qed.

Lemma view_matched B d g0 post key r :
  0 < B → resolved key r "xml_id" (views d) →
  matches (run_prog B ((q_modules, modules d) :: (q_models, models d)
                       :: (q_views, views d) :: post) g0)
    (view_node key) r = true.
Proof.
  intros HB (Hne & r' & Hin & Heq).
  apply (matches_created B [(q_modules, modules d); (q_models, models d)]
           q_views (views d) post g0 (view_node key) r (view_node "xml_id") r');
    try done.
  - left.
  - unfold node_of. simpl. by rewrite Heq.
  - by apply not_None_forallb.
Qed.

Lemma field_matched B d fj g0 post r :
  0 < B → result_mapM field_with_json (fields d) = Ok fj →
  field_resolved r (fields d) →
  matches (run_prog B ((q_modules, modules d) :: (q_models, models d)
                       :: (q_views, views d) :: (q_fields, fj) :: post) g0)
    (field_node "model_name" "field_name") r = true.
Proof.
  intros HB Hfj (Hne1 & Hne2 & f & Hin & Heq1 & Heq2).
  destruct (fields_with_json_keys _ _ _ Hfj Hin) as (f' & Hin' & Hk1 & Hk2).
  apply (matches_created B
           [(q_modules, modules d); (q_models, models d); (q_views, views d)]
           q_fields fj post g0 (field_node "model_name" "field_name") r
           (field_node "model_name" "field_name") f'); try done.
  - left.
  - unfold node_of. simpl. by rewrite Hk1, Hk2, Heq1, Heq2.
  - simpl. by rewrite !bool_decide_false.
Qed.

(** C5.  Loading the same normalized dataset twice in succession, every
    batch committing, leaves the store after the second load equal to the
    store after the first: the same nodes with the same properties and the
    same relationships. *)
Theorem C5_reload_idempotent modules all_models all_views d self self1 :
  0 < batch_size self →
  organize_data_for_loading modules all_models all_views = Ok d →
  load_organized_data (λ _, never) d self = Ok self1 →
  ∃ self2,
    load_organized_data (λ _, never) d self1 = Ok self2
    ∧ store self2 = store self1.
Proof.
  intros HB Horg Hload.
  pose proof (organize_self_contained _ _ _ _ Horg) as [S1 S2 S3 S4 S5 S6 S7 S8].
  destruct (load_Ok_json d self self1 HB Hload) as [fj Hfj].
  destruct (load_commits d self fj HB Hfj) as (s1 & E1 & Hst1 & HB1).
  rewrite E1 in Hload. injection Hload as <-.
  destruct (load_commits d s1 fj) as (s2 & E2 & Hst2 & HB2); [lia|done|].
  exists s2. split; [done|]. rewrite Hst2, Hst1, HB1.
  set (B := batch_size self) in *. set (g0 := store self).
  apply run_prog_fixed. unfold load_steps.
  repeat apply Forall_cons_2; [..|apply Forall_nil_2]; cbn [fst snd].
  - apply (prog_step_fixed B [] _ _ _ g0 []); [no_match|reflexivity..].
  - apply (prog_step_fixed B [_] _ _ _ g0 []); [no_match|reflexivity..].
  - apply (prog_step_fixed B [_; _] _ _ _ g0 []); [no_match|reflexivity..].
  - apply (prog_step_fixed B [_; _; _] _ _ _ g0 []); [no_match|reflexivity..].
  - apply (prog_step_fixed B [_; _; _; _] _ _ _ g0 [NODE_MODULE]); [|reflexivity..].
    intros p [->|[->|[]%elem_of_nil]%elem_of_cons]%elem_of_cons; label_closed.
  - apply (prog_step_fixed B [_; _; _; _; _] _ _ _ g0 [NODE_MODULE]); [|reflexivity..].
    intros p [->|[->|[]%elem_of_nil]%elem_of_cons]%elem_of_cons; [|label_closed].
    left. intros r Hr. apply (model_matched B d); [done|by apply S1].
  - apply (prog_step_fixed B [_; _; _; _; _; _] _ _ _ g0 []); [|reflexivity..].
    intros p [->|[]%elem_of_nil]%elem_of_cons.
    left. intros r Hr. apply (model_matched B d); [done|by apply S2].
  - apply (prog_step_fixed B [_; _; _; _; _; _; _] _ _ _ g0 []); [|reflexivity..].
    intros p [->|[]%elem_of_nil]%elem_of_cons.
    left. intros r Hr. apply (model_matched B d); [done|by apply S3].
  - apply (prog_step_fixed B [_; _; _; _; _; _; _; _] _ _ _ g0 []); [|reflexivity..].
    intros p [->|[->|[]%elem_of_nil]%elem_of_cons]%elem_of_cons;
      left; intros r Hr; destruct (S4 r Hr) as [Hm Hf].
    + by apply (model_matched B d).
    + by apply (field_matched B d fj).
  - apply (prog_step_fixed B [_; _; _; _; _; _; _; _; _] _ _ _ g0 []);
      [|reflexivity..].
    intros p [->|[]%elem_of_nil]%elem_of_cons.
    left. intros r Hr. apply (field_matched B d fj); [done..|by apply S5].
  - apply (prog_step_fixed B [_; _; _; _; _; _; _; _; _; _] _ _ _ g0 [NODE_MODULE]);
      [|reflexivity..].
    intros p [->|[->|[]%elem_of_nil]%elem_of_cons]%elem_of_cons; [|label_closed].
    left. intros r Hr. apply (view_matched B d); [done|by apply S6].
  - apply (prog_step_fixed B [_; _; _; _; _; _; _; _; _; _; _] _ _ _ g0 [NODE_MODEL]);
      [|reflexivity..].
    intros p [->|[->|[]%elem_of_nil]%elem_of_cons]%elem_of_cons; [|label_closed].
    left. intros r Hr. apply (view_matched B d); [done|by apply S7].
  - apply (prog_step_fixed B [_; _; _; _; _; _; _; _; _; _; _; _] _ _ _ g0 []);
      [|reflexivity..].
    intros p [->|[]%elem_of_nil]%elem_of_cons.
    left. intros r Hr. apply (view_matched B d); [done|by apply S8].
Qed.

(** ** A relationship sub-step that only merges *)

Definition all_labels : list node_label :=
  [NODE_MODULE; NODE_MODEL; NODE_VIEW; NODE_FIELD].

Lemma elem_of_all_labels L : L ∈ all_labels.
Proof. destruct L; unfold all_labels; repeat first [by left|right]. Qed.

Lemma run_cell_merges (ops : list (@cop (list (gmap string pyval)))) o :
  (∀ op, op ∈ ops → op = CMerge merged_rels) →
  run_cell ops o = if decide (ops = []) then o else Some (merged_rels o).
Proof.
  intros Hops. destruct ops as [|op ops]; [done|].
  rewrite decide_False by done.
  rewrite (Hops op) by left. simpl.
  assert (∀ x l, run_cell ops (Some (x :: l)) = Some (x :: l)) as Hrest.
  { induction ops as [|op' ops IH]; intros x l; [done|].
    simpl. rewrite (Hops op') by (right; left). simpl.
    apply IH. intros op'' [->|Hin]%elem_of_cons; apply Hops; [left|right; by right]. }
  simpl. destruct o as [[|x l]|]; apply Hrest.
Qed.

Lemma elem_of_step_trace_iff q B rows g c r :
  0 < B →
  (c, r) ∈ step_trace q B rows g (seq 1 ((length rows + B - 1) / B))
  ↔ c ∈ q_update q ∧ r ∈ rows ∧ matched q g r = true.
Proof.
  intros HB. unfold step_trace. rewrite list_elem_of_In, in_flat_map. split.
  - intros (s & Hs & Hin). apply in_map_iff in Hs as (i & <- & _).
    apply list_elem_of_In, elem_of_clause_trace in Hin as [Hc Hr].
    apply list_elem_of_filter in Hr as [Hm Hr]. repeat split; try done.
    by apply (batch_of_subseteq B rows i).
  - intros (Hc & Hr & Hm).
    destruct (elem_of_batches B rows r HB Hr) as (i & Hi & Hri).
    exists (selected q g (batch_of B rows i)). split.
    + apply in_map_iff. exists i. by rewrite <-list_elem_of_In.
    + apply list_elem_of_In, elem_of_clause_trace. split; [done|].
      by apply list_elem_of_filter.
Qed.

(** A sub-step whose query is [MATCH ... MERGE (a)-[:t]->(b)]: no node is
    created or changed; under a key that a matched row denotes there is at
    least one relationship afterwards, and nothing else changes. *)
Lemma merge_rel_step q B rows g t a b :
  0 < B → q_update q = [MERGE_rel t a b] →
  nodes (run_step q B rows g) = nodes g
  ∧ ∀ k,
      ((∃ r, r ∈ rows ∧ matched q g r = true ∧ (t, node_of a r, node_of b r) = k) →
       rels (run_step q B rows g) !! k = Some (merged_rels (rels g !! k)))
      ∧ ((∀ r, r ∈ rows → matched q g r = true → (t, node_of a r, node_of b r) ≠ k) →
         rels (run_step q B rows g) !! k = rels g !! k).
Proof.
  intros HB Hq. split.
  - unfold run_step. apply (commit_batches_ind (λ X, nodes X = nodes g)); [done|].
    intros c r X Hc HX. rewrite Hq in Hc. apply list_elem_of_singleton in Hc as ->.
    simpl. by destruct (rels X !! _) as [[|]|].
  - intros k. unfold run_step.
    rewrite (commit_batches_trace all_labels q B rows g _ g).
    2: intros p _; right; apply elem_of_all_labels.
    2: rewrite Hq; reflexivity.
    2: apply extends_for_refl.
    rewrite exec_trace_rels, rel_at_ops.
    set (T := step_trace q B rows g _).
    rewrite run_cell_merges.
    2:{ intros op (c & r & Hin & Hop)%elem_of_trace_ops.
        apply elem_of_step_trace_iff in Hin as (Hc & _); [|done].
        rewrite Hq in Hc. apply list_elem_of_singleton in Hc as ->.
        simpl in Hop. case_decide; [|by apply elem_of_nil in Hop].
        by apply list_elem_of_singleton in Hop. }
    split.
    + intros (r & Hr & Hm & Hk). rewrite decide_False; [done|].
      intros Hnil.
      assert (CMerge merged_rels ∈ trace_ops (rel_op k) T) as Hin;
        [|rewrite Hnil in Hin; by apply elem_of_nil in Hin].
      apply elem_of_trace_ops. exists (MERGE_rel t a b), r. split.
      * apply elem_of_step_trace_iff; [done|]. rewrite Hq. repeat split; [left|done..].
      * simpl. rewrite decide_True by done. left.
    + intros Hno. rewrite decide_True; [done|].
      destruct (trace_ops (rel_op k) T) as [|x ops] eqn:E; [done|].
      assert (x ∈ trace_ops (rel_op k) T) as Hx by (rewrite E; left).
      apply elem_of_trace_ops in Hx as (c & r & Hin & Hop).
      apply elem_of_step_trace_iff in Hin as (Hc & Hr & Hm); [|done].
      rewrite Hq in Hc. apply list_elem_of_singleton in Hc as ->.
      simpl in Hop. case_decide; [|by apply elem_of_nil in Hop].
      by destruct (Hno r Hr Hm).
Qed.

Lemma length_merged_rels o : length (merged_rels o) = Nat.max 1 (length (default [] o)).
Proof. destruct o as [[|x l]|]; simpl; lia. Qed.

(** ** The VIEW_FOR sub-step *)

(** One view bound to an entity no sub-step has written. *)
Definition lone_view : OdooView.t :=
  {| OdooView.xml_id := PStr "sale.view_order_form";
     OdooView.name := PStr "sale.order.form";
     OdooView.model := PStr "sale.order";
     OdooView.view_type := PStr "form";
     OdooView.inherit_id := PNone;
     OdooView.module := PStr "sale";
     OdooView.file_path := PStr "/odoo/sale/views/order.xml";
     OdooView.priority := PInt 16;
     OdooView.arch := PStr "" |}.

Definition sale_module : OdooModule.t :=
  {| OdooModule.name := "sale";
     OdooModule.path := "/odoo/sale";
     OdooModule.version := PStr "1.0";
     OdooModule.depends := PList [PStr "base"];
     OdooModule.description := PStr "";
     OdooModule.author := PStr "";
     OdooModule.category := PStr "Sales";
     OdooModule.installable := PBool true;
     OdooModule.auto_install := PBool false |}.

Definition store_of (r : result Neo4jLoader) : graph :=
  match r with
  | Ok self => store self
  | Raise _ => empty_graph
  end.

(** C2 (counterexample).  A view bound to an entity that has no Entity node:
    after the load there is no such node and no VIEW_FOR edge. *)
Lemma C2_no_placeholder_for_view :
  let loaded :=
    d <=- organize_data_for_loading [sale_module] [] [lone_view] ;;
    load_organized_data (λ _, never) d (fresh_loader 1000) in
  (self <=- loaded ;; Ok (Metrics.errors (metrics self))) = Ok 0
  ∧ has_node (store_of loaded) (NODE_VIEW, [PStr "sale.view_order_form"]) = true
  ∧ has_node (store_of loaded) (NODE_MODEL, [PStr "sale.order"]) = false
  ∧ count_rels (store_of loaded) REL_VIEW_FOR_MODEL
      (NODE_VIEW, [PStr "sale.view_order_form"]) (NODE_MODEL, [PStr "sale.order"]) = 0.
Proof. vm_compute. repeat split. Qed.

(** C2 (amended).  For every view in the loaded dataset, the loader's
    VIEW_FOR sub-step creates no node.  When the bound entity name has no
    Entity node in the graph, no VIEW_FOR edge is created for the view; when
    the view and the entity both have their node, there is afterwards at
    least one VIEW_FOR edge from the view to the entity, and exactly one if
    there was none or one before. *)
Theorem C2_view_for_substep rows self r :
  0 < batch_size self → r ∈ rows →
  let view := node_of (view_node "view_xml_id") r in
  let entity := node_of (model_node "model") r in
  ∃ self',
    rel_step never q_view_model_rels rows self = Ok self'
    ∧ nodes (store self') = nodes (store self)
    ∧ (has_node (store self) entity = false →
       count_rels (store self') REL_VIEW_FOR_MODEL view entity
       = count_rels (store self) REL_VIEW_FOR_MODEL view entity)
    ∧ (matched q_view_model_rels (store self) r = true →
       count_rels (store self') REL_VIEW_FOR_MODEL view entity
       = Nat.max 1 (count_rels (store self) REL_VIEW_FOR_MODEL view entity)).
Proof.
  intros HB Hr view entity.
  destruct (rel_step_commits q_view_model_rels rows self HB) as (self' & E & Hst & _).
  exists self'. split; [done|].
  destruct (merge_rel_step q_view_model_rels (batch_size self) rows (store self)
              REL_VIEW_FOR_MODEL (view_node "view_xml_id") (model_node "model") HB eq_refl)
    as [Hnodes Hrels].
  rewrite Hst. split; [done|]. unfold count_rels.
  destruct (Hrels (REL_VIEW_FOR_MODEL, view, entity)) as [Hhit Hmiss]. split.
  - intros Habsent. rewrite Hmiss; [done|].
    intros r' Hr' Hm [= _ Hent]. unfold matched in Hm. simpl in Hm.
    apply andb_true_iff in Hm as [_ Hm]. apply andb_true_iff in Hm as [Hm _].
    unfold matches in Hm. apply andb_true_iff in Hm as [_ Hm].
    subst entity. unfold node_of in *. simpl in *. rewrite Hent in Hm. congruence.
  - intros Hm. rewrite Hhit; [|by exists r]. simpl. apply length_merged_rels.
Qed.

(** ** A small corpus *)

Definition partner_field : OdooField.t :=
  {| OdooField.name := "partner_id";
     OdooField.field_type := "Many2one";
     OdooField.related_model := PStr "res.partner";
     OdooField.attributes :=
       PDict [(PStr "string", PStr "Customer"); (PStr "required", PBool true)] |}.

Definition sale_order : OdooModel.t :=
  {| OdooModel.name := PStr "sale.order";
     OdooModel.inherits := PList [PStr "mail.thread"];
     OdooModel.inherits_models := PDict [(PStr "res.partner", PStr "partner_id")];
     OdooModel.description := PStr "Sales Order";
     OdooModel.fields := [partner_field];
     OdooModel.module := "sale";
     OdooModel.file_path := "/odoo/sale/models/sale_order.py";
     OdooModel.class_name := "SaleOrder";
     OdooModel.is_abstract := false;
     OdooModel.is_extension := false;
     OdooModel.is_transient := PBool false |}.

Definition inherited_view : OdooView.t :=
  {| OdooView.xml_id := PStr "sale.view_order_form_inherit";
     OdooView.name := PStr "sale.order.form.inherit";
     OdooView.model := PStr "sale.order";
     OdooView.view_type := PStr "form";
     OdooView.inherit_id := PStr "sale.view_order_form";
     OdooView.module := PStr "sale";
     OdooView.file_path := PStr "/odoo/sale/views/order.xml";
     OdooView.priority := PInt 20;
     OdooView.arch := PStr "" |}.

Definition sale_data : dataset :=
  match organize_data_for_loading [sale_module] [sale_order] [lone_view; inherited_view] with
  | Ok d => d
  | Raise _ => empty_data
  end.

Definition sale_loaded : Neo4jLoader :=
  match load_organized_data (λ _, never) sale_data (fresh_loader 2) with
  | Ok self => self
  | Raise _ => fresh_loader 2
  end.


Definition is_Ok {A} (r : result A) : bool :=
  match r with
  | Ok _ => true
  | Raise _ => false
  end.

Lemma is_Ok_eq {A} (r : result A) (d : A) :
  is_Ok r = true → r = Ok (match r with Ok x => x | Raise _ => d end).
Proof. by destruct r. Qed.

Lemma C2_view_for_substep_witness :
  let r := [("view_xml_id", PStr "sale.view_order_form"); ("model", PStr "sale.order")] in
  let view := node_of (view_node "view_xml_id") r in
  let entity := node_of (model_node "model") r in
  matched q_view_model_rels (store sale_loaded) r = true
  ∧ ∃ self',
    rel_step never q_view_model_rels (view_model_rels sale_data) sale_loaded = Ok self'
    ∧ nodes (store self') = nodes (store sale_loaded)
    ∧ (has_node (store sale_loaded) entity = false →
       count_rels (store self') REL_VIEW_FOR_MODEL view entity
       = count_rels (store sale_loaded) REL_VIEW_FOR_MODEL view entity)
    ∧ (matched q_view_model_rels (store sale_loaded) r = true →
       count_rels (store self') REL_VIEW_FOR_MODEL view entity
       = Nat.max 1 (count_rels (store sale_loaded) REL_VIEW_FOR_MODEL view entity)).
Proof.
  split; [vm_compute; reflexivity|].
  apply (C2_view_for_substep (view_model_rels sale_data) sale_loaded
           [("view_xml_id", PStr "sale.view_order_form"); ("model", PStr "sale.order")]).
  - assert (batch_size sale_loaded = 2) as -> by (vm_compute; reflexivity). lia.
  - vm_compute. left.
Defined.

Lemma C5_reload_idempotent_witness :
  ∃ self2,
    load_organized_data (λ _, never) sale_data sale_loaded = Ok self2
    ∧ store self2 = store sale_loaded.
Proof.
  apply (C5_reload_idempotent [sale_module] [sale_order] [lone_view; inherited_view]
           sale_data (fresh_loader 2) sale_loaded).
  - simpl. lia.
  - vm_compute. reflexivity.
  - apply is_Ok_eq. vm_compute. reflexivity.
Defined.

(** ** The DEPENDS_ON edges of a load *)

(** A node that a node sub-step leaves behind was there before or is named
    by one of the rows. *)
Lemma run_step_node_origin q B rows g n :
  q_match q = [] →
  is_Some (nodes (run_step q B rows g) !! n) →
  is_Some (nodes g !! n)
  ∨ ∃ p r, MERGE_node p ∈ q_update q ∧ r ∈ rows ∧ node_of p r = n.
Proof.
  intros Hmatch. unfold run_step.
  rewrite (commit_batches_trace [] q B rows g _ g).
  2: intros p Hp; rewrite Hmatch in Hp; by apply elem_of_nil in Hp.
  2: reflexivity.
  2: apply extends_for_refl.
  apply (exec_trace_ind
    (λ X, is_Some (nodes X !! n) →
          is_Some (nodes g !! n)
          ∨ ∃ p r, MERGE_node p ∈ q_update q ∧ r ∈ rows ∧ node_of p r = n)); [by left|].
  intros c r X [Hc Hr]%elem_of_step_trace HX. rewrite exec_clause_nodes.
  destruct c as [p|p assign|t a b|t a b assign]; simpl; try done.
  - case_decide; [|done]. intros _. right. by exists p, r.
  - case_decide; [|done]. intros Hset. apply HX. by apply fmap_is_Some in Hset.
Qed.

Section Projections.
Variable f : dataset → list row.
Hypothesis f_extend : ∀ a b, f (data_extend a b) = f a ++ f b.

Lemma fold_data_extend_proj parts base :
  f (fold_left data_extend parts base) = f base ++ concat (map f parts).
Proof.
  revert base. induction parts as [|p parts IH]; intros base; simpl.
  - by rewrite app_nil_r.
  - by rewrite IH, f_extend, <-app_assoc.
Qed.
End Projections.

Lemma concat_map_nil {A B} (f : A → list B) (l : list A) :
  (∀ x, x ∈ l → f x = []) → concat (map f l) = [].
Proof.
  induction l as [|a l IH]; intros H; [done|].
  simpl. rewrite (H a) by left. apply IH. intros x Hx. apply H. by right.
Qed.

Lemma result_mapM_Forall2 {A B} (f : A → result B) l l' :
  result_mapM f l = Ok l' → Forall2 (λ x y, f x = Ok y) l l'.
Proof.
  revert l'. induction l as [|a l IH]; intros l' H; simpl in H.
  - injection H as <-. constructor.
  - destruct (f a) as [b|] eqn:Ea; simpl in H; [|done].
    destruct (result_mapM f l) as [bs|]; simpl in H; [|done].
    injection H as <-. constructor; [done|by apply IH].
Qed.

Lemma organize_field_no_modules model_name field :
  modules (organize_field model_name field) = []
  ∧ module_dependencies (organize_field model_name field) = [].
Proof. unfold organize_field. by destruct (negb _). Qed.

Lemma organize_model_no_modules model p :
  organize_model model = Ok p → modules p = [] ∧ module_dependencies p = [].
Proof.
  unfold organize_model. destruct (negb _); [by intros [= <-]|].
  destruct (derive_model_type _ _ _); simpl; [|done].
  destruct (py_iter _) as [parents|]; simpl; [|done].
  destruct (py_items _) as [delegations|]; simpl; [|done].
  intros [= <-].
  rewrite (fold_data_extend_proj modules), (fold_data_extend_proj module_dependencies)
    by done.
  simpl. split; apply concat_map_nil.
  all: intros x (fld & -> & _)%list_elem_of_fmap; apply organize_field_no_modules.
Qed.

Lemma organize_view_no_modules view :
  modules (organize_view view) = [] ∧ module_dependencies (organize_view view) = [].
Proof. unfold organize_view. by destruct (_ || _). Qed.

(** The module rows of the normalized dataset are the modules, in order, and
    every declared dependency has its row. *)
Lemma organize_module_rows modules0 all_models all_views d :
  organize_data_for_loading modules0 all_models all_views = Ok d →
  modules d = map module_to_dict modules0
  ∧ ∀ m deps dep,
      m ∈ modules0 → py_iter (OdooModule.depends m) = Ok deps → dep ∈ deps →
      [("from", PStr (OdooModule.name m)); ("to", dep)] ∈ module_dependencies d.
Proof.
  unfold organize_data_for_loading.
  destruct (result_mapM organize_module modules0) as [by_module|] eqn:E1; simpl; [|done].
  destruct (result_mapM organize_model all_models) as [by_model|] eqn:E2; simpl; [|done].
  intros [= <-].
  rewrite (fold_data_extend_proj modules), (fold_data_extend_proj module_dependencies)
    by done.
  simpl. rewrite !map_app, !concat_app.
  apply result_mapM_Forall2 in E1.
  assert (concat (map modules by_model) = []
          ∧ concat (map module_dependencies by_model) = []) as [-> ->].
  { split; apply concat_map_nil; intros p Hp.
    all: apply (result_mapM_Forall _ (λ p, modules p = [] ∧ module_dependencies p = []))
           in E2; [|apply organize_model_no_modules].
    all: rewrite Forall_forall in E2; by apply E2. }
  assert (concat (map modules (map organize_view all_views)) = []
          ∧ concat (map module_dependencies (map organize_view all_views)) = [])
    as [-> ->].
  { split; apply concat_map_nil.
    all: intros p (v & -> & _)%list_elem_of_fmap; apply organize_view_no_modules. }
  rewrite !app_nil_r. split.
  - induction E1 as [|m p ms ps Hm _ IH]; [done|].
    simpl. rewrite IH. unfold organize_module in Hm.
    destruct (py_iter _); simpl in Hm; [|done]. by injection Hm as <-.
  - intros m deps dep Hm Hdeps Hdep.
    induction E1 as [|m' p ms ps Hm' _ IH]; [by apply elem_of_nil in Hm|].
    simpl. apply elem_of_app. apply elem_of_cons in Hm as [->|Hm]; [left|right; by apply IH].
    unfold organize_module in Hm'. rewrite Hdeps in Hm'. simpl in Hm'.
    injection Hm' as <-. simpl.
    apply list_elem_of_fmap. by exists dep.
Qed.

Lemma has_node_ext g g' n : nodes g !! n = nodes g' !! n → has_node g n = has_node g' n.
Proof. unfold has_node. by intros ->. Qed.

Lemma has_node_true g n : has_node g n = true ↔ is_Some (nodes g !! n).
Proof. apply bool_decide_eq_true. Qed.

(** The Module nodes after the first sub-step: those of the graph before and
    those the module rows name. *)
Lemma module_nodes_after B modules0 g dep :
  0 < B →
  has_node (run_step q_modules B (map module_to_dict modules0) g) (NODE_MODULE, [dep])
  = has_node g (NODE_MODULE, [dep])
    || existsb (λ m, bool_decide (PStr (OdooModule.name m) = dep)) modules0.
Proof.
  intros HB.
  destruct (has_node g _ || existsb _ modules0) eqn:Hk.
  - apply has_node_true. apply orb_true_iff in Hk as [Hk|Hk].
    + apply commit_batches_is_Some. by apply has_node_true.
    + apply existsb_exists in Hk as (m & Hm & Hname).
      apply bool_decide_eq_true in Hname as <-.
      apply (run_step_creates q_modules B _ g (module_node "name") (module_to_dict m));
        [done|done|left|].
      apply list_elem_of_fmap. exists m. split; [done|]. by apply list_elem_of_In.
  - apply orb_false_iff in Hk as [Hg Hm].
    apply not_true_is_false. intros H%has_node_true.
    apply (run_step_node_origin q_modules _ _ _ _ eq_refl) in H
      as [H|(p & r & Hp & Hr & Hn)].
    + apply has_node_true in H. congruence.
    + apply list_elem_of_fmap in Hr as (m & -> & Hin).
      assert (p = module_node "name") as ->.
      { apply elem_of_cons in Hp as [[= ->]|Hp]; [done|].
        apply list_elem_of_singleton in Hp. discriminate. }
      injection Hn as Hn.
      assert (existsb (λ m, bool_decide (PStr (OdooModule.name m) = dep)) modules0 = true)
        as Hex; [|congruence].
      apply existsb_exists. exists m. split; [by apply list_elem_of_In|].
      by apply bool_decide_eq_true.
Qed.

(** C8 (counterexample).  The module [sale] declares the dependency [base];
    no module [base] is in the input or in the graph: after the load there
    is no Module node [base] and no DEPENDS_ON edge. *)
Lemma C8_no_edge_to_absent_module :
  let loaded :=
    d <=- organize_data_for_loading [sale_module] [] [] ;;
    load_organized_data (λ _, never) d (fresh_loader 1000) in
  OdooModule.depends sale_module = PList [PStr "base"]
  ∧ (self <=- loaded ;; Ok (Metrics.errors (metrics self))) = Ok 0
  ∧ has_node (store_of loaded) (NODE_MODULE, [PStr "sale"]) = true
  ∧ has_node (store_of loaded) (NODE_MODULE, [PStr "base"]) = false
  ∧ count_rels (store_of loaded) REL_MODULE_DEPENDS
      (NODE_MODULE, [PStr "sale"]) (NODE_MODULE, [PStr "base"]) = 0.
Proof. vm_compute. repeat split. Qed.

(** C8 (amended).  For every module [m] of the input and every name [dep]
    in its declared dependency list, after a load in which no batch fails:
    a Module node named [dep] exists exactly when the graph had one before
    the load or the input holds a module of that name (no node is created
    for a dependency); when it exists (and [dep] is not null) there is at
    least one DEPENDS_ON edge from [m] to it, and exactly one if the graph
    held none or one before; otherwise the load adds no DEPENDS_ON edge
    from [m] to [dep]. *)
Theorem C8_depends_on_known_modules modules0 all_models all_views d self self' m deps dep :
  0 < batch_size self →
  organize_data_for_loading modules0 all_models all_views = Ok d →
  load_organized_data (λ _, never) d self = Ok self' →
  m ∈ modules0 → py_iter (OdooModule.depends m) = Ok deps → dep ∈ deps →
  let source := (NODE_MODULE, [PStr (OdooModule.name m)]) in
  let target := (NODE_MODULE, [dep]) in
  let known :=
    has_node (store self) target
    || existsb (λ m', bool_decide (PStr (OdooModule.name m') = dep)) modules0 in
  has_node (store self') target = known
  ∧ count_rels (store self') REL_MODULE_DEPENDS source target
    = if known && negb (bool_decide (dep = PNone))
      then Nat.max 1 (count_rels (store self) REL_MODULE_DEPENDS source target)
      else count_rels (store self) REL_MODULE_DEPENDS source target.
Proof.
  intros HB Horg Hload Hm Hdeps Hdep source target known.
  destruct (load_Ok_json d self self' HB Hload) as [fj Hfj].
  destruct (load_commits d self fj HB Hfj) as (self'' & E & Hst & _).
  rewrite E in Hload. injection Hload as ->.
  destruct (organize_module_rows _ _ _ _ Horg) as [Hmods Hrows].
  specialize (Hrows m deps dep Hm Hdeps Hdep).
  set (B := batch_size self) in *. set (g0 := store self) in *.
  rewrite Hst. clear Hst E.
  set (pre := [(q_models, models d); (q_views, views d); (q_fields, fj)]).
  set (post := [(q_model_module_rels, model_module_rels d);
                (q_model_inheritances, model_inheritances d);
                (q_model_delegations, model_delegations d);
                (q_field_model_rels, field_model_rels d);
                (q_field_references, field_references d);
                (q_view_module_rels, view_module_rels d);
                (q_view_model_rels, view_model_rels d);
                (q_view_inheritances, view_inheritances d)]).
  assert (load_steps d fj
          = ((q_modules, modules d) :: pre)
            ++ (q_module_dependencies, module_dependencies d) :: post) as ->
    by reflexivity.
  rewrite run_prog_app, !run_prog_cons. rewrite Hmods.
  set (g1 := run_step q_modules B (map module_to_dict modules0) g0).
  set (g4 := run_prog B pre g1).
  set (g5 := run_step q_module_dependencies B (module_dependencies d) g4).
  destruct (merge_rel_step q_module_dependencies B (module_dependencies d) g4
              REL_MODULE_DEPENDS (module_node "from") (module_node "to") HB eq_refl)
    as [Hnodes Hrels]. fold g5 in Hnodes, Hrels.
  assert (∀ n, n.1 = NODE_MODULE → nodes g4 !! n = nodes g1 !! n) as H41.
  { intros n Hn. apply run_prog_untouched. by rewrite Hn. }
  assert (∀ n, n.1 = NODE_MODULE → nodes (run_prog B post g5) !! n = nodes g1 !! n) as H1.
  { intros n Hn. rewrite run_prog_untouched by (by rewrite Hn).
    rewrite Hnodes. by apply H41. }
  assert (has_node g4 target = known) as Hk4.
  { rewrite (has_node_ext g4 g1) by (by apply H41). by apply module_nodes_after. }
  split.
  { rewrite (has_node_ext _ g1) by (by apply H1). by apply module_nodes_after. }
  unfold count_rels.
  rewrite (run_prog_rels_untouched B post g5 (REL_MODULE_DEPENDS, source, target))
    by reflexivity.
  assert (rels g4 !! (REL_MODULE_DEPENDS, source, target)
          = rels g0 !! (REL_MODULE_DEPENDS, source, target)) as H40.
  { unfold g4, g1. rewrite <-run_prog_cons. by apply run_prog_rels_untouched. }
  destruct (Hrels (REL_MODULE_DEPENDS, source, target)) as [Hhit Hmiss].
  destruct (known && negb (bool_decide (dep = PNone))) eqn:Hcase.
  - apply andb_true_iff in Hcase as [Hknown Hnull].
    rewrite Hhit, H40; [apply length_merged_rels|].
    exists [("from", PStr (OdooModule.name m)); ("to", dep)].
    split; [done|]. split; [|done].
    unfold matched. cbn [q_match q_module_dependencies forallb].
    unfold matches.
    change (node_of (module_node "from") _) with source.
    change (node_of (module_node "to") _) with target.
    rewrite Hk4, Hknown. cbn [snd forallb source target]. rewrite Hnull.
    rewrite (has_node_ext g4 g1) by (by apply H41).
    rewrite (proj2 (has_node_true g1 source)); [done|].
    apply (run_step_creates q_modules B _ g0 (module_node "name") (module_to_dict m));
      [done|done|left|].
    apply list_elem_of_fmap. by exists m.
  - rewrite Hmiss, H40; [done|].
    intros r Hr Hmatched [= _ Hto].
    unfold matched in Hmatched. cbn [q_match q_module_dependencies forallb] in Hmatched.
    apply andb_true_iff in Hmatched as [_ Hmatched].
    apply andb_true_iff in Hmatched as [Hmatched _].
    unfold matches in Hmatched. apply andb_true_iff in Hmatched as [Hnn Hhas].
    assert (node_of (module_node "to") r = target) as Hnode.
    { unfold node_of, target. simpl. by rewrite Hto. }
    rewrite Hnode in Hnn, Hhas. rewrite Hk4 in Hhas.
    cbn [snd target forallb] in Hnn. rewrite andb_true_r in Hnn.
    rewrite Hhas, Hnn in Hcase. discriminate.
Qed.

Definition base_module : OdooModule.t :=
  default_module {| path_name := "base"; path_absolute := "/odoo/base" |}.

Definition base_sale_data : dataset :=
  match organize_data_for_loading [base_module; sale_module] [sale_order] [lone_view] with
  | Ok d => d
  | Raise _ => empty_data
  end.

Definition base_sale_loaded : Neo4jLoader :=
  match load_organized_data (λ _, never) base_sale_data (fresh_loader 2) with
  | Ok self => self
  | Raise _ => fresh_loader 2
  end.

Lemma C8_depends_on_known_modules_witness :
  let source := (NODE_MODULE, [PStr (OdooModule.name sale_module)]) in
  let target := (NODE_MODULE, [PStr "base"]) in
  let known :=
    has_node (store (fresh_loader 2)) target
    || existsb (λ m', bool_decide (PStr (OdooModule.name m') = PStr "base"))
         [base_module; sale_module] in
  known = true
  ∧ has_node (store base_sale_loaded) target = known
  ∧ count_rels (store base_sale_loaded) REL_MODULE_DEPENDS source target
    = if known && negb (bool_decide (PStr "base" = PNone))
      then Nat.max 1 (count_rels (store (fresh_loader 2)) REL_MODULE_DEPENDS source target)
      else count_rels (store (fresh_loader 2)) REL_MODULE_DEPENDS source target.
Proof.
  split; [vm_compute; reflexivity|].
  apply (C8_depends_on_known_modules [base_module; sale_module] [sale_order] [lone_view]
           base_sale_data (fresh_loader 2) base_sale_loaded sale_module
           [PStr "base"] (PStr "base")).
  - simpl. lia.
  - vm_compute. reflexivity.
  - apply is_Ok_eq. vm_compute. reflexivity.
  - right. left.
  - reflexivity.
  - left.
Defined.

(** * Further properties of the code *)

(** ** Batches under any pattern of failures *)

(** The batches among [l] that commit, and those that fail. *)
Definition committing (fail : nat → bool) (l : list nat) : list nat :=
  filter (λ i, fail i = false) l.

Definition failing (fail : nat → bool) (l : list nat) : list nat :=
  filter (λ i, fail i = true) l.

Lemma batch_fold_any fail q data l self done failed :
  fold_left (batch_step fail q data) l
    {| loop_self := self; loop_processed := done; loop_errors := failed |}
  = {| loop_self :=
         {| store := commit_batches q (batch_size self) data (committing fail l) (store self);
            batch_size := batch_size self;
            metrics := with_counts (metrics self) (length (failing fail l))
                         (length (committing fail l)) |};
       loop_processed := done + batch_items (batch_size self) data (committing fail l);
       loop_errors := failed + batch_items (batch_size self) data (failing fail l) |}.
Proof.
  revert self done failed.
  induction l as [|i l IH]; intros [g B [nc rc er bp]] done failed.
  - simpl. unfold with_counts. simpl. by rewrite !Nat.add_0_r.
  - cbn [fold_left]. unfold committing, failing. rewrite !filter_cons.
    fold (committing fail l). fold (failing fail l).
    unfold batch_step at 2. cbn [loop_self batch_size metrics store loop_processed loop_errors].
    destruct (fail i) eqn:Ei.
    + rewrite decide_False, decide_True by done. rewrite IH.
      unfold with_counts, batch_items, commit_batches. simpl.
      f_equal; [|lia]. f_equal. f_equal; lia.
    + rewrite decide_True, decide_False by done. rewrite IH.
      unfold with_counts, batch_items, commit_batches. simpl.
      f_equal; [|lia]. f_equal. f_equal; lia.
Qed.

Lemma batch_items_split fail B data l :
  batch_items B data (committing fail l) + batch_items B data (failing fail l)
  = batch_items B data l.
Proof.
  unfold batch_items, committing, failing. induction l as [|i l IH]; [done|].
  rewrite !filter_cons. destruct (fail i).
  - rewrite decide_False, decide_True by done. simpl. lia.
  - rewrite decide_True, decide_False by done. simpl. lia.
Qed.

Lemma length_committing_failing fail l :
  length (committing fail l) + length (failing fail l) = length l.
Proof.
  unfold committing, failing. induction l as [|i l IH]; [done|].
  rewrite !filter_cons. destruct (fail i).
  - rewrite decide_False, decide_True by done. simpl. lia.
  - rewrite decide_True, decide_False by done. simpl. lia.
Qed.

(** X1.  [_batch_execute] cuts its data into consecutive slices: put end to
    end they are the data, every slice but the last holds exactly
    [batch_size] rows, and the last one holds between one and [batch_size]
    rows. *)
Theorem X1_batches_partition_data B (data : list row) :
  0 < B →
  let N := (length data + B - 1) / B in
  concat (map (batch_of B data) (seq 1 N)) = data
  ∧ (∀ i, 1 ≤ i < N → length (batch_of B data i) = B)
  ∧ (data ≠ [] → 1 ≤ N ∧ 1 ≤ length (batch_of B data N) ≤ B).
Proof.
  intros HB N.
  pose proof (total_batches_cover B (length data) HB) as Hcover. fold N in Hcover.
  assert (N * B ≤ length data + B - 1) as Hlower.
  { subst N. pose proof (Nat.div_mod_eq (length data + B - 1) B) as Hdm. nia. }
  split; [|split].
  - rewrite concat_batches. by apply take_ge.
  - intros i Hi. unfold batch_of. rewrite length_take, length_drop.
    apply Nat.min_l. nia.
  - intros Hdata. assert (0 < length data) by (destruct data; simpl; [done|lia]).
    assert (1 ≤ N) by nia. split; [done|].
    unfold batch_of. rewrite length_take, length_drop.
    assert ((N - 1) * B < length data) by nia. lia.
Qed.

Lemma X1_batches_partition_data_witness :
  let N := (length four_modules + 3 - 1) / 3 in
  concat (map (batch_of 3 four_modules) (seq 1 N)) = four_modules
  ∧ (∀ i, 1 ≤ i < N → length (batch_of 3 four_modules i) = 3)
  ∧ (four_modules ≠ [] → 1 ≤ N ∧ 1 ≤ length (batch_of 3 four_modules N) ≤ 3).
Proof. apply (X1_batches_partition_data 3 four_modules). lia. Defined.

(** X2.  Whatever batches fail, [_batch_execute] returns (for a positive
    batch size): the store is the effect of the committing batches, in
    order; every row is counted once, as processed or as an error; the
    loader's [errors] metric grows by the number of failed batches and
    [batches_processed] by the number of committed ones. *)
Theorem X2_batch_execute_accounts fail q data self :
  0 < batch_size self →
  let B := batch_size self in
  let batches := seq 1 ((length data + B - 1) / B) in
  ∃ self' summary,
    _batch_execute fail q data self = Ok (self', summary)
    ∧ store self' = commit_batches q B data (committing fail batches) (store self)
    ∧ batch_size self' = B
    ∧ Summary.processed summary + Summary.errors summary = length data
    ∧ Summary.errors summary = batch_items B data (failing fail batches)
    ∧ Metrics.errors (metrics self')
      = Metrics.errors (metrics self) + length (failing fail batches)
    ∧ Metrics.batches_processed (metrics self')
      = Metrics.batches_processed (metrics self) + length (committing fail batches)
    ∧ length (committing fail batches) + length (failing fail batches) = length batches.
Proof.
  intros HB B batches.
  destruct (decide (data = [])) as [->|Hdata].
  { exists self, {| Summary.processed := 0; Summary.errors := 0 |}.
    subst batches. cbn [length]. rewrite Nat.add_0_l, Nat.div_small by lia. simpl.
    repeat split; try done; lia. }
  rewrite batch_execute_loop by done.
  fold B. fold batches. cbv zeta. rewrite batch_fold_any.
  eexists _, _. split; [reflexivity|].
  cbn [store batch_size metrics Summary.processed Summary.errors with_counts
       Metrics.errors Metrics.batches_processed loop_self loop_processed loop_errors].
  subst batches. fold B.
  repeat split; try reflexivity.
  - rewrite ?Nat.add_0_l, batch_items_split.
    rewrite batch_items_seq. rewrite length_take.
    pose proof (total_batches_cover B (length data) HB). lia.
  - apply length_committing_failing.
Qed.

Lemma X2_batch_execute_accounts_witness :
  let fail := λ i, Nat.eqb i 1 in
  let batches := seq 1 ((length four_modules + 2 - 1) / 2) in
  ∃ self' summary,
    _batch_execute fail q_modules four_modules (fresh_loader 2) = Ok (self', summary)
    ∧ store self'
      = commit_batches q_modules 2 four_modules (committing fail batches) empty_graph
    ∧ batch_size self' = 2
    ∧ Summary.processed summary + Summary.errors summary = length four_modules
    ∧ Summary.errors summary = batch_items 2 four_modules (failing fail batches)
    ∧ Metrics.errors (metrics self') = 0 + length (failing fail batches)
    ∧ Metrics.batches_processed (metrics self') = 0 + length (committing fail batches)
    ∧ length (committing fail batches) + length (failing fail batches) = length batches.
Proof.
  apply (X2_batch_execute_accounts (λ i, Nat.eqb i 1) q_modules four_modules (fresh_loader 2)).
  simpl. lia.
Defined.

(** ** What every load keeps, whatever batches fail *)

(** The thirteen queries of [load_organized_data]. *)
Definition loader_queries : list query :=
  [q_modules; q_models; q_views; q_fields; q_module_dependencies; q_model_module_rels;
   q_model_inheritances; q_model_delegations; q_field_model_rels; q_field_references;
   q_view_module_rels; q_view_model_rels; q_view_inheritances].

Lemma batch_fold_preserves (Q : graph → Prop) fail q data l st :
  (∀ g rows, Q g → Q (run_query q g rows)) →
  Q (store (loop_self st)) →
  Q (store (loop_self (fold_left (batch_step fail q data) l st))).
Proof.
  intros Hq. revert st. induction l as [|i l IH]; intros st Hst; [done|].
  simpl. apply IH. unfold batch_step. destruct (fail i); simpl; [done|]. by apply Hq.
Qed.

Lemma batch_execute_preserves (Q : graph → Prop) fail q data self r :
  (∀ g rows, Q g → Q (run_query q g rows)) →
  _batch_execute fail q data self = Ok r → Q (store self) → Q (store r.1).
Proof.
  intros Hq. unfold _batch_execute. destruct data as [|r0 data'].
  { by intros [= <-]. }
  destruct (Nat.eqb (batch_size self) 0); [done|].
  intros [= <-] Hself. simpl. by apply batch_fold_preserves.
Qed.

Lemma rel_step_preserves (Q : graph → Prop) fail q data self self' :
  (∀ g rows, Q g → Q (run_query q g rows)) →
  rel_step fail q data self = Ok self' → Q (store self) → Q (store self').
Proof.
  intros Hq. unfold rel_step. destruct data as [|r0 data'].
  { by intros [= <-]. }
  destruct (_batch_execute fail q (r0 :: data') self) as [r|] eqn:E; simpl; [|done].
  intros [= <-]. by apply (batch_execute_preserves Q fail q (r0 :: data') self r).
Qed.

Ltac in_queries := unfold loader_queries; repeat first [by left | right].

(** A property of the store that every query of the loader keeps is kept by
    the load, whatever batches fail. *)
Lemma load_preserves (Q : graph → Prop) fail d self self' :
  (∀ q g rows, q ∈ loader_queries → Q g → Q (run_query q g rows)) →
  load_organized_data fail d self = Ok self' → Q (store self) → Q (store self').
Proof.
  intros Hq. unfold load_organized_data.
  assert (∀ q, q ∈ loader_queries → ∀ g rows, Q g → Q (run_query q g rows)) as Hq'
    by (intros q Hin g rows; by apply Hq).
  destruct (_batch_execute (fail 1) q_modules (modules d) self) as [r1|] eqn:E1;
    cbn [result_bind]; [|done].
  destruct (_batch_execute (fail 2) q_models (models d) r1.1) as [r2|] eqn:E2;
    cbn [result_bind]; [|done].
  destruct (_batch_execute (fail 3) q_views (views d) r2.1) as [r3|] eqn:E3;
    cbn [result_bind]; [|done].
  destruct (result_mapM field_with_json (fields d)) as [fj|]; cbn [result_bind]; [|done].
  destruct (_batch_execute (fail 4) q_fields fj r3.1) as [r4|] eqn:E4;
    cbn [result_bind]; [|done].
  destruct (rel_step (fail 5) _ _ r4.1) as [s5|] eqn:E5; cbn [result_bind]; [|done].
  destruct (rel_step (fail 6) _ _ s5) as [s6|] eqn:E6; cbn [result_bind]; [|done].
  destruct (rel_step (fail 7) _ _ s6) as [s7|] eqn:E7; cbn [result_bind]; [|done].
  destruct (rel_step (fail 8) _ _ s7) as [s8|] eqn:E8; cbn [result_bind]; [|done].
  destruct (rel_step (fail 9) _ _ s8) as [s9|] eqn:E9; cbn [result_bind]; [|done].
  destruct (rel_step (fail 10) _ _ s9) as [s10|] eqn:E10; cbn [result_bind]; [|done].
  destruct (rel_step (fail 11) _ _ s10) as [s11|] eqn:E11; cbn [result_bind]; [|done].
  destruct (rel_step (fail 12) _ _ s11) as [s12|] eqn:E12; cbn [result_bind]; [|done].
  intros E13 H0.
  apply (batch_execute_preserves Q _ _ _ _ _ (Hq' q_modules ltac:(in_queries))) in E1;
    [|done].
  apply (batch_execute_preserves Q _ _ _ _ _ (Hq' q_models ltac:(in_queries))) in E2;
    [|done].
  apply (batch_execute_preserves Q _ _ _ _ _ (Hq' q_views ltac:(in_queries))) in E3;
    [|done].
  apply (batch_execute_preserves Q _ _ _ _ _ (Hq' q_fields ltac:(in_queries))) in E4;
    [|done].
  apply (rel_step_preserves Q _ _ _ _ _ (Hq' q_module_dependencies ltac:(in_queries)))
    in E5; [|done].
  apply (rel_step_preserves Q _ _ _ _ _ (Hq' q_model_module_rels ltac:(in_queries)))
    in E6; [|done].
  apply (rel_step_preserves Q _ _ _ _ _ (Hq' q_model_inheritances ltac:(in_queries)))
    in E7; [|done].
  apply (rel_step_preserves Q _ _ _ _ _ (Hq' q_model_delegations ltac:(in_queries)))
    in E8; [|done].
  apply (rel_step_preserves Q _ _ _ _ _ (Hq' q_field_model_rels ltac:(in_queries)))
    in E9; [|done].
  apply (rel_step_preserves Q _ _ _ _ _ (Hq' q_field_references ltac:(in_queries)))
    in E10; [|done].
  apply (rel_step_preserves Q _ _ _ _ _ (Hq' q_view_module_rels ltac:(in_queries)))
    in E11; [|done].
  apply (rel_step_preserves Q _ _ _ _ _ (Hq' q_view_model_rels ltac:(in_queries)))
    in E12; [|done].
  by apply (rel_step_preserves Q _ _ _ _ _ (Hq' q_view_inheritances ltac:(in_queries)))
    in E13.
Qed.

Lemma rel_cell_length c r k o :
  length (default [] o) ≤ length (default [] (rel_cell c r k o)).
Proof.
  destruct c as [ | |t a b|t a b assign]; simpl; try done.
  - case_decide; [|done]. simpl. rewrite length_merged_rels. lia.
  - case_decide; [|done]. destruct o; simpl; [by rewrite length_map|done].
Qed.

(** One load under the failure pattern the witnesses use: the first batch
    of the entity sub-step fails. *)
Definition entity_batch_fails (step batch_num : nat) : bool :=
  Nat.eqb step 2 && Nat.eqb batch_num 1.

Definition sale_reloaded_partly : Neo4jLoader :=
  match load_organized_data entity_batch_fails sale_data sale_loaded with
  | Ok self => self
  | Raise _ => sale_loaded
  end.

(** X3.  A load deletes nothing, whatever batches fail: every node of the
    store before the load is a node after it, and between any two nodes the
    number of relationships of each type does not go down. *)
Theorem X3_load_never_deletes fail d self self' :
  load_organized_data fail d self = Ok self' →
  (∀ n, has_node (store self) n = true → has_node (store self') n = true)
  ∧ (∀ t a b, count_rels (store self) t a b ≤ count_rels (store self') t a b).
Proof.
  intros Hload.
  apply (load_preserves
    (λ X, (∀ n, has_node (store self) n = true → has_node X n = true)
          ∧ (∀ t a b, count_rels (store self) t a b ≤ count_rels X t a b))
    fail d self self'); [|done|done].
  intros q g rows _ HQ. apply run_query_ind; [done|].
  intros c r X _ [Hn Hr]. split.
  - intros n Hin. apply has_node_true. rewrite exec_clause_nodes.
    apply node_cell_is_Some, has_node_true. by apply Hn.
  - intros t a b. etrans; [apply Hr|]. unfold count_rels.
    rewrite exec_clause_rels. apply rel_cell_length.
Qed.

Lemma X3_load_never_deletes_witness :
  (∀ n, has_node (store sale_loaded) n = true
        → has_node (store sale_reloaded_partly) n = true)
  ∧ (∀ t a b, count_rels (store sale_loaded) t a b
              ≤ count_rels (store sale_reloaded_partly) t a b).
Proof.
  apply (X3_load_never_deletes entity_batch_fails sale_data sale_loaded
           sale_reloaded_partly).
  apply is_Ok_eq. vm_compute. reflexivity.
Defined.

(** The store holds no relationship with a missing end. *)
Definition no_dangling (g : graph) : Prop :=
  ∀ t a b, 0 < count_rels g t a b → has_node g a = true ∧ has_node g b = true.

(** The relationships a list of clauses merges are between nodes that the
    query has matched or merged before: [bound] holds the patterns bound so
    far. *)
Fixpoint rels_bound (bound : list pattern) (cs : list clause) : bool :=
  match cs with
  | [] => true
  | MERGE_node p :: cs' => rels_bound (p :: bound) cs'
  | MERGE_rel _ a b :: cs' =>
      bool_decide (a ∈ bound) && bool_decide (b ∈ bound) && rels_bound bound cs'
  | _ :: cs' => rels_bound bound cs'
  end.

Lemma exec_clause_no_dangling c r X :
  no_dangling X →
  (∀ t a b, c = MERGE_rel t a b →
     is_Some (nodes X !! node_of a r) ∧ is_Some (nodes X !! node_of b r)) →
  no_dangling (exec_clause c r X).
Proof.
  intros HX Hc t a b. unfold count_rels, has_node.
  rewrite !bool_decide_eq_true, exec_clause_rels, !exec_clause_nodes.
  intros Hpos.
  assert (0 < count_rels X t a b
          ∨ ∃ a' b', c = MERGE_rel t a' b' ∧ node_of a' r = a ∧ node_of b' r = b)
    as [Hold|(a' & b' & -> & <- & <-)].
  { unfold count_rels. destruct c as [ | |t' a' b'|t' a' b' assign]; simpl in Hpos;
      try (by left).
    - case_decide as Hk; [|by left]. injection Hk as -> <- <-. right. by eexists _, _.
    - case_decide as Hk; [|by left]. left.
      destruct (rels X !! (t, a, b)); simpl in *; [by rewrite length_map in Hpos|done]. }
  - apply HX in Hold as [Ha Hb]. apply has_node_true in Ha, Hb.
    split; by apply node_cell_is_Some.
  - destruct (Hc t a' b' eq_refl) as [Ha Hb]. split; by apply node_cell_is_Some.
Qed.

Section Bound.
Variable s : list row.

(** The nodes of the patterns bound so far exist, for every selected row. *)
Definition all_bound (bound : list pattern) (X : graph) : Prop :=
  ∀ p r, p ∈ bound → r ∈ s → is_Some (nodes X !! node_of p r).

Lemma exec_clause_all_bound bound c r X :
  all_bound bound X → all_bound bound (exec_clause c r X).
Proof.
  intros H p r' Hp Hr'. rewrite exec_clause_nodes. apply node_cell_is_Some. by apply H.
Qed.

Lemma rows_keep_bound bound c (l : list row) X :
  l ⊆ s →
  (∀ t a b, c = MERGE_rel t a b → a ∈ bound ∧ b ∈ bound) →
  no_dangling X → all_bound bound X →
  no_dangling (fold_left (λ g r, exec_clause c r g) l X)
  ∧ all_bound bound (fold_left (λ g r, exec_clause c r g) l X).
Proof.
  intros Hl Hc. revert X. induction l as [|r l IH]; intros X HX Hb; [done|].
  simpl. apply IH.
  - intros r' Hr'. apply Hl. by right.
  - apply exec_clause_no_dangling; [done|]. intros t a b ->.
    destruct (Hc t a b eq_refl) as [Ha Hb'].
    split; apply Hb; try done; apply Hl; left.
  - by apply exec_clause_all_bound.
Qed.

Lemma rows_keep_node c (l : list row) X n :
  is_Some (nodes X !! n) →
  is_Some (nodes (fold_left (λ g r, exec_clause c r g) l X) !! n).
Proof.
  revert X. induction l as [|r l IH]; intros X HX; [exact HX|].
  cbn [fold_left]. apply IH. rewrite exec_clause_nodes. by apply node_cell_is_Some.
Qed.

Lemma rows_merge_node p (l : list row) X r :
  r ∈ l →
  is_Some (nodes (fold_left (λ g r, exec_clause (MERGE_node p) r g) l X) !! node_of p r).
Proof.
  revert X. induction l as [|r0 l IH]; intros X Hr; [by apply elem_of_nil in Hr|].
  cbn [fold_left]. apply elem_of_cons in Hr as [->|Hr]; [|by apply IH].
  apply rows_keep_node. rewrite exec_clause_nodes. simpl. by rewrite decide_True.
Qed.

Lemma clauses_keep_no_dangling cs bound X :
  rels_bound bound cs = true → no_dangling X → all_bound bound X →
  no_dangling (fold_left (λ g c, fold_left (λ g r, exec_clause c r g) s g) cs X).
Proof.
  revert bound X. induction cs as [|c cs IH]; intros bound X Hcs HX Hb; [done|].
  simpl. destruct c as [p|p assign|t a b|t a b assign]; simpl in Hcs.
  - destruct (rows_keep_bound bound (MERGE_node p) s X) as [H1 H2]; try done.
    apply (IH (p :: bound)); [done|done|].
    intros p' r [->|Hp']%elem_of_cons Hr; [by apply rows_merge_node|by apply H2].
  - destruct (rows_keep_bound bound (SET_node p assign) s X) as [H1 H2]; try done.
    by apply (IH bound).
  - apply andb_true_iff in Hcs as [Hab Hcs]. apply andb_true_iff in Hab as [Ha Hb'].
    apply bool_decide_eq_true in Ha, Hb'.
    destruct (rows_keep_bound bound (MERGE_rel t a b) s X) as [H1 H2]; try done.
    { by intros ??? [= _ <- <-]. }
    by apply (IH bound).
  - destruct (rows_keep_bound bound (SET_rel t a b assign) s X) as [H1 H2]; try done.
    by apply (IH bound).
Qed.
End Bound.

Lemma run_query_no_dangling q g rows :
  rels_bound (q_match q) (q_update q) = true →
  no_dangling g → no_dangling (run_query q g rows).
Proof.
  intros Hq Hg. unfold run_query.
  apply (clauses_keep_no_dangling _ _ (q_match q)); [done|done|].
  intros p r Hp [Hm _]%list_elem_of_filter.
  apply (forallb_elem_of _ _ _ Hm) in Hp. unfold matches in Hp.
  apply andb_true_iff in Hp as [_ Hp]. by apply has_node_true.
Qed.

(** X4.  A load keeps the store free of dangling relationships, whatever
    batches fail: if every relationship of the store joins two nodes of the
    store before the load, so it is after it.  Each query merges a
    relationship only between nodes it has matched or merged itself. *)
Theorem X4_load_keeps_referential_integrity fail d self self' :
  load_organized_data fail d self = Ok self' →
  no_dangling (store self) → no_dangling (store self').
Proof.
  intros Hload. apply (load_preserves no_dangling fail d self self'); [|done].
  intros q g rows Hq. apply run_query_no_dangling.
  unfold loader_queries in Hq.
  repeat (apply elem_of_cons in Hq as [->|Hq]; [by vm_compute|]).
  by apply elem_of_nil in Hq.
Qed.

Definition sale_loaded_partly : Neo4jLoader :=
  match load_organized_data entity_batch_fails sale_data (fresh_loader 2) with
  | Ok self => self
  | Raise _ => fresh_loader 2
  end.

Lemma X4_load_keeps_referential_integrity_witness :
  no_dangling (store (fresh_loader 2)) ∧ no_dangling (store sale_loaded_partly).
Proof.
  assert (no_dangling (store (fresh_loader 2))) as Hempty.
  { intros t a b H. unfold count_rels in H. simpl in H. rewrite lookup_empty in H.
    simpl in H. lia. }
  split; [exact Hempty|].
  apply (X4_load_keeps_referential_integrity entity_batch_fails sale_data
           (fresh_loader 2) sale_loaded_partly); [|exact Hempty].
  apply is_Ok_eq. vm_compute. reflexivity.
Defined.

(** The properties a node is matched by: [name] for a module or an entity,
    [xml_id] for a view, [model] and [name] for a field. *)
Definition identity_names (L : node_label) : list string :=
  match L with
  | NODE_MODULE | NODE_MODEL => ["name"]
  | NODE_VIEW => ["xml_id"]
  | NODE_FIELD => ["model"; "name"]
  end.

(** The node holds, under its identity properties, the values it is
    identified by. *)
Definition carries_identity (n : node_id) (ps : gmap string pyval) : Prop :=
  map (λ k, ps !! k) (identity_names n.1) = map Some n.2.

(** A clause that merges a node on its identity properties, or sets none
    of them. *)
Definition keeps_identity (c : clause) : bool :=
  match c with
  | MERGE_node p => bool_decide ((p_key p).*1 = identity_names (p_label p))
  | SET_node p assign =>
      forallb (λ k, negb (bool_decide (k ∈ assign.*1))) (identity_names (p_label p))
  | _ => true
  end.

Lemma key_props_identity p r :
  (p_key p).*1 = identity_names (p_label p) →
  carries_identity (node_of p r) (key_props p r).
Proof.
  unfold carries_identity, node_of, key_props. cbn [fst snd].
  destruct p as [L key]. cbn [p_label p_key]. intros Hkey. rewrite <-Hkey.
  destruct L; cbn [identity_names] in Hkey.
  all: destruct key as [|[k1 v1] [|[k2 v2] [|? ?]]]; try discriminate Hkey.
  all: cbn in Hkey; simplify_eq; cbn [map fmap list_fmap fst snd list_to_map foldr].
  all: cbn [uncurry fst snd];
       rewrite ?lookup_insert_eq, ?lookup_insert_ne, ?lookup_insert_eq by done; done.
Qed.

Lemma set_props_identity p assign r ps k :
  keeps_identity (SET_node p assign) = true → k ∈ identity_names (p_label p) →
  set_props assign r ps !! k = ps !! k.
Proof.
  intros Hc Hk. apply set_props_outside. simpl in Hc.
  apply (forallb_elem_of _ _ _ Hc) in Hk. apply negb_true_iff in Hk.
  by apply bool_decide_eq_false in Hk.
Qed.

(** What the clauses do to the identity of the nodes of [g0]. *)
Definition identity_kept (g0 X : graph) : Prop :=
  (∀ n ps, nodes g0 !! n = Some ps →
     ∃ ps', nodes X !! n = Some ps'
          ∧ ∀ k, k ∈ identity_names n.1 → ps' !! k = ps !! k)
  ∧ (∀ n ps', nodes g0 !! n = None → nodes X !! n = Some ps' → carries_identity n ps').

Lemma exec_clause_identity_kept g0 c r X :
  keeps_identity c = true → identity_kept g0 X → identity_kept g0 (exec_clause c r X).
Proof.
  intros Hc [Hold Hnew]. split.
  - intros n ps Hn. destruct (Hold n ps Hn) as (ps1 & HX & Hagree).
    rewrite exec_clause_nodes, HX.
    destruct c as [p|p assign| |]; simpl; try (by exists ps1).
    + case_decide; by exists ps1.
    + case_decide as Hp; [|by exists ps1]. eexists. split; [done|].
      intros k Hk. rewrite <-Hagree by done. subst n.
      by apply (set_props_identity p).
  - intros n ps' Hn. rewrite exec_clause_nodes.
    destruct c as [p|p assign| |]; simpl; try (by apply Hnew).
    + case_decide as Hp; [|by apply Hnew].
      destruct (nodes X !! n) as [ps1|] eqn:HX; simpl.
      * intros [= <-]. by apply Hnew.
      * intros [= <-]. subst n. apply key_props_identity.
        by apply bool_decide_eq_true in Hc.
    + case_decide as Hp; [|by apply Hnew].
      destruct (nodes X !! n) as [ps1|] eqn:HX; simpl; [|done].
      intros [= <-]. specialize (Hnew n ps1 Hn HX). unfold carries_identity in *.
      rewrite <-Hnew. apply map_ext_in. intros k Hk%list_elem_of_In.
      subst n. by apply (set_props_identity p).
Qed.

(** X5.  A load never changes the identity of a node, whatever batches
    fail: a node of the store keeps the values of its identity properties
    ([name], [xml_id], or [model] and [name]), and a node the load creates
    carries the values it was merged on. *)
Theorem X5_load_keeps_node_identity fail d self self' :
  load_organized_data fail d self = Ok self' →
  (∀ n ps, nodes (store self) !! n = Some ps →
     ∃ ps', nodes (store self') !! n = Some ps'
          ∧ ∀ k, k ∈ identity_names n.1 → ps' !! k = ps !! k)
  ∧ (∀ n ps', nodes (store self) !! n = None → nodes (store self') !! n = Some ps' →
       carries_identity n ps').
Proof.
  intros Hload.
  apply (load_preserves (identity_kept (store self)) fail d self self'); [|done|].
  - intros q g rows Hq HQ. apply run_query_ind; [done|].
    intros c r X Hc. apply exec_clause_identity_kept.
    unfold loader_queries in Hq.
    repeat (apply elem_of_cons in Hq as [->|Hq];
            [cbn [q_update q_modules q_models q_views q_fields q_module_dependencies
                  q_model_module_rels q_model_inheritances q_model_delegations
                  q_field_model_rels q_field_references q_view_module_rels
                  q_view_model_rels q_view_inheritances] in Hc;
             repeat (apply elem_of_cons in Hc as [->|Hc]; [by vm_compute|]);
             by apply elem_of_nil in Hc|]).
    by apply elem_of_nil in Hq.
  - split; [|congruence]. intros n ps Hn. by exists ps.
Qed.

Lemma X5_load_keeps_node_identity_witness :
  (∀ n ps, nodes (store sale_loaded) !! n = Some ps →
     ∃ ps', nodes (store sale_reloaded_partly) !! n = Some ps'
          ∧ ∀ k, k ∈ identity_names n.1 → ps' !! k = ps !! k)
  ∧ (∀ n ps', nodes (store sale_loaded) !! n = None →
       nodes (store sale_reloaded_partly) !! n = Some ps' → carries_identity n ps').
Proof.
  apply (X5_load_keeps_node_identity entity_batch_fails sale_data sale_loaded
           sale_reloaded_partly).
  apply is_Ok_eq. vm_compute. reflexivity.
Defined.

(** ** Sub-steps that merge their target *)

(** The sub-steps whose query matches the source of the relationship and
    merges its target: INHERITS, RELATES_TO and EXTENDS. *)
Definition placeholder_steps : list (query * rel_type * pattern * pattern) :=
  [(q_model_inheritances, REL_MODEL_INHERITS, model_node "child", model_node "parent");
   (q_field_references, REL_FIELD_RELATES_TO,
    field_node "model_name" "field_name", model_node "related_model");
   (q_view_inheritances, REL_VIEW_EXTENDS, view_node "child", view_node "parent")].

Lemma placeholder_steps_shape q t src tgt :
  (q, t, src, tgt) ∈ placeholder_steps →
  q_match q = [src] ∧ q_update q = [MERGE_node tgt; MERGE_rel t src tgt]
  ∧ (p_key tgt).*1 = identity_names (p_label tgt).
Proof.
  unfold placeholder_steps. intros H.
  repeat (apply elem_of_cons in H as [[= -> -> -> ->]|H]; [done|]).
  by apply elem_of_nil in H.
Qed.

Lemma exec_trace_rel_present T g k :
  rel_present (rels g !! k) → rel_present (rels (exec_trace T g) !! k).
Proof.
  intros Hg. apply (exec_trace_ind (λ X, rel_present (rels X !! k))); [done|].
  intros c r X _ HX. rewrite exec_clause_rels. by apply rel_cell_present.
Qed.

Lemma exec_trace_rel_merged T g t a b r :
  (MERGE_rel t a b, r) ∈ T →
  rel_present (rels (exec_trace T g) !! (t, node_of a r, node_of b r)).
Proof.
  intros (T1 & T2 & ->)%list_elem_of_split.
  rewrite exec_trace_app.
  change (exec_trace ((MERGE_rel t a b, r) :: T2) (exec_trace T1 g))
    with (exec_trace T2 (exec_clause (MERGE_rel t a b) r (exec_trace T1 g))).
  apply exec_trace_rel_present.
  rewrite exec_clause_rels. simpl. rewrite decide_True by done.
  by destruct (rels (exec_trace T1 g) !! _) as [[|]|].
Qed.

Lemma commit_batches_rel_present q B data l g k :
  rel_present (rels g !! k) → rel_present (rels (commit_batches q B data l g) !! k).
Proof.
  intros Hg. apply (commit_batches_ind (λ X, rel_present (rels X !! k))); [done|].
  intros c r X _ HX. rewrite exec_clause_rels. by apply rel_cell_present.
Qed.

Lemma key_props_node_of p r r' :
  node_of p r = node_of p r' → key_props p r = key_props p r'.
Proof.
  unfold node_of, key_props. intros [= H]. f_equal.
  induction (p_key p) as [|[k v] l IH]; [done|].
  simpl in *. injection H as H1 H2. rewrite H1. f_equal. by apply IH.
Qed.

(** X6.  The INHERITS, RELATES_TO and EXTENDS sub-steps create the target
    of the relationship when it is missing.  For a row whose source node
    exists and whose target is not null (no batch failing): afterwards the
    target node exists, there is
    at least one relationship from source to target (exactly one if the
    store held none or one), and a target that was missing is a node that
    carries its identity property and nothing else. *)
Theorem X6_missing_target_is_created q t src tgt rows self r :
  (q, t, src, tgt) ∈ placeholder_steps →
  0 < batch_size self → r ∈ rows → matches (store self) src r = true →
  Forall (λ v, v ≠ PNone) (node_of tgt r).2 →
  ∃ self',
    rel_step never q rows self = Ok self'
    ∧ has_node (store self') (node_of tgt r) = true
    ∧ count_rels (store self') t (node_of src r) (node_of tgt r)
      = Nat.max 1 (count_rels (store self) t (node_of src r) (node_of tgt r))
    ∧ (has_node (store self) (node_of tgt r) = false →
       nodes (store self') !! node_of tgt r = Some (key_props tgt r)).
Proof.
  intros Hstep HB Hr Hsrc _.
  destruct (placeholder_steps_shape _ _ _ _ Hstep) as (Hmatch & Hupdate & _).
  destruct (rel_step_commits q rows self HB) as (self' & E & Hst & _).
  exists self'. split; [done|]. rewrite Hst. clear E Hst.
  set (B := batch_size self) in *. set (g := store self) in *.
  set (n := node_of tgt r). set (k := (t, node_of src r, n)).
  (* the batch of [r] *)
  destruct (elem_of_batches B rows r HB Hr) as (i & Hi & Hri).
  apply list_elem_of_split in Hi as (l1 & l2 & Hl).
  unfold run_step. rewrite Hl, commit_batches_app.
  set (X := commit_batches q B rows l1 g).
  change (commit_batches q B rows (i :: l2) X)
    with (commit_batches q B rows l2 (run_query q X (batch_of B rows i))).
  assert (r ∈ selected q X (batch_of B rows i)) as Hsel.
  { apply list_elem_of_filter. split; [|done]. rewrite Hmatch. simpl.
    rewrite andb_true_r. unfold matches in *.
    apply andb_true_iff in Hsrc as [Hnull Hsrc]. rewrite Hnull. simpl.
    apply has_node_true. apply commit_batches_is_Some. by apply has_node_true. }
  rewrite run_query_trace.
  set (T := clause_trace (q_update q) (selected q X (batch_of B rows i))).
  assert (is_Some (nodes (commit_batches q B rows l2 (exec_trace T X)) !! n)) as Hnode.
  { apply commit_batches_is_Some, exec_trace_merged, elem_of_clause_trace.
    split; [|done]. rewrite Hupdate. left. }
  assert (rel_present (rels (commit_batches q B rows l2 (exec_trace T X)) !! k)) as Hrel.
  { apply commit_batches_rel_present, exec_trace_rel_merged, elem_of_clause_trace.
    split; [|done]. rewrite Hupdate. right. left. }
  clear Hsel.
  (* the whole sub-step only merges *)
  assert (∀ Y, (∀ c r' Z, c ∈ q_update q → Y Z → Y (exec_clause c r' Z)) → Y g →
               Y (commit_batches q B rows l2 (exec_trace T X))) as Hind.
  { intros Y Hstep' Hg. apply commit_batches_ind; [|done].
    subst T. rewrite <-run_query_trace. apply run_query_ind; [|done].
    subst X. by apply commit_batches_ind. }
  split; [by apply has_node_true|]. split.
  - assert (rels (commit_batches q B rows l2 (exec_trace T X)) !! k = rels g !! k
            ∨ rels (commit_batches q B rows l2 (exec_trace T X)) !! k
              = Some (merged_rels (rels g !! k))) as Hk.
    { apply (Hind (λ Z, rels Z !! k = rels g !! k
                        ∨ rels Z !! k = Some (merged_rels (rels g !! k)))); [|by left].
      intros c r' Z Hc HZ. rewrite exec_clause_rels. rewrite Hupdate in Hc.
      apply elem_of_cons in Hc as [->|Hc]; [done|].
      apply list_elem_of_singleton in Hc as ->. simpl.
      case_decide; [|done]. right. destruct HZ as [-> | ->]; [done|].
      by destruct (rels g !! k) as [[|]|]. }
    unfold count_rels. fold k. destruct Hk as [Hk|Hk]; rewrite Hk in *.
    + destruct (rels g !! k) as [[|x l]|]; simpl in *; first [done|lia].
    + simpl. apply length_merged_rels.
  - intros Habsent.
    assert (nodes (commit_batches q B rows l2 (exec_trace T X)) !! n = None
            ∨ nodes (commit_batches q B rows l2 (exec_trace T X)) !! n
              = Some (key_props tgt r)) as [Hn|Hn]; [|by rewrite Hn in Hnode; destruct Hnode|done].
    apply (Hind (λ Z, nodes Z !! n = None ∨ nodes Z !! n = Some (key_props tgt r))).
    + intros c r' Z Hc HZ. rewrite exec_clause_nodes. rewrite Hupdate in Hc.
      apply elem_of_cons in Hc as [->|Hc].
      * simpl. case_decide as Hn; [|done]. right.
        destruct HZ as [-> | ->]; simpl; [|done].
        f_equal. by apply key_props_node_of.
      * apply list_elem_of_singleton in Hc as ->. done.
    + left. apply eq_None_not_Some. intros H%has_node_true. congruence.
Qed.

(** The store after the entity nodes of the small corpus alone. *)
Definition sale_models_loaded : Neo4jLoader :=
  match _batch_execute never q_models (models sale_data) (fresh_loader 2) with
  | Ok r => r.1
  | Raise _ => fresh_loader 2
  end.

Lemma X6_missing_target_is_created_witness :
  let r := [("child", PStr "sale.order"); ("parent", PStr "mail.thread")] in
  let child := (NODE_MODEL, [PStr "sale.order"]) in
  let parent := (NODE_MODEL, [PStr "mail.thread"]) in
  has_node (store sale_models_loaded) parent = false
  ∧ ∃ self',
    rel_step never q_model_inheritances (model_inheritances sale_data) sale_models_loaded
    = Ok self'
    ∧ has_node (store self') parent = true
    ∧ count_rels (store self') REL_MODEL_INHERITS child parent
      = Nat.max 1 (count_rels (store sale_models_loaded) REL_MODEL_INHERITS child parent)
    ∧ (has_node (store sale_models_loaded) parent = false →
       nodes (store self') !! parent = Some (key_props (model_node "parent") r)).
Proof.
  split; [vm_compute; reflexivity|].
  apply (X6_missing_target_is_created q_model_inheritances REL_MODEL_INHERITS
           (model_node "child") (model_node "parent")
           (model_inheritances sale_data) sale_models_loaded
           [("child", PStr "sale.order"); ("parent", PStr "mail.thread")]).
  - left.
  - assert (batch_size sale_models_loaded = 2) as -> by (vm_compute; reflexivity). lia.
  - vm_compute. left.
  - vm_compute. reflexivity.
  - by repeat constructor.
Defined.

(** ** The loader's per-kind entry points *)

(** [d[key]] of a dictionary: a missing key raises. *)
Definition row_item (key : string) (r : row) : result pyval :=
  match row_lookup key r with
  | Some v => Ok v
  | None => Raise "KeyError"
  end.

(** The dependency rows [_load_module_dependencies] builds for one module;
    [module["name"]] is read once per dependency. *)
Definition module_dependency_rows (module : row) : result (list row) :=
  depends <=- py_iter (default (PList []) (row_lookup "depends" module)) ;;
  result_mapM (λ dep, name <=- row_item "name" module ;;
                      Ok [("from", name); ("to", dep)]) depends.

(** [_load_module_dependencies] *)
Definition _load_module_dependencies (fail : nat → bool) (modules : list row)
    (self : Neo4jLoader) : result Neo4jLoader :=
  dependencies <=- result_mapM module_dependency_rows modules ;;
  match concat dependencies with
  | [] => Ok self
  | dependencies =>
      r <=- _batch_execute fail q_module_dependencies dependencies self ;; Ok r.1
  end.

(** [load_modules]; [fail_nodes] and [fail_deps] tell which batches of its
    two sub-steps raise. *)
Definition load_modules (fail_nodes fail_deps : nat → bool) (modules : list row)
    (self : Neo4jLoader) : result Neo4jLoader :=
  r <=- _batch_execute fail_nodes q_modules modules self ;;
  _load_module_dependencies fail_deps modules r.1.

Lemma result_mapM_Ok {A B} (f : A → B) (l : list A) :
  result_mapM (λ x, Ok (f x)) l = Ok (map f l).
Proof. induction l as [|a l IH]; [done|]. simpl. by rewrite IH. Qed.

Lemma module_dependency_rows_organized m p :
  organize_module m = Ok p →
  module_dependency_rows (module_to_dict m) = Ok (module_dependencies p).
Proof.
  unfold organize_module, module_dependency_rows.
  change (row_lookup "depends" (module_to_dict m)) with (Some (OdooModule.depends m)).
  cbn [default from_option id].
  destruct (py_iter (OdooModule.depends m)) as [deps|]; simpl; [|done].
  intros [= <-]. simpl.
  change (row_item "name" (module_to_dict m)) with (Ok (PStr (OdooModule.name m))).
  cbn [result_bind]. apply (result_mapM_Ok (λ dep, [("from", _); ("to", dep)])).
Qed.

Lemma organize_module_shape m p :
  organize_module m = Ok p →
  modules p = [module_to_dict m] ∧ models p = [] ∧ views p = [] ∧ fields p = []
  ∧ model_module_rels p = [] ∧ model_inheritances p = [] ∧ model_delegations p = []
  ∧ field_model_rels p = [] ∧ field_references p = [] ∧ view_module_rels p = []
  ∧ view_model_rels p = [] ∧ view_inheritances p = [].
Proof.
  unfold organize_module. destruct (py_iter _); simpl; [|done]. by intros [= <-].
Qed.

(** The dataset of modules alone. *)
Lemma organize_modules_only ms d :
  organize_data_for_loading ms [] [] = Ok d →
  ∃ parts,
    Forall2 (λ m p, organize_module m = Ok p) ms parts
    ∧ d = {| modules := map module_to_dict ms; models := []; views := []; fields := [];
             module_dependencies := concat (map module_dependencies parts);
             model_module_rels := []; model_inheritances := []; model_delegations := [];
             field_model_rels := []; field_references := [];
             view_module_rels := []; view_model_rels := []; view_inheritances := [] |}.
Proof.
  unfold organize_data_for_loading.
  destruct (result_mapM organize_module ms) as [parts|] eqn:E; simpl; [|done].
  intros [= <-]. rewrite app_nil_r. apply result_mapM_Forall2 in E.
  exists parts. split; [done|].
  assert (∀ f : dataset → list row,
            (∀ a b, f (data_extend a b) = f a ++ f b) → f empty_data = [] →
            (∀ m p, organize_module m = Ok p → f p = []) →
            f (fold_left data_extend parts empty_data) = []) as Hnil.
  { intros f Hf H0 Hp. rewrite (fold_data_extend_proj f Hf), H0. simpl.
    apply concat_map_nil. intros p Hin.
    clear -E Hin Hp. induction E as [|m p' ms ps Hm _ IH]; [by apply elem_of_nil in Hin|].
    apply elem_of_cons in Hin as [->|Hin]; [by apply (Hp m)|by apply IH]. }
  destruct (fold_left data_extend parts empty_data) as [a1 a2 a3 a4 a5 a6 a7 a8 a9 a10 a11 a12 a13]
    eqn:Ed.
  pose proof (fold_data_extend_proj modules ltac:(done) parts empty_data) as H1.
  pose proof (fold_data_extend_proj module_dependencies ltac:(done) parts empty_data) as H5.
  pose proof (Hnil models ltac:(done) eq_refl
                ltac:(intros m p Hp; by apply organize_module_shape in Hp as (?&?&?)))
    as H2.
  pose proof (Hnil views ltac:(done) eq_refl
                ltac:(intros m p Hp; by apply organize_module_shape in Hp as (?&?&?&?)))
    as H3.
  pose proof (Hnil fields ltac:(done) eq_refl
                ltac:(intros m p Hp; by apply organize_module_shape in Hp as (?&?&?&?&?)))
    as H4.
  pose proof (Hnil model_module_rels ltac:(done) eq_refl
                ltac:(intros m p Hp;
                      by apply organize_module_shape in Hp as (?&?&?&?&?&?))) as H6.
  pose proof (Hnil model_inheritances ltac:(done) eq_refl
                ltac:(intros m p Hp;
                      by apply organize_module_shape in Hp as (?&?&?&?&?&?&?))) as H7.
  pose proof (Hnil model_delegations ltac:(done) eq_refl
                ltac:(intros m p Hp;
                      by apply organize_module_shape in Hp as (?&?&?&?&?&?&?&?))) as H8.
  pose proof (Hnil field_model_rels ltac:(done) eq_refl
                ltac:(intros m p Hp;
                      by apply organize_module_shape in Hp as (?&?&?&?&?&?&?&?&?))) as H9.
  pose proof (Hnil field_references ltac:(done) eq_refl
                ltac:(intros m p Hp;
                      by apply organize_module_shape in Hp as (?&?&?&?&?&?&?&?&?&?)))
    as H10.
  pose proof (Hnil view_module_rels ltac:(done) eq_refl
                ltac:(intros m p Hp;
                      by apply organize_module_shape in Hp as (?&?&?&?&?&?&?&?&?&?&?)))
    as H11.
  pose proof (Hnil view_model_rels ltac:(done) eq_refl
                ltac:(intros m p Hp;
                      by apply organize_module_shape in Hp as (?&?&?&?&?&?&?&?&?&?&?&?)))
    as H12.
  pose proof (Hnil view_inheritances ltac:(done) eq_refl
                ltac:(intros m p Hp;
                      by apply organize_module_shape in Hp as (?&?&?&?&?&?&?&?&?&?&?&?)))
    as H13.
  rewrite Ed in *. simpl in *. subst.
  f_equal. clear -E. induction E as [|m p ms ps Hm _ IH]; [done|].
  simpl. rewrite IH. by apply organize_module_shape in Hm as [-> _].
Qed.

Lemma batch_execute_nil fail q self :
  _batch_execute fail q [] self
  = Ok (self, {| Summary.processed := 0; Summary.errors := 0 |}).
Proof. done. Qed.

(** X7.  For module records, [load_modules] does what [load_organized_data]
    does with the dataset of these modules alone: the same batches, the same
    store and metrics, and the same exception if one is raised, under the
    same failures of the module batches and the dependency batches. *)
Theorem X7_load_modules_agrees fail ms d self :
  organize_data_for_loading ms [] [] = Ok d →
  load_modules (fail 1) (fail 5) (map module_to_dict ms) self
  = load_organized_data fail d self.
Proof.
  intros (parts & Hparts & ->)%organize_modules_only.
  unfold load_modules, load_organized_data, _load_module_dependencies, rel_step.
  cbn [modules models views fields module_dependencies model_module_rels
       model_inheritances model_delegations field_model_rels field_references
       view_module_rels view_model_rels view_inheritances].
  destruct (_batch_execute (fail 1) q_modules (map module_to_dict ms) self) as [r|];
    cbn [result_bind]; [|done].
  assert (result_mapM module_dependency_rows (map module_to_dict ms)
          = Ok (map module_dependencies parts)) as ->.
  { clear -Hparts. induction Hparts as [|m p ms ps Hm _ IH]; [done|].
    simpl. by rewrite (module_dependency_rows_organized m p Hm), IH. }
  repeat (rewrite batch_execute_nil; cbn [result_bind result_mapM fst]).
  destruct (concat (map module_dependencies parts)) as [|r0 deps]; [done|].
  by destruct (_batch_execute (fail 5) q_module_dependencies (r0 :: deps) r.1).
Qed.

Lemma X7_load_modules_agrees_witness :
  load_modules never never (map module_to_dict [base_module; sale_module]) (fresh_loader 2)
  = load_organized_data (λ _, never)
      (match organize_data_for_loading [base_module; sale_module] [] [] with
       | Ok d => d
       | Raise _ => empty_data
       end) (fresh_loader 2).
Proof.
  apply (X7_load_modules_agrees (λ _, never) [base_module; sale_module]).
  vm_compute. reflexivity.
Defined.

(** ** The state store after a run *)

(** No module changed: the ratio is [0 / n], never above the threshold
    (for [n = 0] modulo 2^63 it is not a number, and no comparison holds). *)
Lemma ratio_zero (y : float) : (threshold <? 0 / y)%float = false.
Proof.
  rewrite ltb_spec, div_spec.
  change (Prim2SF 0%float) with (S754_zero false).
  unfold SF64div, SFdiv.
  destruct (Prim2SF y) as [s|s| |s m e]; simpl; try reflexivity.
  all: destruct s; vm_compute; reflexivity.
Qed.

Section StateUpdates.
Variable sha256_hexdigest : string → string.
Variable fs : file_system.

(** [update_file]: the file's current hash is stored under its absolute
    path (the empty string when the file cannot be read). *)
Definition update_file (self : state) (file_path : Path) : state :=
  let file_key := path_absolute file_path in
  let current_hash := get_file_hash sha256_hexdigest fs file_path in
  {| last_update := last_update self;
     files := <[file_key := current_hash]> (files self) |}.

(** [mark_files_processed]; the set is visited in some order. *)
Definition mark_files_processed (self : state) (file_paths : list Path) : state :=
  fold_left update_file file_paths self.

(** [mark_module_processed] of the change detector. *)
Definition mark_module_processed (self : state) (module_path : string) : state :=
  mark_files_processed self (_get_relevant_files fs module_path).

(** [save_state], as far as the state in memory goes: [now] is
    [datetime.now().isoformat()]. *)
Definition save_state (now : string) (self : state) : state :=
  {| last_update := PStr now; files := files self |}.

(** [get_changed_python_files] and [get_changed_xml_files]. *)
Definition get_changed_python_files (self : state) (module_path : string) : list Path :=
  filter (λ py_file, has_changed sha256_hexdigest fs self py_file = true)
    (filter (λ py_file,
               (negb (substringb "__pycache__" (path_absolute py_file))
                && negb (substringb "test_" (path_name py_file))) = true)
            (rglob fs module_path "*.py")).

Definition get_changed_xml_files (self : state) (module_path : string) : list Path :=
  filter (λ xml_file, has_changed sha256_hexdigest fs self xml_file = true)
    (rglob fs module_path "*.xml").

Lemma has_changed_update_eq self f g :
  path_absolute f = path_absolute g →
  has_changed sha256_hexdigest fs (update_file self f) g = false.
Proof.
  intros Hfg. unfold has_changed, update_file, get_file_hash. simpl. rewrite Hfg.
  destruct (negb _); [done|]. rewrite lookup_insert_eq. by rewrite bool_decide_true.
Qed.

Lemma has_changed_update_ne self f g :
  path_absolute f ≠ path_absolute g →
  has_changed sha256_hexdigest fs (update_file self f) g
  = has_changed sha256_hexdigest fs self g.
Proof.
  intros Hfg. unfold has_changed, update_file. simpl. by rewrite lookup_insert_ne.
Qed.

(** Recording a file never makes another file look changed. *)
Lemma has_changed_update_false self f g :
  has_changed sha256_hexdigest fs self g = false →
  has_changed sha256_hexdigest fs (update_file self f) g = false.
Proof.
  intros Hg. destruct (decide (path_absolute f = path_absolute g)) as [Heq|Hne].
  - by apply has_changed_update_eq.
  - by rewrite has_changed_update_ne.
Qed.

Lemma has_changed_mark_false self l g :
  has_changed sha256_hexdigest fs self g = false →
  has_changed sha256_hexdigest fs (mark_files_processed self l) g = false.
Proof.
  unfold mark_files_processed. revert self.
  induction l as [|f l IH]; intros self Hg; [done|].
  simpl. apply IH. by apply has_changed_update_false.
Qed.

Lemma has_changed_mark_in self l g :
  g ∈ l → has_changed sha256_hexdigest fs (mark_files_processed self l) g = false.
Proof.
  unfold mark_files_processed. revert self.
  induction l as [|f l IH]; intros self Hg; [by apply elem_of_nil in Hg|].
  simpl. apply elem_of_cons in Hg as [->|Hg]; [|by apply IH].
  apply (has_changed_mark_false _ l). by apply has_changed_update_eq.
Qed.

Lemma update_file_comm self f g :
  update_file (update_file self f) g = update_file (update_file self g) f.
Proof.
  unfold update_file. simpl. f_equal.
  destruct (decide (path_absolute f = path_absolute g)) as [Heq|Hne].
  - unfold get_file_hash. by rewrite Heq.
  - by apply insert_insert_ne.
Qed.

(** X8.  Recording a file makes it unchanged: after [update_file], the file
    is not reported changed (whether or not it can be read), and the answer
    for a file with another absolute path is what it was. *)
Theorem X8_update_file_then_unchanged self f :
  has_changed sha256_hexdigest fs (update_file self f) f = false
  ∧ ∀ g, path_absolute g ≠ path_absolute f →
      has_changed sha256_hexdigest fs (update_file self f) g
      = has_changed sha256_hexdigest fs self g.
Proof.
  split; [by apply has_changed_update_eq|].
  intros g Hg. by apply has_changed_update_ne.
Qed.

(** X9.  After [mark_files_processed] none of the files is reported
    changed, files that were unchanged stay so, and the state does not
    depend on the order in which the set of files is visited. *)
Theorem X9_mark_files_processed self file_paths :
  get_changed_files sha256_hexdigest fs (mark_files_processed self file_paths) file_paths
  = []
  ∧ (∀ g, has_changed sha256_hexdigest fs self g = false →
       has_changed sha256_hexdigest fs (mark_files_processed self file_paths) g = false)
  ∧ (∀ file_paths', file_paths ≡ₚ file_paths' →
       mark_files_processed self file_paths' = mark_files_processed self file_paths).
Proof.
  split; [|split].
  - unfold get_changed_files.
    assert (∀ l, (∀ g, g ∈ l →
                    has_changed sha256_hexdigest fs
                      (mark_files_processed self file_paths) g = false) →
                 filter (λ file_path,
                           has_changed sha256_hexdigest fs
                             (mark_files_processed self file_paths) file_path = true) l
                 = []) as Hnil.
    { induction l as [|g l IH]; intros Hl; [done|].
      rewrite filter_cons, decide_False, IH; [done| |].
      - intros g' Hg'. apply Hl. by right.
      - rewrite Hl by left. done. }
    apply Hnil. intros g Hg. by apply has_changed_mark_in.
  - intros g Hg. by apply has_changed_mark_false.
  - intros file_paths' Hperm. unfold mark_files_processed. revert self.
    induction Hperm as [|x l l' _ IH|x y l|l l' l'' _ IH1 _ IH2]; intros self; simpl.
    + done.
    + apply IH.
    + by rewrite update_file_comm.
    + by rewrite IH2, IH1.
Qed.

Lemma has_module_changed_false self module_path :
  (∀ f, f ∈ _get_relevant_files fs module_path →
     has_changed sha256_hexdigest fs self f = false) →
  _has_module_changed sha256_hexdigest fs self module_path = false.
Proof.
  intros H. apply not_true_is_false. intros (f & Hf & Hch)%has_module_changed_spec.
  rewrite H in Hch by done. discriminate.
Qed.

Lemma marked_modules_unchanged self paths p :
  p ∈ paths →
  _has_module_changed sha256_hexdigest fs (fold_left mark_module_processed paths self) p
  = false.
Proof.
  revert self. induction paths as [|p0 paths IH]; intros self Hp;
    [by apply elem_of_nil in Hp|].
  simpl. apply elem_of_cons in Hp as [->|Hp]; [|by apply IH].
  apply has_module_changed_false. intros f Hf.
  assert (has_changed sha256_hexdigest fs (mark_module_processed self p0) f = false) as H0
    by (by apply has_changed_mark_in).
  revert H0. generalize (mark_module_processed self p0). clear.
  induction paths as [|p1 paths IH]; intros s Hs; [done|].
  simpl. apply IH. by apply has_changed_mark_false.
Qed.

Lemma detect_none_changed self modules :
  (∀ module, module ∈ modules →
     ∃ p, module_path_of module = Ok p
        ∧ _has_module_changed sha256_hexdigest fs self p = false) →
  detect_changed_modules sha256_hexdigest fs self modules = Ok [].
Proof.
  induction modules as [|m modules IH]; intros H; [done|].
  cbn [detect_changed_modules]. destruct (H m) as (p & Hp & Hch); [left|].
  rewrite Hp. cbn [result_bind]. rewrite IH by (intros m' Hm'; apply H; by right).
  cbn [result_bind]. by rewrite Hch.
Qed.

(** X10.  A run that records every module and saves the state leaves
    nothing to do: with the files as they are, the next strategy is an
    incremental run over no module. *)
Theorem X10_processed_modules_unchanged self now modules paths :
  now ≠ EmptyString →
  Forall2 (λ module p, module_path_of module = Ok p) modules paths →
  let self' := save_state now (fold_left mark_module_processed paths self) in
  (∀ p, p ∈ paths → _has_module_changed sha256_hexdigest fs self' p = false)
  ∧ get_incremental_strategy sha256_hexdigest fs self' modules
    = Ok {| full_reload := false; changed_modules := [];
            strategy_reason := Modified 0 |}.
Proof.
  intros Hnow Hpaths self'.
  assert (∀ p, p ∈ paths → _has_module_changed sha256_hexdigest fs self' p = false)
    as Hunchanged.
  { intros p Hp. by apply (marked_modules_unchanged self paths p). }
  split; [done|].
  unfold get_incremental_strategy.
  assert (py_truthy (last_update self') = true) as ->.
  { simpl. destruct now; [done|reflexivity]. }
  cbn [negb]. rewrite detect_none_changed.
  - cbn [result_bind length]. destruct modules; [done|].
    change (float_of_nat 0) with 0%float. by rewrite ratio_zero.
  - intros module Hm. apply list_elem_of_lookup in Hm as [i Hi].
    destruct (Forall2_lookup_l _ _ _ _ _ Hpaths Hi) as (p & Hp & Hmp).
    exists p. split; [done|]. apply Hunchanged. by apply list_elem_of_lookup_2 in Hp.
Qed.

(** X11.  A module is reported changed exactly when one of its manifests
    exists and has changed, or [get_changed_python_files] is not empty, or
    [get_changed_xml_files] is not empty: a Python file under
    [__pycache__] or with [test_] in its name never counts. *)
Theorem X11_module_changed_by_kind self module_path :
  _has_module_changed sha256_hexdigest fs self module_path = true
  ↔ (∃ manifest, manifest ∈ ["__manifest__.py"; "__openerp__.py"]
       ∧ exists_ fs (path_absolute (path_join module_path manifest)) = true
       ∧ has_changed sha256_hexdigest fs self (path_join module_path manifest) = true)
    ∨ get_changed_python_files self module_path ≠ []
    ∨ get_changed_xml_files self module_path ≠ [].
Proof.
  assert (∀ (P : Path → Prop) `{!∀ x, Decision (P x)} (l : list Path),
            filter P l ≠ [] ↔ ∃ x, x ∈ l ∧ P x) as Hne.
  { intros P ? l. split.
    - destruct (filter P l) as [|x l'] eqn:E; [done|]. intros _.
      assert (x ∈ filter P l) as [HP Hx]%list_elem_of_filter by (rewrite E; left).
      by exists x.
    - intros (x & Hx & HP) E.
      assert (x ∈ filter P l) as Hin by (by apply list_elem_of_filter).
      rewrite E in Hin. by apply elem_of_nil in Hin. }
  rewrite has_module_changed_spec. unfold _get_relevant_files.
  unfold get_changed_python_files, get_changed_xml_files. rewrite !Hne.
  split.
  - intros (f & Hf & Hch). apply elem_of_app in Hf as [Hf|Hf].
    + left. apply list_elem_of_filter in Hf as [Hex Hf].
      apply list_elem_of_fmap in Hf as (name & -> & Hname). by exists name.
    + apply elem_of_app in Hf as [Hf|Hf]; right; [left|right]; by exists f.
  - intros [(name & Hname & Hex & Hch)|[(f & Hf & Hch)|(f & Hf & Hch)]].
    + exists (path_join module_path name). split; [|done].
      apply elem_of_app. left. apply list_elem_of_filter. split; [done|].
      apply list_elem_of_fmap. by exists name.
    + exists f. split; [|done]. apply elem_of_app. right. apply elem_of_app. by left.
    + exists f. split; [|done]. apply elem_of_app. right. apply elem_of_app. by right.
Qed.
End StateUpdates.

Lemma X10_processed_modules_unchanged_witness :
  let paths := ["/odoo/account"; "/odoo/sale"; "/odoo/stock"] in
  let self' :=
    save_state "2026-01-02T00:00:00"
      (fold_left (mark_module_processed (λ content, content) sale_fs) paths known_state) in
  (∀ p, p ∈ paths → _has_module_changed (λ content, content) sale_fs self' p = false)
  ∧ get_incremental_strategy (λ content, content) sale_fs self' three_modules
    = Ok {| full_reload := false; changed_modules := [];
            strategy_reason := Modified 0 |}.
Proof.
  apply (X10_processed_modules_unchanged (λ content, content) sale_fs known_state
           "2026-01-02T00:00:00" three_modules
           ["/odoo/account"; "/odoo/sale"; "/odoo/stock"]).
  - discriminate.
  - repeat constructor.
Defined.


(** ** The entity parser on files and directories *)

(** [parse_file].  [classes] holds the class definitions of the file in
    the order [ast.walk] yields them, [None] when the file cannot be read or
    does not parse.  An exception in any class empties the result. *)
Definition parse_file (module_name : string) (file_path : Path)
    (classes : option (list ast.ClassDef)) : list OdooModel.t :=
  match classes with
  | None => []
  | Some nodes =>
      match result_mapM (λ node, _parse_class module_name node file_path) nodes with
      | Ok models => omap id models
      | Raise _ => []
      end
  end.

(** [parse_directory]: the Python files below the directory, but for those
    with [test_] in their name or [__pycache__] in their path. *)
Definition parse_directory (module_name : string) (py_files : list Path)
    (classes_of : Path → option (list ast.ClassDef)) : list OdooModel.t :=
  flat_map (λ py_file,
    if substringb "test_" (path_name py_file)
       || substringb "__pycache__" (path_absolute py_file)
    then []
    else parse_file module_name py_file (classes_of py_file)) py_files.

(** [_inherit] has one of the shapes the parser expects: absent, a string
    or a list. *)
Definition inherit_expected (node : ast.ClassDef) : bool :=
  match _get_attribute node "_inherit" with
  | PNone | PStr _ | PList _ => true
  | _ => false
  end.

Lemma parse_class_expected module_name node file_path :
  inherit_expected node = true →
  ∃ o, _parse_class module_name node file_path = Ok o
     ∧ (is_Some o ↔ _is_odoo_model node = true)
     ∧ ∀ m, o = Some m →
         OdooModel.class_name m = ast.name node
         ∧ OdooModel.module m = module_name
         ∧ OdooModel.file_path m = path_absolute file_path.
Proof.
  unfold inherit_expected, _parse_class. intros Hinh.
  destruct (_is_odoo_model node); simpl.
  2:{ exists None. split; [done|]. split; [|done]. split; [by intros []|done]. }
  set (inherits := normalize_inherit (py_or (_get_attribute node "_inherit") (PList []))).
  assert (∃ l, inherits = PList l) as [l Hl].
  { subst inherits. destruct (_get_attribute node "_inherit") as [| | |s|l|]; try done.
    - by exists [].
    - unfold py_or. destruct (py_truthy (PStr s)); simpl; by eexists.
    - unfold py_or. destruct (py_truthy (PList l)); simpl; by eexists. }
  rewrite Hl.
  destruct (py_truthy (PList l) && negb (py_truthy (_get_attribute node "_name"))) eqn:Eext.
  - cbn [py_len result_bind].
    destruct (Nat.eqb (length l) 1) eqn:E1.
    + destruct l as [|x [|]]; try discriminate E1. cbn [py_getitem0 result_bind].
      eexists. split; [reflexivity|]. split; [done|]. by intros m [= <-].
    + cbn [result_bind]. eexists. split; [reflexivity|]. split; [done|]. by intros m [= <-].
  - cbn [result_bind]. eexists. split; [reflexivity|]. split; [done|]. by intros m [= <-].
Qed.

Lemma parse_classes_expected module_name file_path nodes :
  Forall (λ node, inherit_expected node = true) nodes →
  ∃ os,
    result_mapM (λ node, _parse_class module_name node file_path) nodes = Ok os
    ∧ map OdooModel.class_name (omap id os)
      = map ast.name (filter (λ node, _is_odoo_model node = true) nodes)
    ∧ Forall (λ m, OdooModel.module m = module_name
                   ∧ OdooModel.file_path m = path_absolute file_path) (omap id os).
Proof.
  induction 1 as [|node nodes Hnode _ (os & E & IH1 & IH2)].
  { exists []. by repeat split. }
  destruct (parse_class_expected module_name node file_path Hnode) as (o & Eo & Ho & Hm).
  exists (o :: os). cbn [result_mapM]. rewrite Eo, E. split; [done|].
  rewrite filter_cons. destruct o as [m|].
  - rewrite decide_True by (apply Ho; by eexists).
    destruct (Hm m eq_refl) as (Hc & Hmod & Hfile).
    change (omap id (Some m :: os)) with (m :: omap id os).
    split; [simpl; by rewrite Hc, IH1|]. by constructor.
  - rewrite decide_False; [done|]. intros H%Ho. by destruct H.
Qed.

(** X12.  [parse_file] is all or nothing.  When every class of the file
    has its [_inherit] absent, a string or a list, the file gives one entity
    per class that derives from [models.Model], [models.TransientModel] or
    [models.AbstractModel], in order, under the class's name, the module's
    name and the file's path.  When parsing one class raises, the file
    gives no entity at all. *)
Theorem X12_parse_file_all_or_nothing module_name file_path nodes :
  (Forall (λ node, inherit_expected node = true) nodes →
   let models := parse_file module_name file_path (Some nodes) in
   map OdooModel.class_name models
   = map ast.name (filter (λ node, _is_odoo_model node = true) nodes)
   ∧ Forall (λ m, OdooModel.module m = module_name
                  ∧ OdooModel.file_path m = path_absolute file_path) models)
  ∧ ((∃ node exc, node ∈ nodes ∧ _parse_class module_name node file_path = Raise exc) →
     parse_file module_name file_path (Some nodes) = []).
Proof.
  split.
  - intros Hnodes. cbv zeta. unfold parse_file.
    by destruct (parse_classes_expected module_name file_path nodes Hnodes)
      as (os & -> & H1 & H2).
  - intros (node & exc & Hin & Hraise). unfold parse_file.
    assert (∃ exc', result_mapM (λ node, _parse_class module_name node file_path) nodes
                    = Raise exc') as [exc' ->]; [|done].
    induction nodes as [|n0 nodes IH]; [by apply elem_of_nil in Hin|].
    cbn [result_mapM]. apply elem_of_cons in Hin as [<-|Hin].
    + rewrite Hraise. by eexists.
    + destruct (_parse_class module_name n0 file_path); cbn [result_bind]; [|by eexists].
      destruct (IH Hin) as [exc' ->]. by eexists.
Qed.

(** [class Partner(models.Model): _inherit = {'res.partner': 'partner_id'}]:
    a dictionary where a list is expected. *)
Definition inherit_as_dict : ast.ClassDef :=
  {| ast.name := "Partner";
     ast.bases := [ast.Attribute (ast.Name "models") "Model"];
     ast.body :=
       [ast.Assign [ast.Name "_inherit"]
          (ast.Dict [(ast.Constant (PStr "res.partner"),
                      ast.Constant (PStr "partner_id"))])] |}.

(** [class Order(models.Model): _name = 'sale.order'] *)
Definition plain_model : ast.ClassDef :=
  {| ast.name := "Order";
     ast.bases := [ast.Attribute (ast.Name "models") "Model"];
     ast.body := [ast.Assign [ast.Name "_name"] (ast.Constant (PStr "sale.order"))] |}.

Lemma X12_parse_file_all_or_nothing_witness :
  let file_path := {| path_name := "models.py"; path_absolute := "/odoo/sale/models.py" |} in
  map OdooModel.class_name (parse_file "sale" file_path (Some [plain_model])) = ["Order"]
  ∧ parse_file "sale" file_path (Some [plain_model; inherit_as_dict]) = [].
Proof.
  pose proof (X12_parse_file_all_or_nothing "sale"
                {| path_name := "models.py"; path_absolute := "/odoo/sale/models.py" |})
    as H.
  split.
  - destruct (H [plain_model]) as [H1 _]. apply H1. by repeat constructor.
  - destruct (H [plain_model; inherit_as_dict]) as [_ H2]. apply H2.
    exists inherit_as_dict, "KeyError". split; [right; left|reflexivity].
Defined.

(** A stored attribute: a keyword of the call, with a name, whose value
    the evaluator accepts. *)
Definition attribute_of (keywords : list (option string * ast.expr))
    (kv : pyval * pyval) : Prop :=
  kv.2 ≠ PNone
  ∧ ∃ arg e, kv.1 = PStr arg ∧ arg ≠ EmptyString
           ∧ (Some arg, e) ∈ keywords ∧ kv.2 = _eval_node e.

Lemma dict_set_str_elem arg v d kv :
  Forall (λ kv, ∃ s, kv.1 = PStr s) d →
  kv ∈ dict_set (PStr arg) v d → kv = (PStr arg, v) ∨ kv ∈ d.
Proof.
  induction 1 as [|[k' v'] d [s Hs] _ IH]; simpl.
  - intros ->%list_elem_of_singleton. by left.
  - simpl in Hs. subst k'. simpl. destruct (String.eqb arg s) eqn:E.
    + apply String.eqb_eq in E as ->.
      intros [->|Hin]%elem_of_cons; [by left|right; by right].
    + intros [->|Hin]%elem_of_cons; [right; left|].
      destruct (IH Hin) as [->|Hd]; [by left|right; by right].
Qed.

(** X13.  The attributes collected from a field call hold no [None]: every
    entry is a named keyword of the call whose value the evaluator accepts,
    under the keyword's name; a keyword whose value it rejects is left
    out. *)
Theorem X13_field_attributes_hold_no_None keywords :
  Forall (attribute_of keywords) (_extract_field_attributes keywords)
  ∧ ∀ arg e, (Some arg, e) ∈ keywords → _eval_node e = PNone →
      (PStr arg, PNone) ∉ _extract_field_attributes keywords.
Proof.
  assert (Forall (attribute_of keywords) (_extract_field_attributes keywords)) as Hall.
  { unfold _extract_field_attributes.
    assert (∀ seen todo acc,
              keywords = seen ++ todo → Forall (attribute_of keywords) acc →
              Forall (attribute_of keywords)
                (fold_left (λ attributes kw,
                   match kw.1 with
                   | Some arg =>
                       if negb (String.eqb arg "") then
                         let value := _eval_node kw.2 in
                         if bool_decide (value = PNone) then attributes
                         else dict_set (PStr arg) value attributes
                       else attributes
                   | None => attributes
                   end) todo acc)) as Hfold.
    { intros seen todo. revert seen.
      induction todo as [|[[arg|] e] todo IH]; intros seen acc Hk Hacc; [done| |].
      - cbn [fold_left fst snd].
        apply (IH (seen ++ [(Some arg, e)])); [by rewrite <-app_assoc|].
        destruct (negb (String.eqb arg "")) eqn:Earg; [|done].
        cbv zeta. case_bool_decide as Hv; [done|].
        apply Forall_forall. intros kv Hin.
        apply dict_set_str_elem in Hin as [->|Hin].
        + split; [done|]. exists arg, e. repeat split; try done.
          * apply negb_true_iff, String.eqb_neq in Earg. done.
          * rewrite Hk. apply elem_of_app. right. left.
        + by apply (proj1 (Forall_forall _ _) Hacc).
        + eapply Forall_impl; [exact Hacc|]. intros kv' (_ & arg' & _ & Hkv & _).
          by exists arg'.
      - cbn [fold_left fst]. apply (IH (seen ++ [(None, e)])); [by rewrite <-app_assoc|done]. }
    by apply (Hfold [] keywords []). }
  split; [done|].
  intros arg e _ _ Hin. apply (proj1 (Forall_forall _ _) Hall) in Hin as [Hne _]. done.
Qed.

(** X14.  Every field the parser reports comes from an assignment to a
    plain name whose value is a call [fields.<Type>(...)]: it carries that
    name and that type, a related entity only when the type is relational,
    and the attributes of the call. *)
Theorem X14_parsed_fields node field :
  field ∈ _parse_fields node →
  ∃ targets func args keywords,
    ast.Assign targets (ast.Call func args keywords) ∈ ast.body node
    ∧ ast.Name (OdooField.name field) ∈ targets
    ∧ func = ast.Attribute (ast.Name "fields") (OdooField.field_type field)
    ∧ OdooField.field_type field ≠ EmptyString
    ∧ (OdooField.field_type field ∉ RELATIONAL_FIELDS →
       OdooField.related_model field = PNone)
    ∧ OdooField.attributes field = PDict (_extract_field_attributes keywords).
Proof.
  unfold _parse_fields. rewrite list_elem_of_In, in_flat_map.
  intros (item & Hitem%list_elem_of_In & Hin).
  destruct item as [targets value|]; [|done].
  apply in_flat_map in Hin as (target & Htarget%list_elem_of_In & Hin).
  destruct target as [| | |id| | |]; try done.
  destruct (_parse_field_definition id value) as [f|] eqn:E; [|done].
  destruct Hin as [<-|[]].
  unfold _parse_field_definition in E.
  destruct value as [| | | | |func args keywords|]; try done.
  destruct (_get_field_type (ast.Call func args keywords)) as [field_type|] eqn:Et; [|done].
  destruct (negb (String.eqb field_type "")) eqn:Ene; [|done].
  injection E as <-. cbn [OdooField.name OdooField.field_type OdooField.related_model
                          OdooField.attributes].
  exists targets, func, args, keywords. repeat split; try done.
  - simpl in Et. destruct func as [| | | |[| | |id'| | |] attr| |]; try done.
    destruct (String.eqb id' "fields") eqn:Eid; [|done].
    apply String.eqb_eq in Eid as ->. by injection Et as ->.
  - by apply negb_true_iff, String.eqb_neq in Ene.
  - intros Hrel.
    change (_ || _) with (existsb (String.eqb field_type) RELATIONAL_FIELDS).
    destruct (existsb (String.eqb field_type) RELATIONAL_FIELDS) eqn:Eex; [|done].
    apply existsb_exists in Eex as (x & Hx%list_elem_of_In & ->%String.eqb_eq). done.
Qed.

Definition partner_assignment : ast.stmt :=
  ast.Assign [ast.Name "partner_id"]
    (ast.Call (ast.Attribute (ast.Name "fields") "Many2one")
       [ast.Constant (PStr "res.partner")]
       [(Some "string", ast.Constant (PStr "Customer"));
        (Some "default", ast.Name "_default_partner")]).

Definition order_class : ast.ClassDef :=
  {| ast.name := "Order";
     ast.bases := [ast.Attribute (ast.Name "models") "Model"];
     ast.body := [ast.Assign [ast.Name "_name"] (ast.Constant (PStr "sale.order"));
                  partner_assignment] |}.

Lemma X14_parsed_fields_witness :
  let field :=
    {| OdooField.name := "partner_id"; OdooField.field_type := "Many2one";
       OdooField.related_model := PStr "res.partner";
       OdooField.attributes := PDict [(PStr "string", PStr "Customer")] |} in
  field ∈ _parse_fields order_class
  ∧ ∃ targets func args keywords,
    ast.Assign targets (ast.Call func args keywords) ∈ ast.body order_class
    ∧ ast.Name (OdooField.name field) ∈ targets
    ∧ func = ast.Attribute (ast.Name "fields") (OdooField.field_type field)
    ∧ OdooField.field_type field ≠ EmptyString
    ∧ (OdooField.field_type field ∉ RELATIONAL_FIELDS →
       OdooField.related_model field = PNone)
    ∧ OdooField.attributes field = PDict (_extract_field_attributes keywords).
Proof.
  split; [left|].
  apply (X14_parsed_fields order_class). left.
Defined.

(** X15.  [parse_directory] takes no entity from a Python file that has
    [test_] anywhere in its name or [__pycache__] anywhere in its path:
    every entity it returns comes from a file of the listing that has
    neither, and carries the module's name. *)
Theorem X15_parse_directory_skips_tests module_name py_files classes_of m :
  m ∈ parse_directory module_name py_files classes_of →
  ∃ py_file,
    py_file ∈ py_files
    ∧ substringb "test_" (path_name py_file) = false
    ∧ substringb "__pycache__" (path_absolute py_file) = false
    ∧ m ∈ parse_file module_name py_file (classes_of py_file).
Proof.
  unfold parse_directory. rewrite list_elem_of_In, in_flat_map.
  intros (py_file & Hfile%list_elem_of_In & Hin).
  destruct (substringb "test_" (path_name py_file)) eqn:E1; [exfalso; exact Hin|].
  destruct (substringb "__pycache__" (path_absolute py_file)) eqn:E2;
    [exfalso; exact Hin|].
  exists py_file. repeat split; try done. by apply list_elem_of_In.
Qed.

Definition order_entity : OdooModel.t :=
  {| OdooModel.name := PStr "sale.order";
     OdooModel.inherits := PList [];
     OdooModel.inherits_models := PDict [];
     OdooModel.description := PStr "";
     OdooModel.fields := [];
     OdooModel.module := "sale";
     OdooModel.file_path := "/odoo/sale/models/order.py";
     OdooModel.class_name := "Order";
     OdooModel.is_abstract := false;
     OdooModel.is_extension := false;
     OdooModel.is_transient := PBool false |}.

Definition order_files : list Path :=
  [{| path_name := "latest_order.py"; path_absolute := "/odoo/sale/models/latest_order.py" |};
   {| path_name := "order.py"; path_absolute := "/odoo/sale/models/order.py" |}].

Lemma X15_parse_directory_skips_tests_witness :
  substringb "test_" "latest_order.py" = true
  ∧ ∃ py_file,
    py_file ∈ order_files
    ∧ substringb "test_" (path_name py_file) = false
    ∧ substringb "__pycache__" (path_absolute py_file) = false
    ∧ order_entity ∈ parse_file "sale" py_file (Some [plain_model]).
Proof.
  split; [reflexivity|].
  apply (X15_parse_directory_skips_tests "sale" order_files (λ _, Some [plain_model])
           order_entity).
  vm_compute. left.
Defined.

(** ** Serialization for the store ([src/utils/serialization.py]) *)

(** [serialize_for_neo4j]: a collection becomes its JSON text, every other
    value of the fragment is kept. *)
Definition serialize_for_neo4j (value : pyval) : result pyval :=
  match value with
  | PNone => Ok PNone
  | PList _ | PDict _ => text <=- json_dumps value ;; Ok (PStr text)
  | PBool _ => Ok value
  | PInt _ | PStr _ => Ok value
  end.

(** [prepared_item[key] = serialize_for_neo4j(value)] for the items of one
    dictionary, in order. *)
Definition prepare_item (item : row) : result row :=
  fold_left (λ prepared_item kv,
               prepared_item <=- prepared_item ;;
               value <=- serialize_for_neo4j kv.2 ;;
               Ok (row_set kv.1 value prepared_item))
            item (Ok []).

(** [prepare_batch_for_neo4j] *)
Definition prepare_batch_for_neo4j (items : list row) : result (list row) :=
  result_mapM prepare_item items.

(** A value the store holds as a property as it is. *)
Definition is_scalar (v : pyval) : bool :=
  match v with
  | PList _ | PDict _ => false
  | _ => true
  end.

Lemma serialize_gives_scalars value value' :
  serialize_for_neo4j value = Ok value' →
  is_scalar value' = true
  ∧ (is_scalar value = true → value' = value)
  ∧ (is_scalar value = false → ∃ text, json_dumps value = Ok text ∧ value' = PStr text).
Proof.
  destruct value as [|b|z|s|l|kvs]; cbn [serialize_for_neo4j is_scalar].
  1-4: by intros [= <-].
  all: destruct (json_dumps _) as [text|]; cbn [result_bind]; [|done].
  all: intros [= <-]; repeat split; [done|]; intros _; by exists text.
Qed.

Lemma row_set_fresh key value (r : row) :
  key ∉ r.*1 → row_set key value r = r ++ [(key, value)].
Proof.
  induction r as [|[k v] r IH]; [done|].
  change (((k, v) :: r).*1) with (k :: r.*1). intros Hk.
  apply not_elem_of_cons in Hk as [Hne Hk].
  cbn [row_set]. apply String.eqb_neq in Hne as ->. by rewrite IH.
Qed.

Lemma prepare_item_spec (item : row) prepared :
  NoDup item.*1 → prepare_item item = Ok prepared →
  Forall2 (λ kv kv', kv'.1 = kv.1 ∧ serialize_for_neo4j kv.2 = Ok kv'.2) item prepared.
Proof.
  unfold prepare_item.
  assert (∀ todo acc prepared,
            NoDup (acc.*1 ++ todo.*1) →
            fold_left (λ prepared_item kv,
                         prepared_item <=- prepared_item ;;
                         value <=- serialize_for_neo4j kv.2 ;;
                         Ok (row_set kv.1 value prepared_item))
                      todo (Ok acc) = Ok prepared →
            ∃ rest, prepared = acc ++ rest
                    ∧ Forall2 (λ kv kv', kv'.1 = kv.1
                                         ∧ serialize_for_neo4j kv.2 = Ok kv'.2)
                              todo rest) as Hfold.
  { induction todo as [|[k v] todo IH]; intros acc prepared' Hnd.
    - simpl. intros [= <-]. exists []. by rewrite app_nil_r.
    - cbn [fold_left result_bind fst snd].
      destruct (serialize_for_neo4j v) as [v'|] eqn:Ev; cbn [result_bind].
      + intros Hrest. change (((k, v) :: todo).*1) with (k :: todo.*1) in Hnd.
        assert (k ∉ acc.*1) as Hk.
        { apply NoDup_app in Hnd as (_ & Hdisj & _). intros Hin.
          apply (Hdisj k Hin). left. }
        rewrite (row_set_fresh _ _ _ Hk) in Hrest.
        destruct (IH (acc ++ [(k, v')]) prepared') as (rest & -> & Hall); [|done|].
        * rewrite fmap_app. cbn [fmap list_fmap fst]. by rewrite <-app_assoc.
        * exists ((k, v') :: rest). rewrite <-app_assoc. split; [done|].
          by constructor.
      + intros Hrest. exfalso. clear -Hrest.
        induction todo as [|kv todo IH]; [done|]. by apply IH. }
  intros Hnd Hitem. destruct (Hfold item [] prepared Hnd Hitem) as (rest & -> & Hall).
  done.
Qed.

(** X16.  When [prepare_batch_for_neo4j] returns, it returns one
    dictionary for each item, with the same keys in the same order; every
    value of it is a scalar: a scalar of the item is kept as it is, a list
    or a dictionary is replaced by its JSON text. *)
Theorem X16_prepared_batch_holds_scalars items prepared :
  Forall (λ item : row, NoDup item.*1) items →
  prepare_batch_for_neo4j items = Ok prepared →
  Forall2 (λ item prepared_item : row,
             Forall2 (λ kv kv' : string * pyval,
                        kv'.1 = kv.1
                        ∧ is_scalar kv'.2 = true
                        ∧ (is_scalar kv.2 = true → kv'.2 = kv.2)
                        ∧ (is_scalar kv.2 = false →
                           ∃ text, json_dumps kv.2 = Ok text ∧ kv'.2 = PStr text))
                     item prepared_item)
          items prepared.
Proof.
  intros Hnd Hprep. apply result_mapM_Forall2 in Hprep.
  induction Hprep as [|item prepared_item items prepared Hitem _ IH]; [constructor|].
  apply Forall_cons in Hnd as [Hnd1 Hnd]. constructor; [|by apply IH].
  apply (prepare_item_spec _ _ Hnd1) in Hitem.
  eapply Forall2_impl; [exact Hitem|].
  intros kv kv' [Hk Hv]. split; [done|]. by apply serialize_gives_scalars.
Qed.

Definition field_item : row :=
  [("name", PStr "partner_id"); ("required", PBool true);
   ("attributes", PDict [(PStr "string", PStr "Customer")]);
   ("depends", PList [PStr "base"])].

Lemma X16_prepared_batch_holds_scalars_witness :
  ∃ prepared,
    prepare_batch_for_neo4j [field_item] = Ok prepared
    ∧ Forall2 (λ item prepared_item : row,
                 Forall2 (λ kv kv' : string * pyval,
                            kv'.1 = kv.1
                            ∧ is_scalar kv'.2 = true
                            ∧ (is_scalar kv.2 = true → kv'.2 = kv.2)
                            ∧ (is_scalar kv.2 = false →
                               ∃ text, json_dumps kv.2 = Ok text ∧ kv'.2 = PStr text))
                         item prepared_item)
              [field_item] prepared.
Proof.
  eexists. split; [vm_compute; reflexivity|].
  apply (X16_prepared_batch_holds_scalars [field_item]).
  - constructor; [|constructor]. apply (bool_decide_unpack _). vm_compute. exact I.
  - vm_compute. reflexivity.
Defined.

(** ** Scanning a directory tree ([src/discovery/module_scanner.py]) *)

(** [MANIFEST_FILES] *)
Definition MANIFEST_FILES : list string := ["__manifest__.py"; "__openerp__.py"].

Section ModuleScan.
Variable fs : file_system.
(** [path.is_dir()], and [manifest_path.read_text(encoding="utf-8")]:
    [None] when reading or decoding raises. *)
Variable is_dir : Path → bool.
Variable read_text : Path → option source_text.

(** [_find_manifest] *)
Definition _find_manifest (module_path : Path) : option Path :=
  (fix loop (names : list string) : option Path :=
     match names with
     | [] => None
     | manifest_name :: names' =>
         let manifest_path := path_join (path_absolute module_path) manifest_name in
         if exists_ fs (path_absolute manifest_path) then Some manifest_path
         else loop names'
     end) MANIFEST_FILES.

(** One turn of the loop of [scan]; [None] when the manifest leaves the
    fragment of [py_eval]. *)
Definition scan_step (modules : option (list OdooModule.t)) (path : Path)
    : option (list OdooModule.t) :=
  modules ← modules;
  if negb (is_dir path) then Some modules
  else
    match _find_manifest path with
    | Some manifest =>
        module ← _parse_module path (read_text manifest);
        match module with
        | Some module => Some (modules ++ [module])
        | None => Some modules
        end
    | None => Some modules
    end.

(** [scan] *)
Definition scan (root_path : string) : option (list OdooModule.t) :=
  fold_left scan_step (rglob fs root_path "*") (Some []).

(** The directories [scan] reports: those in which the first manifest
    file that exists, [__manifest__.py] before [__openerp__.py], can be
    read. *)
Definition module_directory (path : Path) : bool :=
  let manifest := path_join (path_absolute path) "__manifest__.py" in
  let openerp := path_join (path_absolute path) "__openerp__.py" in
  is_dir path
  && (if exists_ fs (path_absolute manifest) then bool_decide (is_Some (read_text manifest))
      else exists_ fs (path_absolute openerp)
           && bool_decide (is_Some (read_text openerp))).

Lemma scan_step_None paths : fold_left scan_step paths None = None.
Proof. by induction paths. Qed.

Lemma scan_step_spec modules path :
  scan_step (Some modules) path = None
  ∨ (module_directory path = false ∧ scan_step (Some modules) path = Some modules)
  ∨ (module_directory path = true
     ∧ ∃ module, scan_step (Some modules) path = Some (modules ++ [module])
                 ∧ OdooModule.name module = path_name path
                 ∧ OdooModule.path module = path_absolute path).
Proof.
  unfold scan_step, module_directory, _find_manifest, MANIFEST_FILES.
  cbn [mbind option_bind].
  destruct (is_dir path); cbn [negb andb]; [|right; by left].
  destruct (exists_ fs (path_absolute (path_join (path_absolute path) "__manifest__.py")));
    [|destruct (exists_ fs (path_absolute
                              (path_join (path_absolute path) "__openerp__.py")));
      cbn [andb]; [|right; by left]].
  all: match goal with
       | |- context [read_text ?p] => destruct (read_text p) as [content|]
       end.
  2,4: right; left; split; [by apply bool_decide_eq_false; intros [? ?]|done].
  all: unfold _parse_module; destruct (_safe_eval_manifest content);
    cbn [option_bind mbind]; [|by left].
  all: right; right; split; [by apply bool_decide_eq_true|]; by eexists.
Qed.

Lemma scan_fold paths modules found :
  fold_left scan_step paths (Some modules) = Some found →
  ∃ new,
    found = modules ++ new
    ∧ map (λ module, (OdooModule.name module, OdooModule.path module)) new
      = map (λ path, (path_name path, path_absolute path))
            (filter (λ path, module_directory path = true) paths).
Proof.
  revert modules. induction paths as [|path paths IH]; intros modules.
  - intros [= <-]. exists []. by rewrite app_nil_r.
  - cbn [fold_left]. rewrite filter_cons.
    destruct (scan_step_spec modules path)
      as [->|[[Hdir ->]|(Hdir & module & -> & Hname & Hpath)]].
    + by rewrite scan_step_None.
    + rewrite decide_False by (by rewrite Hdir). apply IH.
    + rewrite decide_True by done.
      intros (new & -> & Hnew)%IH. exists (module :: new). rewrite <-app_assoc.
      split; [done|]. cbn [map]. by rewrite Hname, Hpath, Hnew.
Qed.

(** X17.  When [scan] returns, it reports one module for each directory of
    the tree in which the first manifest file that exists
    ([__manifest__.py] before [__openerp__.py]) can be read, in the order
    of the traversal and under the directory's name and path.  A directory
    whose [__manifest__.py] exists but cannot be read is skipped even if it
    has a readable [__openerp__.py]. *)
Theorem X17_scan_reports_module_directories root_path modules :
  scan root_path = Some modules →
  map (λ module, (OdooModule.name module, OdooModule.path module)) modules
  = map (λ path, (path_name path, path_absolute path))
        (filter (λ path, module_directory path = true) (rglob fs root_path "*")).
Proof.
  intros H. by apply scan_fold in H as (new & -> & Hnew).
Qed.

End ModuleScan.

(** A tree with three directories: [sale] with a [__manifest__.py],
    [stock] whose [__manifest__.py] cannot be read beside an
    [__openerp__.py], and [crm] with an [__openerp__.py] only. *)
Definition addons_fs : file_system :=
  {| read_bytes := λ _, None;
     exists_ := λ path,
       bool_decide (path ∈ ["/addons/sale/__manifest__.py";
                            "/addons/stock/__manifest__.py";
                            "/addons/stock/__openerp__.py";
                            "/addons/crm/__openerp__.py"]);
     rglob := λ _ _,
       [ {| path_name := "sale"; path_absolute := "/addons/sale" |};
         {| path_name := "__manifest__.py";
            path_absolute := "/addons/sale/__manifest__.py" |};
         {| path_name := "stock"; path_absolute := "/addons/stock" |};
         {| path_name := "crm"; path_absolute := "/addons/crm" |} ] |}.

Definition addons_is_dir (path : Path) : bool :=
  negb (String.eqb (path_name path) "__manifest__.py").

Definition addons_read_text (path : Path) : option source_text :=
  if String.eqb (path_absolute path) "/addons/stock/__manifest__.py" then None
  else Some (Source (ast.Dict [(ast.Constant (PStr "depends"),
                                ast.List [ast.Constant (PStr "base")])])).

Lemma X17_scan_reports_module_directories_witness :
  ∃ modules,
    scan addons_fs addons_is_dir addons_read_text "/addons" = Some modules
    ∧ map (λ module, (OdooModule.name module, OdooModule.path module)) modules
      = [("sale", "/addons/sale"); ("crm", "/addons/crm")].
Proof.
  eexists. split; [vm_compute; reflexivity|].
  apply (X17_scan_reports_module_directories addons_fs addons_is_dir addons_read_text
           "/addons").
  vm_compute. reflexivity.
Defined.

(** [get_module_dependencies_graph]: the dictionary of the comprehension,
    with its keys in insertion order. *)
Definition get_module_dependencies_graph (modules : list OdooModule.t) : row :=
  fold_left (λ graph module,
               row_set (OdooModule.name module) (OdooModule.depends module) graph)
            modules [].

Lemma row_lookup_set key key' value (r : row) :
  row_lookup key (row_set key' value r)
  = if decide (key = key') then Some value else row_lookup key r.
Proof.
  induction r as [|[k v] r IH]; cbn [row_set row_lookup].
  - destruct (String.eqb_spec key key'); by case_decide.
  - destruct (String.eqb_spec key' k) as [->|Hne]; cbn [row_lookup].
    + destruct (String.eqb_spec key k); by case_decide.
    + destruct (String.eqb_spec key k) as [->|Hne'].
      * by rewrite decide_False.
      * done.
Qed.

Lemma row_set_keys key value (r : row) :
  (row_set key value r).*1 = if bool_decide (key ∈ r.*1) then r.*1 else r.*1 ++ [key].
Proof.
  induction r as [|[k v] r IH]; [done|].
  cbn [row_set]. destruct (String.eqb key k) eqn:E.
  - apply String.eqb_eq in E as ->. rewrite bool_decide_true by (cbn; left). done.
  - apply String.eqb_neq in E.
    change (((k, v) :: row_set key value r).*1) with (k :: (row_set key value r).*1).
    change (((k, v) :: r).*1) with (k :: r.*1).
    rewrite IH.
    destruct (decide (key ∈ r.*1)) as [Hin|Hin].
    + rewrite !bool_decide_true; [done|by right|done].
    + rewrite !bool_decide_false; [done| |done].
      by intros [?|?]%elem_of_cons.
Qed.

Lemma row_set_keys_nodup key value (r : row) :
  NoDup r.*1 → NoDup (row_set key value r).*1.
Proof.
  intros Hnd. rewrite row_set_keys. case_bool_decide as Hin; [done|].
  apply NoDup_app. split_and!; [done| |apply NoDup_singleton].
  intros k Hk ->%list_elem_of_singleton. done.
Qed.

(** X18.  [get_module_dependencies_graph] has one entry for each module
    name: a name that no module has is absent, and when several modules
    have the same name the entry holds the dependencies of the last of
    them. *)
Theorem X18_dependencies_graph_last_wins (modules : list OdooModule.t) name :
  let graph := get_module_dependencies_graph modules in
  NoDup graph.*1
  ∧ (∀ key, key ∈ graph.*1 ↔ key ∈ map OdooModule.name modules)
  ∧ row_lookup name graph
    = OdooModule.depends
        <$> last (filter (λ module, OdooModule.name module = name) modules).
Proof.
  unfold get_module_dependencies_graph.
  induction modules as [|module modules IH] using rev_ind.
  - cbn. split_and!; [constructor|set_solver|done].
  - rewrite fold_left_app. cbn [fold_left]. cbn zeta in IH.
    destruct IH as (Hnd & Hkeys & Hlookup). split_and!.
    + by apply row_set_keys_nodup.
    + intros key. rewrite row_set_keys, map_app, elem_of_app. cbn [map].
      rewrite list_elem_of_singleton, <-Hkeys.
      case_bool_decide as Hin; [|rewrite elem_of_app, list_elem_of_singleton; tauto].
      split; [tauto|]. intros [?| ->]; done.
    + rewrite row_lookup_set, filter_app, filter_cons, filter_nil.
      case_decide as Hname; subst.
      * rewrite decide_True by done. by rewrite last_snoc.
      * rewrite decide_False by done. by rewrite app_nil_r.
Qed.

(** ** Presentation parser ([src/parsers/view_parser.py]) *)

(** An element of the tree [lxml] builds: its tag, attributes, the text
    before its first child and its children, in document order.  A
    comment or processing instruction is a node whose tag is no name. *)
Inductive element : Type :=
  | Element (tag : string) (attrib : list (string * string)) (text : option string)
            (children : list element).

Definition element_tag (e : element) : string :=
  match e with Element tag _ _ _ => tag end.

Definition element_text (e : element) : option string :=
  match e with Element _ _ text _ => text end.

Definition element_children (e : element) : list element :=
  match e with Element _ _ _ children => children end.

(** [e.get(key)] *)
Definition element_get (e : element) (key : string) : option string :=
  match e with
  | Element _ attrib _ _ => snd <$> List.find (λ kv, String.eqb kv.1 key) attrib
  end.

(** The descendants of an element in document order, itself excluded. *)
Fixpoint descendants (e : element) : list element :=
  match e with
  | Element _ _ _ children => flat_map (λ child, child :: descendants child) children
  end.

(** [record.find(".//field[@name='<field_name>']")] *)
Definition find_field (record : element) (field_name : string) : option element :=
  List.find (λ e, String.eqb (element_tag e) "field"
                  && bool_decide (element_get e "name" = Some field_name))
            (descendants record).

(** [value or default] for an optional string. *)
Definition str_or (value : option string) (default : string) : string :=
  match value with
  | Some (String c s) => String c s
  | _ => default
  end.

Section ViewParser.
Variable module_name : string.
(** [str.isdigit], [int] ([None] when it raises) and [etree.tostring] are
    the library's. *)
Variable isdigit : string → bool.
Variable int : string → option Z.
Variable tostring : element → string.
(** [etree.parse(str(file_path)).getroot()], [None] when it raises. *)
Variable parse : Path → option element.

(** [_get_field_value] *)
Definition _get_field_value (record : element) (field_name : string) : option string :=
  match find_field record field_name with
  | Some field => element_text field
  | None => None
  end.

(** [_get_field_ref] *)
Definition _get_field_ref (record : element) (field_name : string) : option string :=
  match find_field record field_name with
  | Some field => element_get field "ref"
  | None => None
  end.

(** [_get_field_arch] *)
Definition _get_field_arch (record : element) : string :=
  match find_field record "arch" with
  | Some arch_field =>
      String.concat ""
        ((match element_text arch_field with
          | Some (String c s) => [String c s]
          | _ => []
          end) ++ map tostring (element_children arch_field))
  | None => ""
  end.

(** [_parse_view_record]; an exception gives [None]. *)
Definition _parse_view_record (record : element) (file_path : Path)
    : option OdooView.t :=
  match element_get record "id" with
  | Some (String c s) =>
      let xml_id := String c s in
      let full_xml_id := module_name +:+ "." +:+ xml_id in
      let name := str_or (_get_field_value record "name") xml_id in
      let model := _get_field_value record "model" in
      let view_type := str_or (_get_field_value record "type") "form" in
      let inherit_id := _get_field_ref record "inherit_id" in
      let priority := str_or (_get_field_value record "priority") "16" in
      let arch := _get_field_arch record in
      match model with
      | Some (String c' s') =>
          priority ← (if isdigit priority then int priority else Some 16%Z);
          Some {| OdooView.xml_id := PStr full_xml_id;
                  OdooView.name := PStr name;
                  OdooView.model := PStr (String c' s');
                  OdooView.view_type := PStr view_type;
                  OdooView.inherit_id := from_option PStr PNone inherit_id;
                  OdooView.module := PStr module_name;
                  OdooView.file_path := PStr (path_absolute file_path);
                  OdooView.priority := PInt priority;
                  OdooView.arch := PStr arch |}
      | _ => None
      end
  | _ => None
  end.

(** [root.xpath("//record[@model='ir.ui.view']")] *)
Definition view_records (root : element) : list element :=
  List.filter (λ e, String.eqb (element_tag e) "record"
                    && bool_decide (element_get e "model" = Some "ir.ui.view"))
              (root :: descendants root).

(** [ViewParser.parse_file] *)
Definition view_parse_file (file_path : Path) : list OdooView.t :=
  match parse file_path with
  | Some root =>
      omap (λ record, _parse_view_record record file_path) (view_records root)
  | None => []
  end.

Lemma append_truthy (a b : string) : py_truthy (PStr (a +:+ "." +:+ b)) = true.
Proof. by destruct a. Qed.

(** X19.  Every view that [parse_file] emits comes from a [record]
    element of the file with [model="ir.ui.view"] and a non-empty [id]; its
    identifier is the module name, a dot and that [id], and its model is
    the non-empty text of the record's [model] field.  The transformer
    therefore keeps it: it adds the view's row, and an inheritance row
    exactly when the [inherit_id] field has a non-empty [ref], with the
    reference as it is written. *)
Theorem X19_parsed_views_are_kept file_path view :
  view ∈ view_parse_file file_path →
  ∃ root record xml_id model,
    parse file_path = Some root
    ∧ record ∈ root :: descendants root
    ∧ element_tag record = "record"
    ∧ element_get record "model" = Some "ir.ui.view"
    ∧ element_get record "id" = Some xml_id ∧ xml_id ≠ ""
    ∧ _get_field_value record "model" = Some model ∧ model ≠ ""
    ∧ OdooView.xml_id view = PStr (module_name +:+ "." +:+ xml_id)
    ∧ OdooView.model view = PStr model
    ∧ OdooView.module view = PStr module_name
    ∧ length (views (organize_view view)) = 1
    ∧ view_inheritances (organize_view view)
      = match _get_field_ref record "inherit_id" with
        | Some (String c s) =>
            [[("child", PStr (module_name +:+ "." +:+ xml_id));
              ("parent", PStr (String c s))]]
        | _ => []
        end.
Proof.
  unfold view_parse_file. destruct (parse file_path) as [root|]; [|by intros ?%elem_of_nil].
  intros (record & Hrec & Hview)%list_elem_of_omap.
  unfold view_records in Hrec. apply list_elem_of_In, filter_In in Hrec as [Hin Hrec].
  apply andb_true_iff in Hrec as [Htag%String.eqb_eq Hmodel%bool_decide_eq_true].
  unfold _parse_view_record in Hview.
  destruct (element_get record "id") as [[|c s]|] eqn:Eid; try done.
  destruct (_get_field_value record "model") as [[|c' s']|] eqn:Emodel; try done.
  destruct (if isdigit _ then _ else _) as [priority|]; [|done].
  cbn [mbind option_bind] in Hview. injection Hview as <-.
  exists root, record, (String c s), (String c' s').
  split_and!; try done; [by apply list_elem_of_In|..].
  - unfold organize_view. cbn [OdooView.xml_id OdooView.model].
    by rewrite append_truthy.
  - unfold organize_view. cbn [OdooView.xml_id OdooView.model OdooView.inherit_id].
    rewrite append_truthy. cbn [py_truthy negb orb view_inheritances].
    by destruct (_get_field_ref record "inherit_id") as [[|??]|].
Qed.

End ViewParser.

(** [str.isdigit] and [int] on ASCII text. *)
Definition ascii_isdigit (s : string) : bool :=
  negb (String.eqb s "")
  && forallb (λ c, (48 <=? nat_of_ascii c) && (nat_of_ascii c <=? 57))
             (list_ascii_of_string s).

Definition ascii_int (s : string) : option Z :=
  Z.of_uint <$> NilEmpty.uint_of_string s.

(** The file [views/order.xml] of the module [sale]: one view that extends
    another. *)
Definition order_xml : element :=
  Element "odoo" [] None
    [Element "record" [("id", "view_order_form_inherit"); ("model", "ir.ui.view")] None
       [Element "field" [("name", "name")] (Some "sale.order.form.inherit") [];
        Element "field" [("name", "model")] (Some "sale.order") [];
        Element "field" [("name", "inherit_id"); ("ref", "sale.view_order_form")] None [];
        Element "field" [("name", "priority")] (Some "20") []]].

Definition order_xml_path : Path :=
  {| path_name := "order.xml"; path_absolute := "/odoo/sale/views/order.xml" |}.

Lemma X19_parsed_views_are_kept_witness :
  let parse_file :=
    view_parse_file "sale" ascii_isdigit ascii_int (λ _, "") (λ _, Some order_xml) in
  parse_file order_xml_path = [inherited_view]
  ∧ ∃ root record xml_id model,
      Some order_xml = Some root
      ∧ record ∈ root :: descendants root
      ∧ element_tag record = "record"
      ∧ element_get record "model" = Some "ir.ui.view"
      ∧ element_get record "id" = Some xml_id ∧ xml_id ≠ ""
      ∧ _get_field_value record "model" = Some model ∧ model ≠ ""
      ∧ OdooView.xml_id inherited_view = PStr ("sale" +:+ "." +:+ xml_id)
      ∧ OdooView.model inherited_view = PStr model
      ∧ OdooView.module inherited_view = PStr "sale"
      ∧ length (views (organize_view inherited_view)) = 1
      ∧ view_inheritances (organize_view inherited_view)
        = match _get_field_ref record "inherit_id" with
          | Some (String c s) =>
              [[("child", PStr ("sale" +:+ "." +:+ xml_id));
                ("parent", PStr (String c s))]]
          | _ => []
          end.
Proof.
  split; [vm_compute; reflexivity|].
  apply (X19_parsed_views_are_kept "sale" ascii_isdigit ascii_int (λ _, "")
           (λ _, Some order_xml) order_xml_path inherited_view).
  vm_compute. left.
Defined.

(** ** The attribute evaluator on literals *)

(** An expression built from constants, list displays and dictionary
    displays only. *)
Fixpoint display (node : ast.expr) : bool :=
  match node with
  | ast.Constant _ => true
  | ast.List elts => forallb display elts
  | ast.Dict items => forallb (λ kv, display kv.1 && display kv.2) items
  | _ => false
  end.

Fixpoint expr_size (node : ast.expr) : nat :=
  match node with
  | ast.List elts => S (list_sum (map expr_size elts))
  | ast.Dict items => S (list_sum (map (λ kv, expr_size kv.1 + expr_size kv.2) items))
  | _ => 1
  end.

Lemma eval_node_agrees_sized n globals scope node value :
  expr_size node ≤ n →
  display node = true →
  py_eval globals scope node = Some (Ok value) →
  _eval_node node = value.
Proof.
  revert node value. induction n as [|n IH]; intros node value Hsize Hdisplay.
  { destruct node; cbn in Hsize; lia. }
  destruct node as [v|elts|items| | | |]; try done.
  - cbn. by intros [= <-].
  - cbn [py_eval _eval_node]. cbn [expr_size display] in Hsize, Hdisplay.
    match goal with
    | |- context [?g elts] =>
        lazymatch type of g with
        | list ast.expr → option _ => set (go := g)
        end
    end.
    assert (∀ vs, go elts = Some (Ok vs) → map _eval_node elts = vs) as Hgo.
    { assert (list_sum (map expr_size elts) ≤ n) as Hle by lia. clear Hsize.
      induction elts as [|x elts IHelts]; intros vs.
      - cbn. by intros [= <-].
      - cbn [go]. fold go. cbn [map list_sum fold_right forallb] in *.
        apply andb_true_iff in Hdisplay as [Hx Helts].
        destruct (py_eval globals scope x) as [[v|]|] eqn:Ex; try done.
        destruct (go elts) as [[vs'|]|] eqn:Eelts; try done.
        intros [= <-]. f_equal.
        + apply IH; [lia|done|done].
        + apply IHelts; [done|unfold list_sum; lia|done]. }
    destruct (go elts) as [[vs|]|]; try done.
    intros [= <-]. by rewrite (Hgo vs).
  - cbn [py_eval _eval_node]. cbn [expr_size display] in Hsize, Hdisplay.
    match goal with
    | |- context [?g items] =>
        lazymatch type of g with
        | list (ast.expr * ast.expr) → option _ => set (go := g)
        end
    end.
    assert (∀ kvs, go items = Some (Ok kvs)
                   → map (λ kv, (_eval_node kv.1, _eval_node kv.2)) items = kvs) as Hgo.
    { assert (list_sum (map (λ kv, expr_size kv.1 + expr_size kv.2) items) ≤ n) as Hle
        by lia.
      clear Hsize.
      induction items as [|[k x] items IHitems]; intros kvs.
      - cbn. by intros [= <-].
      - cbn [go]. fold go. cbn [map list_sum fold_right forallb fst snd] in *.
        apply andb_true_iff in Hdisplay as [[Hk Hx]%andb_true_iff Hitems].
        destruct (py_eval globals scope k) as [[kv|]|] eqn:Ek; try done.
        destruct (py_eval globals scope x) as [[xv|]|] eqn:Ex; try done.
        destruct (go items) as [[kvs'|]|] eqn:Eitems; try done.
        intros [= <-]. f_equal.
        + f_equal; apply IH; (lia || done).
        + apply IHitems; [done|unfold list_sum; lia|done]. }
    destruct (go items) as [[kvs|]|]; try done.
    rewrite (Hgo kvs eq_refl).
    destruct (dict_build [] kvs) as [d|]; cbn [result_bind]; [|done].
    by intros [= <-].
Qed.

(** X20.  On an expression built from constants, list displays and
    dictionary displays, the attribute evaluator [_eval_node] gives the
    value Python's [eval] gives, whenever [eval] gives one; the manifest
    evaluator then reads a dictionary display as [_eval_node] does. *)
Theorem X20_eval_node_agrees_with_eval node :
  display node = true →
  (∀ globals scope value,
     py_eval globals scope node = Some (Ok value) → _eval_node node = value)
  ∧ (∀ manifest_data,
       py_eval namespace [] node = Some (Ok (PDict manifest_data)) →
       _safe_eval_manifest (Source node) = Some manifest_data
       ∧ _eval_node node = PDict manifest_data).
Proof.
  intros Hdisplay. split.
  - intros globals scope value. by apply (eval_node_agrees_sized (expr_size node)).
  - intros manifest_data Heval. split.
    + unfold _safe_eval_manifest. by rewrite Heval.
    + by apply (eval_node_agrees_sized (expr_size node) namespace []).
Qed.

Definition sale_manifest : ast.expr :=
  ast.Dict [(ast.Constant (PStr "name"), ast.Constant (PStr "Sales"));
            (ast.Constant (PStr "depends"),
             ast.List [ast.Constant (PStr "base"); ast.Constant (PStr "product")]);
            (ast.Constant (PStr "installable"), ast.Constant (PBool true))].

Lemma X20_eval_node_agrees_with_eval_witness :
  display sale_manifest = true
  ∧ _safe_eval_manifest (Source sale_manifest)
    = Some [(PStr "name", PStr "Sales");
            (PStr "depends", PList [PStr "base"; PStr "product"]);
            (PStr "installable", PBool true)]
  ∧ _eval_node sale_manifest
    = PDict [(PStr "name", PStr "Sales");
             (PStr "depends", PList [PStr "base"; PStr "product"]);
             (PStr "installable", PBool true)].
Proof.
  split; [reflexivity|].
  apply (X20_eval_node_agrees_with_eval sale_manifest); reflexivity.
Defined.

(** ** The rows the transformer emits *)









(** ** The loader's entry point for views *)

(** [view.to_dict()] *)
Definition view_to_dict (view : OdooView.t) : row :=
  [("xml_id", OdooView.xml_id view);
   ("name", OdooView.name view);
   ("model", OdooView.model view);
   ("view_type", OdooView.view_type view);
   ("inherit_id", OdooView.inherit_id view);
   ("module", OdooView.module view);
   ("file_path", OdooView.file_path view);
   ("priority", OdooView.priority view);
   ("arch", OdooView.arch view)].

(** The two relationship queries of [load_views]; they read the keys of a
    view dictionary. *)
Definition rel_module_query : query :=
  {| q_match := [view_node "xml_id"; module_node "module"];
     q_update :=
       [MERGE_rel REL_MODULE_CONTAINS_VIEW (module_node "module") (view_node "xml_id")] |}.

Definition rel_model_query : query :=
  {| q_match := [view_node "xml_id"; model_node "model"];
     q_update :=
       [MERGE_rel REL_VIEW_FOR_MODEL (view_node "xml_id") (model_node "model")] |}.

(** The rows [_load_view_inheritance] builds for one view. *)
Definition view_inheritance_rows (view : row) : result (list row) :=
  if py_truthy (row_get "inherit_id" view) then
    child <=- row_item "xml_id" view ;;
    parent <=- row_item "inherit_id" view ;;
    Ok [[("child", child); ("parent", parent)]]
  else Ok [].

(** [_load_view_inheritance] *)
Definition _load_view_inheritance (fail : nat → bool) (views : list row)
    (self : Neo4jLoader) : result Neo4jLoader :=
  inheritances <=- result_mapM view_inheritance_rows views ;;
  match concat inheritances with
  | [] => Ok self
  | inheritances =>
      r <=- _batch_execute fail q_view_inheritances inheritances self ;; Ok r.1
  end.

(** [load_views]; the four oracles tell which batches of its sub-steps
    raise. *)
Definition load_views (fail_nodes fail_module fail_model fail_inherit : nat → bool)
    (views : list row) (self : Neo4jLoader) : result Neo4jLoader :=
  let valid_views :=
    filter (λ v, py_truthy (row_get "xml_id" v) && py_truthy (row_get "model" v) = true)
           views in
  match valid_views with
  | [] => Ok self
  | _ =>
      r <=- _batch_execute fail_nodes q_views valid_views self ;;
      r <=- _batch_execute fail_module rel_module_query valid_views r.1 ;;
      r <=- _batch_execute fail_model rel_model_query valid_views r.1 ;;
      _load_view_inheritance fail_inherit valid_views r.1
  end.

(** Two queries that do the same for two rows. *)
Definition same_effect (q q' : query) (r r' : row) : Prop :=
  (∀ g, forallb (λ p, matches g p r) (q_match q)
        = forallb (λ p, matches g p r') (q_match q'))
  ∧ Forall2 (λ c c', ∀ g, exec_clause c r g = exec_clause c' r' g)
            (q_update q) (q_update q').

Lemma fold_clauses_no_rows cs g :
  fold_left (λ g c, fold_left (λ g r, exec_clause c r g) [] g) cs g = g.
Proof. by induction cs. Qed.

Lemma fold_rows_same c c' selected selected' g :
  Forall2 (λ r r', ∀ g, exec_clause c r g = exec_clause c' r' g) selected selected' →
  fold_left (λ g r, exec_clause c r g) selected g
  = fold_left (λ g r, exec_clause c' r g) selected' g.
Proof.
  intros H. revert g. induction H as [|r r' ?? Hr _ IH]; intros g; [done|].
  cbn [fold_left]. by rewrite Hr, IH.
Qed.

Lemma fold_clauses_same cs cs' selected selected' g :
  Forall2 (λ r r', Forall2 (λ c c', ∀ g, exec_clause c r g = exec_clause c' r' g) cs cs')
          selected selected' →
  fold_left (λ g c, fold_left (λ g r, exec_clause c r g) selected g) cs g
  = fold_left (λ g c, fold_left (λ g r, exec_clause c r g) selected' g) cs' g.
Proof.
  intros Hsel. destruct Hsel as [|r r' selected selected' Hr Hsel].
  { by rewrite !fold_clauses_no_rows. }
  assert (Forall2 (λ r r', Forall2 (λ c c', ∀ g, exec_clause c r g = exec_clause c' r' g)
                                   cs cs') (r :: selected) (r' :: selected')) as Hall
    by (by constructor).
  clear Hsel. revert Hall. generalize (r :: selected) (r' :: selected').
  clear selected selected'. intros selected selected'.
  revert g. induction Hr as [|c c' cs cs' _ _ IH]; intros g Hall; [done|].
  cbn [fold_left]. rewrite (fold_rows_same c c' selected selected').
  - apply IH. eapply Forall2_impl; [exact Hall|].
    intros x y Hxy. by apply Forall2_cons_1 in Hxy as [_ ?].
  - eapply Forall2_impl; [exact Hall|].
    intros x y Hxy. by apply Forall2_cons_1 in Hxy as [? _].
Qed.

Lemma run_query_same_effect q q' g rows rows' :
  Forall2 (same_effect q q') rows rows' →
  run_query q g rows = run_query q' g rows'.
Proof.
  intros Hrows. unfold run_query. apply fold_clauses_same.
  induction Hrows as [|r r' rows rows' [Hm Hc] _ IH]; [constructor|].
  rewrite !filter_cons, (Hm g).
  destruct (forallb _ (q_match q')); [|done].
  rewrite !decide_True by done. by constructor.
Qed.

Lemma batch_execute_same_effect fail q q' data data' self :
  Forall2 (same_effect q q') data data' →
  _batch_execute fail q data self = _batch_execute fail q' data' self.
Proof.
  intros Hdata. unfold _batch_execute.
  pose proof (Forall2_length _ _ _ Hdata) as Hlen.
  destruct Hdata as [|r r' data data' Hr Hdata]; [done|].
  assert (Forall2 (same_effect q q') (r :: data) (r' :: data')) as Hall by (by constructor).
  clear Hr Hdata. revert Hlen Hall. generalize (r :: data) (r' :: data').
  clear r r' data data'. intros data data' Hlen Hall.
  destruct (Nat.eqb (batch_size self) 0); [done|]. cbn zeta. rewrite <-Hlen.
  assert (∀ batches st,
            fold_left (batch_step fail q data) batches st
            = fold_left (batch_step fail q' data') batches st) as ->; [|done].
  induction batches as [|i batches IH]; intros st; [done|].
  cbn [fold_left]. rewrite IH. f_equal.
  unfold batch_step. cbn zeta.
  assert (Forall2 (same_effect q q') (batch_of (batch_size (loop_self st)) data i)
                  (batch_of (batch_size (loop_self st)) data' i)) as Hbatch.
  { unfold batch_of. by apply Forall2_take, Forall2_drop. }
  rewrite (Forall2_length _ _ _ Hbatch).
  by rewrite (run_query_same_effect q q' _ _ _ Hbatch).
Qed.

(** The views the transformer keeps. *)
Definition kept_views (all_views : list OdooView.t) : list OdooView.t :=
  filter (λ view, py_truthy (OdooView.xml_id view) = true
                  ∧ py_truthy (OdooView.model view) = true) all_views.

Lemma valid_views_kept all_views :
  filter (λ v, py_truthy (row_get "xml_id" v) && py_truthy (row_get "model" v) = true)
         (map view_to_dict all_views)
  = map view_to_dict (kept_views all_views).
Proof.
  unfold kept_views. induction all_views as [|view all_views IH]; [done|].
  cbn [map]. rewrite !filter_cons, IH.
  change (row_get "xml_id" (view_to_dict view)) with (OdooView.xml_id view).
  change (row_get "model" (view_to_dict view)) with (OdooView.model view).
  destruct (py_truthy (OdooView.xml_id view)), (py_truthy (OdooView.model view));
    cbn [andb].
  1: by rewrite !decide_True.
  all: rewrite decide_False by done; rewrite decide_False by (intros [? ?]; done); done.
Qed.

Lemma dataset_eq (a b : dataset) :
  modules a = modules b → models a = models b → views a = views b →
  fields a = fields b → module_dependencies a = module_dependencies b →
  model_module_rels a = model_module_rels b →
  model_inheritances a = model_inheritances b →
  model_delegations a = model_delegations b →
  field_model_rels a = field_model_rels b → field_references a = field_references b →
  view_module_rels a = view_module_rels b → view_model_rels a = view_model_rels b →
  view_inheritances a = view_inheritances b → a = b.
Proof. destruct a, b; cbn; congruence. Qed.

Lemma concat_organize_views (f : dataset → list row) all_views :
  f empty_data = [] →
  concat (map f (map organize_view all_views))
  = concat (map f (map organize_view (kept_views all_views))).
Proof.
  intros Hf. unfold kept_views. induction all_views as [|view all_views IH]; [done|].
  cbn [map concat]. rewrite filter_cons, IH.
  case_decide as Hvalid; [done|].
  unfold organize_view at 1.
  destruct (py_truthy (OdooView.xml_id view)), (py_truthy (OdooView.model view));
    cbn [negb orb]; try by rewrite Hf.
  by destruct Hvalid.
Qed.

(** The dataset of views alone holds the rows of the kept views. *)
Lemma organize_views_only all_views d :
  organize_data_for_loading [] [] all_views = Ok d →
  d = fold_left data_extend (map organize_view (kept_views all_views)) empty_data.
Proof.
  unfold organize_data_for_loading. cbn [result_mapM result_bind app].
  intros [= <-].
  apply dataset_eq.
  all: match goal with
       | |- ?f _ = _ =>
           rewrite !(fold_data_extend_proj f) by done; f_equal;
           by rewrite (concat_organize_views f)
       end.
Qed.

(** The rows the transformer emits for a kept view. *)
Definition view_row (view : OdooView.t) : row :=
  [("xml_id", OdooView.xml_id view);
   ("name", OdooView.name view);
   ("model", OdooView.model view);
   ("view_type", OdooView.view_type view);
   ("module", OdooView.module view);
   ("file_path", OdooView.file_path view);
   ("priority", OdooView.priority view)].

Definition view_module_row (view : OdooView.t) : row :=
  [("view_xml_id", OdooView.xml_id view); ("module", OdooView.module view)].

Definition view_model_row (view : OdooView.t) : row :=
  [("view_xml_id", OdooView.xml_id view); ("model", OdooView.model view)].

Definition view_inheritance_of (view : OdooView.t) : list row :=
  if py_truthy (OdooView.inherit_id view) then
    [[("child", OdooView.xml_id view); ("parent", OdooView.inherit_id view)]]
  else [].

Lemma organize_kept_view view :
  py_truthy (OdooView.xml_id view) = true →
  py_truthy (OdooView.model view) = true →
  organize_view view
  = {| modules := []; models := []; views := [view_row view]; fields := [];
       module_dependencies := []; model_module_rels := [];
       model_inheritances := []; model_delegations := [];
       field_model_rels := []; field_references := [];
       view_module_rels := [view_module_row view];
       view_model_rels := [view_model_row view];
       view_inheritances := view_inheritance_of view |}.
Proof. intros Hx Hm. unfold organize_view. by rewrite Hx, Hm. Qed.

Lemma kept_views_valid all_views :
  Forall (λ view, py_truthy (OdooView.xml_id view) = true
                  ∧ py_truthy (OdooView.model view) = true) (kept_views all_views).
Proof.
  apply Forall_forall. intros view Hview.
  by apply list_elem_of_filter in Hview as [? _].
Qed.

Lemma organize_kept_views kept :
  Forall (λ view, py_truthy (OdooView.xml_id view) = true
                  ∧ py_truthy (OdooView.model view) = true) kept →
  fold_left data_extend (map organize_view kept) empty_data
  = {| modules := []; models := []; views := map view_row kept; fields := [];
       module_dependencies := []; model_module_rels := [];
       model_inheritances := []; model_delegations := [];
       field_model_rels := []; field_references := [];
       view_module_rels := map view_module_row kept;
       view_model_rels := map view_model_row kept;
       view_inheritances := concat (map view_inheritance_of kept) |}.
Proof.
  intros Hkept. apply dataset_eq.
  all: match goal with
       | |- ?f _ = _ => rewrite !(fold_data_extend_proj f) by done
       end.
  all: cbn [empty_data modules models views fields module_dependencies
            model_module_rels model_inheritances model_delegations field_model_rels
            field_references view_module_rels view_model_rels view_inheritances app].
  all: induction Hkept as [|view kept [Hx Hm] _ IH]; [done|].
  all: cbn [map concat]; rewrite IH, (organize_kept_view view Hx Hm); done.
Qed.

Lemma view_inheritance_rows_kept kept :
  result_mapM view_inheritance_rows (map view_to_dict kept)
  = Ok (map view_inheritance_of kept).
Proof.
  induction kept as [|view kept IH]; [done|].
  cbn [map result_mapM]. rewrite IH.
  unfold view_inheritance_rows, view_inheritance_of.
  change (row_get "inherit_id" (view_to_dict view)) with (OdooView.inherit_id view).
  by destruct (py_truthy (OdooView.inherit_id view)).
Qed.

Lemma same_effect_view_nodes kept :
  Forall2 (same_effect q_views q_views) (map view_to_dict kept) (map view_row kept).
Proof.
  induction kept as [|view kept IH]; [constructor|].
  cbn [map]. constructor; [|done].
  split; [done|]. repeat constructor.
Qed.

Lemma same_effect_view_module kept :
  Forall2 (same_effect rel_module_query q_view_module_rels)
          (map view_to_dict kept) (map view_module_row kept).
Proof.
  induction kept as [|view kept IH]; [constructor|].
  cbn [map]. constructor; [|done].
  split; [done|]. repeat constructor.
Qed.

Lemma same_effect_view_model kept :
  Forall2 (same_effect rel_model_query q_view_model_rels)
          (map view_to_dict kept) (map view_model_row kept).
Proof.
  induction kept as [|view kept IH]; [constructor|].
  cbn [map]. constructor; [|done].
  split; [done|]. repeat constructor.
Qed.

(** X22.  For view records, [load_views] does what [load_organized_data]
    does with the dataset of these views alone: the views without an
    identifier or a model are left out, and the rest go through the same
    batches to the same store and metrics, with the same exception if one
    is raised, under the same failures of the four sub-steps. *)
Theorem X22_load_views_agrees fail all_views d self :
  organize_data_for_loading [] [] all_views = Ok d →
  load_views (fail 3) (fail 11) (fail 12) (fail 13) (map view_to_dict all_views) self
  = load_organized_data fail d self.
Proof.
  intros ->%organize_views_only.
  rewrite (organize_kept_views _ (kept_views_valid all_views)).
  unfold load_views. cbn zeta. rewrite valid_views_kept.
  destruct (kept_views all_views) as [|view kept]; [done|].
  pose proof (same_effect_view_nodes (view :: kept)) as Hnodes.
  pose proof (same_effect_view_module (view :: kept)) as Hmodule.
  pose proof (same_effect_view_model (view :: kept)) as Hmodel.
  unfold load_organized_data, rel_step, _load_view_inheritance.
  cbn [modules models views fields module_dependencies model_module_rels
       model_inheritances model_delegations field_model_rels field_references
       view_module_rels view_model_rels view_inheritances].
  rewrite view_inheritance_rows_kept.
  rewrite (batch_execute_same_effect (fail 3) _ _ _ _ self Hnodes).
  repeat (rewrite batch_execute_nil; cbn [result_bind result_mapM fst]).
  cbn [map] in *.
  destruct (_batch_execute (fail 3) q_views _ self) as [r3|]; cbn [result_bind]; [|done].
  rewrite batch_execute_nil. cbn [result_bind fst].
  rewrite (batch_execute_same_effect (fail 11) _ _ _ _ r3.1 Hmodule).
  destruct (_batch_execute (fail 11) q_view_module_rels _ r3.1) as [r11|];
    cbn [result_bind]; [|done].
  rewrite (batch_execute_same_effect (fail 12) _ _ _ _ r11.1 Hmodel).
  destruct (_batch_execute (fail 12) q_view_model_rels _ r11.1) as [r12|];
    cbn [result_bind]; [|done].
  by destruct (concat _).
Qed.

Lemma X22_load_views_agrees_witness :
  load_views never never never never (map view_to_dict [lone_view; inherited_view])
             (fresh_loader 2)
  = load_organized_data (λ _, never)
      (match organize_data_for_loading [] [] [lone_view; inherited_view] with
       | Ok d => d
       | Raise _ => empty_data
       end) (fresh_loader 2).
Proof.
  apply (X22_load_views_agrees (λ _, never) [lone_view; inherited_view]).
  vm_compute. reflexivity.
Defined.
